(** * PAA texture container codec: a shallow embedding and its properties.

    The Go packages [paa] and [paa/texconfig] are embedded function by
    function.  Bytes and Go integers are [Z] with wrap-around written out, byte
    slices are [list Z], the tag table [map[string][]byte] is a
    [gmap string (list Z)], and a reader is a byte buffer with a cursor.
    External packages (bcn, lzo, lzss) and the floating-point pixel kernels
    are fields of the class [Collaborators]. *)

From Stdlib Require Import ZArith Lia Ascii String.
From stdpp Require Import gmap strings list fin_maps.

Local Open Scope Z_scope.

(** ** Bytes, words and strings *)

(** [uint8(v)], [uint16(v)], [uint32(v)]: Go's truncating conversions. *)
Definition uint8 (v : Z) : Z := v mod 256.
Definition uint16 (v : Z) : Z := v mod 65536.
Definition uint32 (v : Z) : Z := v mod 4294967296.

(** [binary.LittleEndian.Uint16] / [Uint32] on the first bytes of a slice. *)
Definition LittleEndian_Uint16 (b : list Z) : Z :=
  match b with
  | b0 :: b1 :: _ => Z.lor b0 (Z.shiftl b1 8)
  | _ => 0
  end.

Definition LittleEndian_Uint32 (b : list Z) : Z :=
  match b with
  | b0 :: b1 :: b2 :: b3 :: _ =>
      Z.lor (Z.lor (Z.lor b0 (Z.shiftl b1 8)) (Z.shiftl b2 16)) (Z.shiftl b3 24)
  | _ => 0
  end.

(** The bytes [binary.Write(w, binary.LittleEndian, v)] emits. *)
Definition le_uint16_bytes (v : Z) : list Z :=
  [uint8 v; uint8 (Z.shiftr v 8)].

Definition le_uint32_bytes (v : Z) : list Z :=
  [uint8 v; uint8 (Z.shiftr v 8); uint8 (Z.shiftr v 16); uint8 (Z.shiftr v 24)].

(** A [[4]byte] array, and the slice [t[:]] of its bytes. *)
Definition byte4 : Type := Z * Z * Z * Z.

Definition byte4_slice (t : byte4) : list Z :=
  let '(b0, b1, b2, b3) := t in [b0; b1; b2; b3].

(** Go strings are byte sequences, and so are Rocq's: [string(buf)] and
    [[]byte(s)]. *)
Definition string_of_bytes (b : list Z) : string :=
  foldr (fun c s => String (ascii_of_N (Z.to_N c)) s) EmptyString b.

Fixpoint bytes_of_string (s : string) : list Z :=
  match s with
  | EmptyString => []
  | String a s' => Z.of_N (N_of_ascii a) :: bytes_of_string s'
  end.

(** ** Errors (errors.go) *)

Inductive error : Type :=
| ErrNoMipmaps
| ErrInvalidMagic
| ErrMissingSFFO
| ErrInsufficientData
| ErrUnsupportedPixelFmt
| ErrUnsupportedFormat
| ErrLZODecompress
| ErrLZSSDecompress
| ErrDXTDecode
| ErrInvalidDimensions
| io_EOF
| io_ErrUnexpectedEOF
| ErrExternal (pkg : string)          (* an error value of bcn, lzo or lzss *)
| Errorf_w (e : error) (msg : string) (* fmt.Errorf("%w: msg", e) *)
| errors_Join (e1 e2 : error)
| GoPanic (msg : string).             (* a run-time panic, e.g. index out of range *)

#[global] Instance error_eq_dec : EqDecision error.
Proof. solve_decision. Defined.

(** [errors.Is(err, target)]. *)
Fixpoint errors_Is (err target : error) : bool :=
  if decide (err = target) then true
  else match err with
       | Errorf_w e _ => errors_Is e target
       | errors_Join e1 e2 => errors_Is e1 target || errors_Is e2 target
       | _ => false
       end.

Inductive result (A : Type) : Type :=
| OK (a : A)
| Err (e : error).
Arguments OK {A} a.
Arguments Err {A} e.

#[global] Instance result_ret : MRet result := fun A a => OK a.
#[global] Instance result_bind : MBind result := fun A B f m =>
  match m with
  | OK a => f a
  | Err e => Err e
  end.
#[global] Instance result_fmap : FMap result := fun A B f m =>
  match m with
  | OK a => OK (f a)
  | Err e => Err e
  end.

(** ** Readers: [io.Reader] with [io.Seeker] (read_shared.go, ensureSeeker)

    [ensureSeeker] buffers a reader that cannot seek into a [bytes.Reader], so
    every decode entry point works on a byte buffer with a cursor. *)

Record reader : Type := mkReader { r_data : list Z; r_pos : nat }.

Definition bytes_NewReader (data : list Z) : reader := mkReader data 0.

(** Reading computations: the reader is threaded, an error ends the call. *)
Definition Rd (A : Type) : Type := reader -> result (A * reader).

#[global] Instance Rd_ret : MRet Rd := fun A a r => OK (a, r).
#[global] Instance Rd_bind : MBind Rd := fun A B f m r =>
  match m r with
  | OK (a, r') => f a r'
  | Err e => Err e
  end.

Definition Rd_fail {A} (e : error) : Rd A := fun _ => Err e.

(** [io.ReadFull(r, buf)] with [len(buf) = n]. *)
Definition io_ReadFull (n : nat) : Rd (list Z) := fun r =>
  let rest := drop (r_pos r) (r_data r) in
  if (n =? 0)%nat then OK ([], r)
  else if (n <=? length rest)%nat
       then OK (take n rest, mkReader (r_data r) (r_pos r + n))
       else match rest with
            | [] => Err io_EOF
            | _ :: _ => Err io_ErrUnexpectedEOF
            end.

(** [binary.Read(r, binary.LittleEndian, &v)] for [uint16] and [uint32]. *)
Definition binary_Read_uint16 : Rd Z :=
  b ← io_ReadFull 2; mret (LittleEndian_Uint16 b).

Definition binary_Read_uint32 : Rd Z :=
  b ← io_ReadFull 4; mret (LittleEndian_Uint32 b).

(** [seeker.Seek(int64(offset), io.SeekStart)]. *)
Definition Seek (offset : Z) : Rd unit := fun r =>
  OK (tt, mkReader (r_data r) (Z.to_nat offset)).

(** ** Pixel formats (PaxType) *)

Inductive PaxType : Type :=
| PaxUnset          (* the zero value: no format chosen *)
| PaxDXT1 | PaxDXT2 | PaxDXT3 | PaxDXT4 | PaxDXT5
| PaxARGB4 | PaxARGBA5 | PaxARGB8 | PaxGRAYA.

#[global] Instance PaxType_eq_dec : EqDecision PaxType.
Proof. solve_decision. Defined.

Definition PaxType_Bytes (p : PaxType) : list Z :=
  match p with
  | PaxDXT1 => [1; 255]
  | PaxDXT2 => [2; 255]
  | PaxDXT3 => [3; 255]
  | PaxDXT4 => [4; 255]
  | PaxDXT5 => [5; 255]
  | PaxARGB4 => [68; 68]
  | PaxARGBA5 => [85; 21]
  | PaxARGB8 => [136; 136]
  | PaxGRAYA => [128; 128]
  | PaxUnset => [0; 0]
  end.

Definition PaxTypeFromBytes (b : list Z) : option PaxType :=
  match b with
  | b0 :: b1 :: _ =>
      let v := Z.lor b0 (Z.shiftl b1 8) in
      if v =? 0xFF01 then Some PaxDXT1
      else if v =? 0xFF02 then Some PaxDXT2
      else if v =? 0xFF03 then Some PaxDXT3
      else if v =? 0xFF04 then Some PaxDXT4
      else if v =? 0xFF05 then Some PaxDXT5
      else if v =? 0x4444 then Some PaxARGB4
      else if v =? 0x1555 then Some PaxARGBA5
      else if v =? 0x8888 then Some PaxARGB8
      else if v =? 0x8080 then Some PaxGRAYA
      else None
  | _ => None
  end.

Definition isDXT (t : PaxType) : bool :=
  match t with
  | PaxDXT1 | PaxDXT2 | PaxDXT3 | PaxDXT4 | PaxDXT5 => true
  | _ => false
  end.

(** [isDXTPaxType] of the metadata reader: the same test as a switch. *)
Definition isDXTPaxType (t : PaxType) : bool :=
  match t with
  | PaxDXT1 | PaxDXT2 | PaxDXT3 | PaxDXT4 | PaxDXT5 => true
  | _ => false
  end.

(** ** Tag section (read_shared.go) *)

Definition readPaxType : Rd PaxType :=
  header ← io_ReadFull 2;
  match PaxTypeFromBytes header with
  | Some t => mret t
  | None => Rd_fail ErrInvalidMagic
  end.

Definition GGAT : list Z := bytes_of_string "GGAT".

(** The [for { ... }] loop of [readGGATTags].  Every iteration that goes on
    consumes at least twelve bytes, so the number of unread bytes bounds the
    iterations; [fuel] is that bound and its exhaustion cannot be reached
    (lemma [readTagsLoop_fuel]). *)
Fixpoint readTagsLoop (fuel : nat) (tags : gmap string (list Z))
  : Rd (gmap string (list Z)) :=
  sig ← io_ReadFull 4;
  if decide (sig = GGAT) then
    match fuel with
    | O => Rd_fail io_ErrUnexpectedEOF
    | S fuel' =>
        nameBuf ← io_ReadFull 4;
        size ← binary_Read_uint32;
        data ← io_ReadFull (Z.to_nat size);
        readTagsLoop fuel' (<[string_of_bytes nameBuf := data]> tags)
    end
  else mret tags.

Definition unread (r : reader) : nat := length (drop (r_pos r) (r_data r)).

Definition readGGATTags : Rd (gmap string (list Z)) := fun r =>
  readTagsLoop (unread r) ∅ r.

(** The 32-bit little-endian words of the SFFO payload, as the loop
    [for i := 0; i+4 <= len(sffo); i += 4] reads them. *)
Fixpoint sffoWords (sffo : list Z) : list Z :=
  match sffo with
  | b0 :: b1 :: b2 :: b3 :: rest =>
      LittleEndian_Uint32 [b0; b1; b2; b3] :: sffoWords rest
  | _ => []
  end.

Definition sffoOffsets (tags : gmap string (list Z)) : result (list Z) :=
  match tags !! "SFFO"%string with
  | None => Err ErrMissingSFFO
  | Some sffo =>
      let out := filter (fun v => v ≠ 0) (sffoWords sffo) in
      match out with
      | [] => Err (Errorf_w ErrMissingSFFO "no non-zero offsets")
      | _ :: _ => OK out
      end
  end.

(** ** Images

    [Image] is an [image.Image] as the codec observes it: its bounds and, at
    each point (relative to [Bounds().Min]), the colour that
    [color.NRGBAModel.Convert(img.At(x, y))] returns.  The alpha that
    [img.At(x, y).RGBA()] yields, shifted right by 8, is the alpha of that
    colour for every colour type. *)

Record NRGBA : Type := mkNRGBA { c_R : Z; c_G : Z; c_B : Z; c_A : Z }.

#[global] Instance NRGBA_eq_dec : EqDecision NRGBA.
Proof. solve_decision. Defined.

Record Image : Type := mkImage { Dx : Z; Dy : Z; At : Z -> Z -> NRGBA }.

(** The points of an image in the order of the loops
    [for y := Min.Y; y < Max.Y; y++ { for x := Min.X; x < Max.X; x++ {..} }]. *)
Definition points (w h : Z) : list (Z * Z) :=
  y ← seqZ 0 h; x ← seqZ 0 w; [(x, y)].

Definition pixels (img : Image) : list NRGBA :=
  (fun p => At img p.1 p.2) <$> points (Dx img) (Dy img).

(** [*image.NRGBA]: the pixel buffer, its stride and the size of [Rect]
    (whose [Min] is the origin, as [image.NewNRGBA(image.Rect(0, 0, w, h))]
    makes it). *)
Record image_NRGBA : Type :=
  mkNRGBAImage { Pix : list Z; Stride : Z; Rect_Dx : Z; Rect_Dy : Z }.

#[global] Instance image_NRGBA_eq_dec : EqDecision image_NRGBA.
Proof. solve_decision. Defined.

Definition image_NewNRGBA (w h : Z) : image_NRGBA :=
  mkNRGBAImage (replicate (Z.to_nat (4 * w * h)) 0) (4 * w) w h.

(** [p.Pix[i]]; reading past the end panics. *)
Definition Pix_get (pix : list Z) (i : Z) : result Z :=
  if i <? 0 then Err (GoPanic "index out of range")
  else match pix !! Z.to_nat i with
       | Some v => OK v
       | None => Err (GoPanic "index out of range")
       end.

(** [p.Pix[i] = v]; writing past the end panics. *)
Definition Pix_set (pix : list Z) (i : Z) (v : Z) : result (list Z) :=
  if (0 <=? i) && (i <? Z.of_nat (length pix))
  then OK (<[Z.to_nat i := v]> pix)
  else Err (GoPanic "index out of range").

(** An [*image.NRGBA] seen as an [image.Image]: [NRGBAAt]. *)
Definition NRGBA_At (n : image_NRGBA) (x y : Z) : NRGBA :=
  if (0 <=? x) && (x <? Rect_Dx n) && (0 <=? y) && (y <? Rect_Dy n) then
    let off := Z.to_nat (y * Stride n + x * 4) in
    mkNRGBA (Pix n !!! off) (Pix n !!! S off)
            (Pix n !!! S (S off)) (Pix n !!! S (S (S off)))
  else mkNRGBA 0 0 0 0.

Definition as_Image (n : image_NRGBA) : Image :=
  mkImage (Rect_Dx n) (Rect_Dy n) (NRGBA_At n).

(** ** External packages and floating-point kernels *)

Inductive bcn_Format : Type :=
| bcn_FormatUnknown | bcn_FormatDXT1 | bcn_FormatDXT3 | bcn_FormatDXT5.

#[global] Instance bcn_Format_eq_dec : EqDecision bcn_Format.
Proof. solve_decision. Defined.

(** [bcn.RGBWeights] and [bcn.EncodeOptions]. *)
Record bcn_RGBWeights : Type := mkWeights { w_R : Z; w_G : Z; w_B : Z }.

Record bcn_EncodeOptions : Type := mkBCnOptions {
  bcn_RGBWeights_ : option bcn_RGBWeights;
  bcn_Refinement : option Z;
  bcn_QualityLevel : Z;
  bcn_Workers : Z;
  bcn_GenerateMipmaps_ : bool;
  bcn_UseSRGB : bool;
  bcn_AlphaThreshold : Z
}.

Definition bcn_EncodeOptions_zero : bcn_EncodeOptions :=
  mkBCnOptions None None 0 0 false false 0.

(** What the codec calls but does not define: the block codec and mip
    generator of package bcn, the LZO and LZSS compressors, and the
    floating-point arithmetic of the per-pixel kernels. *)
Class Collaborators : Type := {
  (* bcn.EncodeImageWithOptions(img, format, opts): the blocks *)
  bcn_EncodeImageWithOptions :
    Image -> bcn_Format -> option bcn_EncodeOptions -> result (list Z);
  (* bcn.DecodeImage(data, w, h, format) *)
  bcn_DecodeImage : list Z -> Z -> Z -> bcn_Format -> result image_NRGBA;
  (* bcn.GenerateMipmaps(img, useSRGB) *)
  bcn_GenerateMipmaps : Image -> bool -> list Image;
  (* lzo.Compress(data, nil) *)
  lzo_Compress : list Z -> result (list Z);
  (* lzo.Decompress(payload, lzo.DefaultDecompressOptions(expected)) *)
  lzo_Decompress : list Z -> Z -> result (list Z);
  (* lzss.Compress(data, {ChecksumSigned, SearchLimit: 2048}) *)
  lzss_Compress : list Z -> result (list Z);
  (* lzss.Decompress(payload, expected, lzss.SignedLenientOptions()) *)
  lzss_Decompress : list Z -> Z -> result (list Z);
  (* swizzleNormalMap, per pixel: the stored colour for a tangent normal *)
  swizzleNormalPixel : NRGBA -> NRGBA;
  (* unswizzleNormalMap, per pixel: (R, G, B) from stored G, B, A *)
  unswizzleNormalPixel : Z -> Z -> Z -> Z * Z * Z;
  (* uint8(math.Round(0.299*R + 0.587*G + 0.114*B)) *)
  grayLuma : Z -> Z -> Z -> Z;
  (* blendToValue(v, target, math.Pow(0.5, level)) *)
  blendToValue : Z -> Z -> Z -> Z;
  (* uint8(math.Round(float64(a) * math.Pow(0.5, level))) *)
  fadeAlphaValue : Z -> Z -> Z;
  (* normalizeNormal(r, g, b) *)
  normalizeNormal : Z -> Z -> Z -> Z * Z * Z
}.

(** ** Mip blocks (mip_map.go) *)

Record MipMap : Type := mkMipMap {
  mm_Data : list Z;
  mm_Type : PaxType;
  mm_Width : Z;
  mm_Height : Z
}.

Definition expectedMipSize (paxType : PaxType) (width height : Z) : Z :=
  if (width <=? 0) || (height <=? 0) then 0
  else match paxType with
       | PaxDXT1 => ((width + 3) / 4) * ((height + 3) / 4) * 8
       | PaxDXT2 | PaxDXT3 | PaxDXT4 | PaxDXT5 =>
           ((width + 3) / 4) * ((height + 3) / 4) * 16
       | PaxARGB8 => width * height * 4
       | PaxARGBA5 | PaxARGB4 => width * height * 2
       | PaxGRAYA => width * height * 2
       | PaxUnset => -1
       end.

Definition lift {A} (m : result A) : Rd A := fun r =>
  match m with
  | OK a => OK (a, r)
  | Err e => Err e
  end.

Section MipBlock.
Context `{Collaborators}.

(** [readMipMap]: [None] is the [(nil, nil)] of the dummy block. *)
Definition readMipMap (paxType : PaxType) : Rd (option MipMap) :=
  w ← binary_Read_uint16;
  h ← binary_Read_uint16;
  if (w =? 0) && (h =? 0) then mret None
  else
    let lzoFlag := isDXT paxType && negb (Z.land w 0x8000 =? 0) in
    let width := if lzoFlag then Z.land w 0x7FFF else w in
    let height := h in
    sizeBuf ← io_ReadFull 3;
    let storedSize :=
      match sizeBuf with
      | b0 :: b1 :: b2 :: _ => Z.lor (Z.lor b0 (Z.shiftl b1 8)) (Z.shiftl b2 16)
      | _ => 0
      end in
    payload ← io_ReadFull (Z.to_nat storedSize);
    let expectedRaw := expectedMipSize paxType width height in
    if expectedRaw <? 0 then Rd_fail ErrUnsupportedPixelFmt
    else
      raw ← (if storedSize =? expectedRaw then mret payload
             else if isDXT paxType then
               if negb lzoFlag then Rd_fail ErrInsufficientData
               else match lzo_Decompress payload expectedRaw with
                    | OK dec => mret dec
                    | Err e => Rd_fail (errors_Join ErrLZODecompress e)
                    end
             else match lzss_Decompress payload expectedRaw with
                  | OK dec => mret dec
                  | Err e => Rd_fail (errors_Join ErrLZSSDecompress e)
                  end);
      mret (Some (mkMipMap raw paxType width height)).
End MipBlock.

(** ** The decoded file and the container reader (read.go) *)

Record PAA : Type := mkPAA {
  Taggs : gmap string (list Z);
  MipMaps : list MipMap;
  Palette : list Z;
  paa_Type : PaxType
}.

Section Container.
Context `{Collaborators}.

(** The loop [for _, offset := range offsets] of [DecodePAA]. *)
Fixpoint readMipMaps (paxType : PaxType) (offsets : list Z)
    (acc : list MipMap) : Rd (list MipMap) :=
  match offsets with
  | [] => mret acc
  | offset :: rest =>
      _ ← Seek offset;
      mm ← readMipMap paxType;
      match mm with
      | None => readMipMaps paxType rest acc
      | Some m => readMipMaps paxType rest (acc ++ [m])
      end
  end.

(** [DecodePAA], on the buffered reader that [ensureSeeker] returns. *)
Definition DecodePAA_reader : Rd PAA :=
  pType ← readPaxType;
  tags ← readGGATTags;
  offsets ← lift (sffoOffsets tags);
  mips ← readMipMaps pType offsets [];
  mret (mkPAA tags mips [] pType).

Definition DecodePAA (stream : list Z) : result PAA :=
  fst <$> DecodePAA_reader (bytes_NewReader stream).

(** The earlier revision of [DecodePAA], with the tag loop and the walk
    over the SFFO words written in line: a zero word is skipped, and a
    table of zero words yields a file without mips. *)
Definition DecodePAA_inline_reader : Rd PAA :=
  header ← io_ReadFull 2;
  match PaxTypeFromBytes header with
  | None => Rd_fail ErrInvalidMagic
  | Some pType =>
      tags ← readGGATTags;
      match tags !! "SFFO"%string with
      | None => Rd_fail ErrMissingSFFO
      | Some sffoData =>
          mips ← readMipMaps pType
                   (filter (fun v => v ≠ 0) (sffoWords sffoData)) [];
          mret (mkPAA tags mips [] pType)
      end
  end.

Definition DecodePAA_inline (stream : list Z) : result PAA :=
  fst <$> DecodePAA_inline_reader (bytes_NewReader stream).
End Container.

(** ** Metadata reader *)

Record MipHeader : Type := mkMipHeader {
  mh_Offset : Z;
  mh_Height : Z;
  mh_Width : Z
}.

Record Metadata : Type := mkMetadata {
  md_Taggs : gmap string (list Z);
  md_MipHeaders : list MipHeader;
  md_Type : PaxType
}.

Fixpoint readMipHeaders (paxType : PaxType) (offsets : list Z)
    (acc : list MipHeader) : Rd (list MipHeader) :=
  match offsets with
  | [] => mret acc
  | offset :: rest =>
      _ ← Seek offset;
      w ← binary_Read_uint16;
      h ← binary_Read_uint16;
      if (w =? 0) && (h =? 0) then readMipHeaders paxType rest acc
      else
        let w' := if isDXTPaxType paxType && negb (Z.land w 0x8000 =? 0)
                  then Z.land w 0x7FFF else w in
        readMipHeaders paxType rest (acc ++ [mkMipHeader offset h w'])
  end.

Definition DecodeMetadata_reader : Rd Metadata :=
  pType ← readPaxType;
  tags ← readGGATTags;
  offsets ← lift (sffoOffsets tags);
  headers ← readMipHeaders pType offsets [];
  mret (mkMetadata tags headers pType).

Definition DecodeMetadata (stream : list Z) : result Metadata :=
  fst <$> DecodeMetadata_reader (bytes_NewReader stream).

(** ** Pixel-format codec for the uncompressed formats *)

(** A loop [for _, x := range xs { s, err = body(x, s); if err != nil { return err } }]. *)
Fixpoint forM {S X : Type} (xs : list X) (body : X -> S -> result S) (s : S)
  : result S :=
  match xs with
  | [] => OK s
  | x :: xs' => s' ← body x s; forM xs' body s'
  end.

(** [binary.LittleEndian.PutUint16(raw[i:], v)]. *)
Definition PutUint16 (raw : list Z) (i : nat) (v : Z) : list Z :=
  <[S i := uint8 (Z.shiftr v 8)]> (<[i := uint8 v]> raw).

(** The 16-bit words of one pixel. *)
Definition packARGB1555 (c : NRGBA) : Z :=
  let a := if 128 <=? c_A c then 1 else 0 in
  let r := Z.shiftr (c_R c) 3 in
  let g := Z.shiftr (c_G c) 3 in
  let bl := Z.shiftr (c_B c) 3 in
  Z.lor (Z.lor (Z.lor (Z.shiftl a 15) (Z.shiftl r 10)) (Z.shiftl g 5)) bl.

Definition packARGB4444 (c : NRGBA) : Z :=
  let r := Z.shiftr (c_R c) 4 in
  let g := Z.shiftr (c_G c) 4 in
  let bl := Z.shiftr (c_B c) 4 in
  let a := Z.shiftr (c_A c) 4 in
  Z.lor (Z.lor (Z.lor (Z.shiftl a 12) (Z.shiftl bl 8)) (Z.shiftl g 4)) r.

Section PixelFormat.
Context `{Collaborators}.

(** One iteration of the pixel loop of [encodePixelFormat]: the buffer and
    the running index [i]. *)
Definition encodeStep (format : PaxType) (st : list Z * nat) (c : NRGBA)
  : list Z * nat :=
  let '(raw, i) := st in
  match format with
  | PaxARGB8 =>
      (<[(i + 3)%nat := c_A c]> (<[(i + 2)%nat := c_R c]>
         (<[(i + 1)%nat := c_G c]> (<[i := c_B c]> raw))), (i + 4)%nat)
  | PaxARGBA5 => (PutUint16 raw i (packARGB1555 c), (i + 2)%nat)
  | PaxARGB4 => (PutUint16 raw i (packARGB4444 c), (i + 2)%nat)
  | PaxGRAYA =>
      (<[(i + 1)%nat := c_A c]> (<[i := grayLuma (c_R c) (c_G c) (c_B c)]> raw),
       (i + 2)%nat)
  | _ => st
  end.

Definition bytesPerPixel (format : PaxType) : Z :=
  match format with
  | PaxARGB8 => 4
  | PaxARGBA5 | PaxARGB4 | PaxGRAYA => 2
  | _ => 0
  end.

Definition encodePixelFormat (format : PaxType) (img : Image)
  : result (list Z) :=
  let w := Dx img in
  let h := Dy img in
  if (w <=? 0) || (h <=? 0) then Err ErrInvalidDimensions
  else match format with
       | PaxARGB8 | PaxARGBA5 | PaxARGB4 | PaxGRAYA =>
           let raw := replicate (Z.to_nat (w * h * bytesPerPixel format)) 0 in
           OK (foldl (encodeStep format) (raw, 0%nat) (pixels img)).1
       | _ => Err ErrUnsupportedPixelFmt
       end.

(** The loop bodies of [decodePixelFormat], on the pixel buffer. *)
Definition decodeARGB8 (rawData : list Z) (i : Z) (pix : list Z)
  : result (list Z) :=
  let off := i * 4 in
  v0 ← Pix_get rawData (off + 2); pix ← Pix_set pix (off + 0) v0;
  v1 ← Pix_get rawData (off + 1); pix ← Pix_set pix (off + 1) v1;
  v2 ← Pix_get rawData (off + 0); pix ← Pix_set pix (off + 2) v2;
  v3 ← Pix_get rawData (off + 3); Pix_set pix (off + 3) v3.

Definition decodeARGB1555 (rawData : list Z) (i : Z) (pix : list Z)
  : result (list Z) :=
  let p := LittleEndian_Uint16 (drop (Z.to_nat (i * 2)) rawData) in
  let a := if Z.land p 0x8000 =? 0 then 0 else 255 in
  let r := uint8 (Z.shiftl (uint8 (Z.land (Z.shiftr p 10) 0x1F)) 3) in
  let g := uint8 (Z.shiftl (uint8 (Z.land (Z.shiftr p 5) 0x1F)) 3) in
  let b := uint8 (Z.shiftl (uint8 (Z.land p 0x1F)) 3) in
  let off := i * 4 in
  pix ← Pix_set pix (off + 0) r;
  pix ← Pix_set pix (off + 1) g;
  pix ← Pix_set pix (off + 2) b;
  Pix_set pix (off + 3) a.

Definition decodeARGB4444 (rawData : list Z) (i : Z) (pix : list Z)
  : result (list Z) :=
  let p := LittleEndian_Uint16 (drop (Z.to_nat (i * 2)) rawData) in
  pix ← Pix_set pix (i * 4 + 0) (uint8 (Z.shiftl (Z.land p 0x0F) 4));
  pix ← Pix_set pix (i * 4 + 1)
          (uint8 (Z.shiftl (Z.land (Z.shiftr p 4) 0x0F) 4));
  pix ← Pix_set pix (i * 4 + 2)
          (uint8 (Z.shiftl (Z.land (Z.shiftr p 8) 0x0F) 4));
  Pix_set pix (i * 4 + 3) (uint8 (Z.shiftl (Z.land (Z.shiftr p 12) 0x0F) 4)).

Definition decodeGRAYA (rawData : list Z) (i : Z) (pix : list Z)
  : result (list Z) :=
  let off := i * 2 in
  v ← Pix_get rawData (off + 0);
  a ← Pix_get rawData (off + 1);
  pix ← Pix_set pix (i * 4 + 0) v;
  pix ← Pix_set pix (i * 4 + 1) v;
  pix ← Pix_set pix (i * 4 + 2) v;
  Pix_set pix (i * 4 + 3) a.

(** [decodePixelFormat]: the image with its buffer filled in. *)
Definition decodePixelFormat (format : PaxType) (rawData : list Z)
    (width height : Z) (img : image_NRGBA) : result image_NRGBA :=
  let len := Z.of_nat (length rawData) in
  let set pix := mkNRGBAImage pix (Stride img) (Rect_Dx img) (Rect_Dy img) in
  match format with
  | PaxARGB8 =>
      let totalPixels := width * height in
      if len <? totalPixels * 4 then Err ErrInsufficientData
      else set <$> forM (seqZ 0 totalPixels) (decodeARGB8 rawData) (Pix img)
  | PaxARGBA5 =>
      set <$> forM (seqZ 0 (len / 2)) (decodeARGB1555 rawData) (Pix img)
  | PaxARGB4 =>
      set <$> forM (seqZ 0 (len / 2)) (decodeARGB4444 rawData) (Pix img)
  | PaxGRAYA =>
      let totalPixels := width * height in
      if len <? totalPixels * 2 then Err ErrInsufficientData
      else set <$> forM (seqZ 0 totalPixels) (decodeGRAYA rawData) (Pix img)
  | _ => Err ErrUnsupportedPixelFmt
  end.

Definition paxToBcnFormat (p : PaxType) : bcn_Format :=
  match p with
  | PaxDXT1 => bcn_FormatDXT1
  | PaxDXT3 => bcn_FormatDXT3
  | PaxDXT5 => bcn_FormatDXT5
  | PaxDXT2 => bcn_FormatDXT3
  | PaxDXT4 => bcn_FormatDXT5
  | _ => bcn_FormatUnknown
  end.

(** The method [Image] of [MipMap]. *)
Definition MipMap_Image (m : MipMap) : result image_NRGBA :=
  let w := mm_Width m in
  let h := mm_Height m in
  if (w <=? 0) || (h <=? 0) || (length (mm_Data m) =? 0)%nat
  then Err ErrInsufficientData
  else if isDXT (mm_Type m) then
    let bf := paxToBcnFormat (mm_Type m) in
    if decide (bf = bcn_FormatUnknown) then Err ErrUnsupportedPixelFmt
    else match bcn_DecodeImage (mm_Data m) w h bf with
         | OK img => OK img
         | Err e => Err (errors_Join ErrDXTDecode e)
         end
  else decodePixelFormat (mm_Type m) (mm_Data m) w h (image_NewNRGBA w h).
End PixelFormat.

(** ** Swizzle on decode *)

(** [swizzleDXT5NM], the SWIZTAGG of DXT5 normal maps, and the ADSHQ tag. *)
Definition swizzleDXT5NM : list Z := [0x05; 0x04; 0x02; 0x03].
Definition swizzleADSHQ : list Z := [0x02; 0x09; 0x03; 0x09].

(** [toNRGBA]: an [*image.NRGBA] is returned as it is. *)
Definition toNRGBA (img : image_NRGBA) : image_NRGBA := img.

(** The closure [get] of [applySwizzlePayload]. *)
Definition swizzleGet (src : image_NRGBA) (off : Z) (sel : Z) : result Z :=
  let s := Z.land sel 0x3 in
  if s =? 0 then Pix_get (Pix src) (off + 3)
  else if s =? 1 then Pix_get (Pix src) (off + 0)
  else if s =? 2 then Pix_get (Pix src) (off + 1)
  else Pix_get (Pix src) (off + 2).

(** The value stored for tag byte [t] at source offset [so]. *)
Definition swizzleValue (src : image_NRGBA) (so : Z) (t : Z) : result Z :=
  if negb (Z.land t 0x08 =? 0) then OK 0xFF
  else
    v ← swizzleGet src so t;
    OK (if negb (Z.land t 0x04 =? 0) then uint8 (255 - v) else v).

(** The destination index of tag byte [i]: A, R, G, B. *)
Definition swizzleSlot (i : Z) : Z :=
  if i =? 0 then 3 else if i =? 1 then 0 else if i =? 2 then 1 else 2.

Definition applySwizzlePayload (img : image_NRGBA) (tag : list Z)
  : result image_NRGBA :=
  let src := toNRGBA img in
  let w := Rect_Dx src in
  let h := Rect_Dy src in
  let dst := image_NewNRGBA w h in
  pix ← forM (points w h) (fun '(x, y) pix =>
           let so := y * Stride src + x * 4 in
           let do := y * Stride dst + x * 4 in
           forM (seqZ 0 4) (fun i pix =>
             v ← swizzleValue src so (tag !!! Z.to_nat i);
             Pix_set pix (do + swizzleSlot i) v) pix)
         (Pix dst);
  OK (mkNRGBAImage pix (Stride dst) w h).

Definition applyADSHQSwizzle (img : image_NRGBA) : result image_NRGBA :=
  let src := toNRGBA img in
  let w := Rect_Dx src in
  let h := Rect_Dy src in
  let dst := image_NewNRGBA w h in
  pix ← forM (points w h) (fun '(x, y) pix =>
           let so := y * Stride src + x * 4 in
           let do := y * Stride dst + x * 4 in
           a ← Pix_get (Pix src) (so + 3);
           pix ← Pix_set pix (do + 0) 0;
           pix ← Pix_set pix (do + 1) a;
           pix ← Pix_set pix (do + 2) a;
           Pix_set pix (do + 3) a)
         (Pix dst);
  OK (mkNRGBAImage pix (Stride dst) w h).

Section Decode.
Context `{Collaborators}.

(** [unswizzleNormalMap], the branch for an [*image.NRGBA]. *)
Definition unswizzleNormalMap (n : image_NRGBA) : result image_NRGBA :=
  let w := Rect_Dx n in
  let h := Rect_Dy n in
  let dst := image_NewNRGBA w h in
  pix ← forM (points w h) (fun '(x, y) pix =>
           let so := y * Stride n + x * 4 in
           let do := y * Stride dst + x * 4 in
           g ← Pix_get (Pix n) (so + 1);
           bVal ← Pix_get (Pix n) (so + 2);
           a ← Pix_get (Pix n) (so + 3);
           let '(r', g', b') := unswizzleNormalPixel g bVal a in
           pix ← Pix_set pix (do + 0) r';
           pix ← Pix_set pix (do + 1) g';
           pix ← Pix_set pix (do + 2) b';
           Pix_set pix (do + 3) 255)
         (Pix dst);
  OK (mkNRGBAImage pix (Stride dst) w h).

(** The swizzle a 4-byte tag selects. *)
Definition swizzleBy (swiz : list Z) (img : image_NRGBA) : result image_NRGBA :=
  if decide (swiz = swizzleDXT5NM) then unswizzleNormalMap img
  else if decide (swiz = swizzleADSHQ) then applyADSHQSwizzle img
  else applySwizzlePayload img swiz.

Definition applySwizzleTag (p : PAA) (img : image_NRGBA) : result image_NRGBA :=
  match Taggs p !! "ZIWS"%string with
  | None => OK img
  | Some tag =>
      if negb (length tag =? 4)%nat || negb (bool_decide (paa_Type p = PaxDXT5))
      then OK img
      else swizzleBy tag img
  end.

(** [Decode] (and [DecodeWithOptions], whose options only reach the block
    decoder). *)
Definition Decode (stream : list Z) : result image_NRGBA :=
  p ← DecodePAA stream;
  match MipMaps p with
  | [] => Err ErrNoMipmaps
  | m :: _ =>
      img ← MipMap_Image m;
      applySwizzleTag p img
  end.
End Decode.

(** ** Package texconfig *)

Module texconfig.

Inductive TexFormat : Type :=
| TexFormatDefault
| TexFormatP8
| TexFormatARGB4444
| TexFormatARGB1555
| TexFormatAI88
| TexFormatDXT1
| TexFormatDXT2
| TexFormatDXT3
| TexFormatDXT4
| TexFormatDXT5.

Inductive MipmapFilter : Type :=
| MipmapFilterDefault
| MipmapFilterFadeOut
| MipmapFilterFadeOutAlpha
| MipmapFilterAlphaNoise
| MipmapFilterAddAlphaNoise
| MipmapFilterNormalizeNormalMap
| MipmapFilterNormalizeNormalMapAlpha
| MipmapFilterNormalizeNormalMapNoise
| MipmapFilterNormalizeNormalMapFade.

Inductive ErrorMetrics : Type :=
| ErrorMetricsDefault
| ErrorMetricsDistance
| ErrorMetricsNormalMap
| ErrorMetricsOther (n : Z).   (* any other value of the underlying int *)

Inductive SwizzleSource : Type :=
| SwizzleA | SwizzleR | SwizzleG | SwizzleB
| SwizzleOther (n : Z).   (* any other value of the underlying int *)

#[global] Instance TexFormat_eq_dec : EqDecision TexFormat.
Proof. solve_decision. Defined.
#[global] Instance MipmapFilter_eq_dec : EqDecision MipmapFilter.
Proof. solve_decision. Defined.
#[global] Instance ErrorMetrics_eq_dec : EqDecision ErrorMetrics.
Proof. solve_decision. Defined.
#[global] Instance SwizzleSource_eq_dec : EqDecision SwizzleSource.
Proof. solve_decision. Defined.

(** [SwizzleExpr]: one channel expression (R, 1-A, 0, 1, ...). *)
Record SwizzleExpr : Type := mkExpr {
  Source : SwizzleSource;
  Valid : bool;
  IsConst : bool;
  ConstValue : Z;
  Invert : bool
}.

#[global] Instance SwizzleExpr_eq_dec : EqDecision SwizzleExpr.
Proof. solve_decision. Defined.

(** The zero value [SwizzleExpr{}]. *)
Definition SwizzleExpr_zero : SwizzleExpr := mkExpr SwizzleA false false 0 false.

Definition channelValue (src : SwizzleSource) (r g b a : Z) : Z :=
  match src with
  | SwizzleA => a
  | SwizzleR => r
  | SwizzleG => g
  | SwizzleB => b
  | SwizzleOther _ => 0
  end.

Definition SwizzleExpr_apply (e : SwizzleExpr) (r g b a : Z)
    (def : SwizzleSource) : Z :=
  if negb (Valid e) then channelValue def r g b a
  else if IsConst e then ConstValue e
  else
    let v := channelValue (Source e) r g b a in
    if Invert e then uint8 (255 - v) else v.

Definition isDefault (e : SwizzleExpr) (def : SwizzleSource) : bool :=
  if negb (Valid e) then true
  else if IsConst e then false
  else bool_decide (Source e = def) && negb (Invert e).

Record ChannelSwizzle : Type := mkSwizzle {
  sw_R : SwizzleExpr;
  sw_G : SwizzleExpr;
  sw_B : SwizzleExpr;
  sw_A : SwizzleExpr
}.

#[global] Instance ChannelSwizzle_eq_dec : EqDecision ChannelSwizzle.
Proof. solve_decision. Defined.

Definition IsIdentity (s : ChannelSwizzle) : bool :=
  isDefault (sw_R s) SwizzleR && isDefault (sw_G s) SwizzleG
  && isDefault (sw_B s) SwizzleB && isDefault (sw_A s) SwizzleA.

Definition ChannelSwizzle_apply (s : ChannelSwizzle) (r g b a : Z)
  : Z * Z * Z * Z :=
  (SwizzleExpr_apply (sw_R s) r g b a SwizzleR,
   SwizzleExpr_apply (sw_G s) r g b a SwizzleG,
   SwizzleExpr_apply (sw_B s) r g b a SwizzleB,
   SwizzleExpr_apply (sw_A s) r g b a SwizzleA).

Definition ziwsA : Z := 0x00.
Definition ziwsR : Z := 0x01.
Definition ziwsG : Z := 0x02.
Definition ziwsB : Z := 0x03.
Definition ziwsInvA : Z := 0x04.
Definition ziwsInvR : Z := 0x05.
Definition ziwsInvG : Z := 0x06.
Definition ziwsInvB : Z := 0x07.
Definition ziwsOne : Z := 0x08.
Definition ziwsZero : Z := 0x09.

(** The selector of a valid expression ([ziwsValue] after its first test). *)
Definition ziwsValueValid (expr : SwizzleExpr) : option Z :=
  if IsConst expr then
    if ConstValue expr =? 0 then Some ziwsZero else Some ziwsOne
  else
    match Source expr with
    | SwizzleA => if Invert expr then Some ziwsInvA else Some ziwsA
    | SwizzleR => if Invert expr then Some ziwsInvR else Some ziwsR
    | SwizzleG => if Invert expr then Some ziwsInvG else Some ziwsG
    | SwizzleB => if Invert expr then Some ziwsInvB else Some ziwsB
    | SwizzleOther _ => None
    end.

(** [ziwsValue]: an invalid expression stands for its default source. *)
Definition ziwsValue (expr : SwizzleExpr) (def : SwizzleSource) : option Z :=
  if negb (Valid expr)
  then ziwsValueValid (mkExpr def true false 0 false)
  else ziwsValueValid expr.

(** [ZIWSTag]: [OK None] is [(tag, false, nil)] of the identity, [OK (Some
    tag)] is [(tag, true, nil)]; the bytes are in A, R, G, B order. *)
Definition ZIWSTag (s : ChannelSwizzle) : result (option byte4) :=
  if IsIdentity s then OK None
  else
    match ziwsValue (sw_A s) SwizzleA with
    | None => Err (ErrExternal "unsupported swizzle expr for A")
    | Some va =>
    match ziwsValue (sw_R s) SwizzleR with
    | None => Err (ErrExternal "unsupported swizzle expr for R")
    | Some vr =>
    match ziwsValue (sw_G s) SwizzleG with
    | None => Err (ErrExternal "unsupported swizzle expr for G")
    | Some vg =>
    match ziwsValue (sw_B s) SwizzleB with
    | None => Err (ErrExternal "unsupported swizzle expr for B")
    | Some vb => OK (Some (va, vr, vg, vb))
    end end end end.

(** [ApplyChannelSwizzle]: a new image over the same bounds. *)
Definition ApplyChannelSwizzle (img : Image) (swz : ChannelSwizzle) : Image :=
  mkImage (Dx img) (Dy img) (fun x y =>
    let c := At img x y in
    let '(r, g, b2, a) :=
      ChannelSwizzle_apply swz (c_R c) (c_G c) (c_B c) (c_A c) in
    mkNRGBA r g b2 a).

(** [TextureHint]: one class of TexConvert.cfg; a [*bool] is an
    [option bool]. *)
Record TextureHint : Type := mkHint {
  EnableDXT : option bool;
  DynRange : option bool;
  AutoReduce : option bool;
  VirtualSwz : option bool;
  Dithering : option bool;
  ClassName : string;
  Extends : string;
  Pattern : string;
  Swizzle : ChannelSwizzle;
  Format : TexFormat;
  hint_MipmapFilter : MipmapFilter;
  hint_ErrorMetrics : ErrorMetrics;
  LimitSize : Z
}.

#[global] Instance TextureHint_eq_dec : EqDecision TextureHint.
Proof. solve_decision. Defined.

Record TexConvertConfig : Type := mkConfig {
  Hints : list TextureHint;
  ConvertVersion : Z;
  ApplyDefaultErrorMetrics : bool;
  UseSRGBFromDynRange : bool;
  DisableAutoReduce : bool;
  DisableLZO : bool
}.

#[global] Instance TexConvertConfig_eq_dec : EqDecision TexConvertConfig.
Proof. solve_decision. Defined.

(** [Clone]: the version and a copy of the hint list go into a fresh
    composite literal; its other fields keep their zero value. *)
Definition Clone (c : TexConvertConfig) : TexConvertConfig :=
  {| ConvertVersion := ConvertVersion c;
     Hints := Hints c;
     ApplyDefaultErrorMetrics := false;
     UseSRGBFromDynRange := false;
     DisableAutoReduce := false;
     DisableLZO := false |}.

(** The process-wide default: the [sync.Once] flag and the stored value
    ([defaultTexConvertErr] is only ever set to nil).  The mutex orders
    the calls; a run is a sequence of them. *)
Record DefaultState : Type := mkDefault {
  onceDone : bool;
  defaultTexConvertCfgv : TexConvertConfig
}.

Section Default.
(** The table [defaultTexConvertConfig()] returns. *)
Variable defaultTexConvertConfig : TexConvertConfig.

(** [defaultTexConvertOnce.Do(initDefaultTexConvert)]. *)
Definition onceInit (s : DefaultState) : DefaultState :=
  if onceDone s then s else mkDefault true defaultTexConvertConfig.

Definition DefaultTexConvertConfig (s : DefaultState)
  : TexConvertConfig * DefaultState :=
  let s := onceInit s in
  (Clone (defaultTexConvertCfgv s), s).

Definition SetDefaultTexConvertConfig (cfg : TexConvertConfig)
    (s : DefaultState) : DefaultState :=
  let s := onceInit s in
  mkDefault (onceDone s) (Clone cfg).
End Default.

End texconfig.

(** ** Mipmap filters (mipmap_filter.go) *)

Definition clampU8 (v : Z) : Z :=
  if v <? 0 then 0 else if 255 <? v then 255 else uint8 v.

(** [alphaNoise]: 32-bit wrap-around arithmetic; Go's [/] truncates. *)
Definition alphaNoise (x y level strength : Z) : Z :=
  let n := uint32 (uint32 (uint32 x * 1103515245) + uint32 (uint32 y * 12345)
                   + uint32 (uint32 level * 1013904223)) in
  let n := Z.lxor n (Z.shiftr n 13) in
  let n := uint32 (n * 0x85ebca6b) in
  let v := Z.land n 0x1f - 16 in
  if strength <=? 0 then v else Z.quot (v * strength) 16.

(** A per-pixel update of an image buffer in place: the bounds stay. *)
Definition mapPixels (f : Z -> Z -> NRGBA -> NRGBA) (img : Image) : Image :=
  mkImage (Dx img) (Dy img) (fun x y => f x y (At img x y)).

Section MipmapFilters.
Context `{Collaborators}.

Definition blendToMid (v level : Z) : Z := blendToValue v 128 level.

Definition fadeOutRGB (img : Image) (level : Z) : Image :=
  mapPixels (fun _ _ c =>
    mkNRGBA (blendToMid (c_R c) level) (blendToMid (c_G c) level)
            (blendToMid (c_B c) level) (c_A c)) img.

Definition fadeOutAlpha (img : Image) (level : Z) : Image :=
  mapPixels (fun _ _ c =>
    mkNRGBA (c_R c) (c_G c) (c_B c) (fadeAlphaValue (c_A c) level)) img.

Definition applyAlphaNoise (img : Image) (level strength : Z) : Image :=
  mapPixels (fun x y c =>
    mkNRGBA (c_R c) (c_G c) (c_B c)
            (clampU8 (c_A c + alphaNoise x y level strength))) img.

Definition normalizeNormalMap (img : Image) (keepAlpha fade : bool)
    (level : Z) : Image :=
  mapPixels (fun _ _ c =>
    let '(nr, ng, nb) := normalizeNormal (c_R c) (c_G c) (c_B c) in
    let nr := if fade then blendToValue nr 128 level else nr in
    let ng := if fade then blendToValue ng 128 level else ng in
    let nb := if fade then blendToValue nb 255 level else nb in
    mkNRGBA nr ng nb (if keepAlpha then c_A c else 255)) img.

Definition applyMipmapFilter (img : Image) (level : Z)
    (filter : texconfig.MipmapFilter) : Image :=
  match filter with
  | texconfig.MipmapFilterFadeOut => fadeOutRGB img level
  | texconfig.MipmapFilterFadeOutAlpha => fadeOutAlpha img level
  | texconfig.MipmapFilterAlphaNoise => applyAlphaNoise img level 8
  | texconfig.MipmapFilterAddAlphaNoise => applyAlphaNoise img level 16
  | texconfig.MipmapFilterNormalizeNormalMap =>
      normalizeNormalMap img false false level
  | texconfig.MipmapFilterNormalizeNormalMapAlpha =>
      normalizeNormalMap img true false level
  | texconfig.MipmapFilterNormalizeNormalMapNoise =>
      normalizeNormalMap img true false level
  | texconfig.MipmapFilterNormalizeNormalMapFade =>
      normalizeNormalMap img true true level
  | texconfig.MipmapFilterDefault => img
  end.

Definition generateMipmapsWithFilter (img : Image) (useSRGB : bool)
    (filter : texconfig.MipmapFilter) : list Image :=
  let mips := bcn_GenerateMipmaps img useSRGB in
  if decide (filter = texconfig.MipmapFilterDefault) then mips
  else imap (fun level m =>
               if (level =? 0)%nat then m
               else applyMipmapFilter m (Z.of_nat level) filter) mips.

(** [swizzleNormalMap]: a new image over the same bounds. *)
Definition swizzleNormalMap (img : Image) : Image :=
  mapPixels (fun _ _ c => swizzleNormalPixel c) img.
End MipmapFilters.

(** ** Encoder options (encode_options.go) *)

Record EncodeOptions : Type := mkOptions {
  BCn : option bcn_EncodeOptions;
  Swizzle : option texconfig.ChannelSwizzle;
  GenerateMipmaps : option bool;
  MipmapFilter : option texconfig.MipmapFilter;
  MaxMipCount : Z;
  MinMipSize : Z;
  Type_ : PaxType;
  SwizzleTag : byte4;
  NormalMapSwizzle : bool;
  WriteNohqSwizzleTag : bool;
  WriteSwizzleTag : bool;
  SkipSwizzle : bool;
  WriteGALF : bool;
  GALFValue : Z;
  ForceCXAMFull : bool;
  UseLZO : bool;
  ForceLZSS : bool;
  UseSRGB : bool
}.

(** The zero value [EncodeOptions{}]. *)
Definition EncodeOptions_zero : EncodeOptions :=
  mkOptions None None None None 0 0 PaxUnset (0, 0, 0, 0)
            false false false false false 0 false false false false.

(** ** The writer (write.go)

    The destination is a byte buffer that accepts every write; a failed
    encode reports its error and no bytes. *)

Definition Write (p : list Z) (out : list Z) : result (list Z) := OK (out ++ p).

(** The closure [writeTag] of [EncodeWithOptions]. *)
Definition writeTag (name : string) (payload : list Z) (out : list Z)
  : result (list Z) :=
  out ← Write GGAT out;
  out ← Write (bytes_of_string name) out;
  out ← Write (le_uint32_bytes (uint32 (Z.of_nat (length payload)))) out;
  Write payload out.

Record mipBlock : Type := mkMipBlock {
  mb_data : list Z;
  mb_w : Z;
  mb_h : Z;
  mb_useLZ : bool
}.

(** [binary.LittleEndian.PutUint32(sffo[i:i+4], v)]. *)
Definition PutUint32 (b : list Z) (i : nat) (v : Z) : list Z :=
  <[(i + 3)%nat := uint8 (Z.shiftr v 24)]>
    (<[(i + 2)%nat := uint8 (Z.shiftr v 16)]>
       (<[(i + 1)%nat := uint8 (Z.shiftr v 8)]> (<[i := uint8 v]> b))).

(** The loop [for i := 0; i < len(mips) && i < 16; i++] that fills the SFFO
    payload, from index [i] and offset [off]. *)
Fixpoint sffoFill (mips : list mipBlock) (i : nat) (off : Z) (sffo : list Z)
  : list Z :=
  match mips with
  | [] => sffo
  | m :: rest =>
      if (i <? 16)%nat
      then sffoFill rest (S i) (off + (2 + 2 + 3 + Z.of_nat (length (mb_data m))))
             (PutUint32 sffo (i * 4) (uint32 off))
      else sffo
  end.

(** The offset of the first mip block. *)
Definition baseOffset (writeGALF writeZIWS : bool) : Z :=
  let offset := 2 + 16 + 16 in
  let offset := if writeGALF then offset + 16 else offset in
  let offset := if writeZIWS then offset + 16 else offset in
  let offset := offset + (76 + 2) in
  uint32 offset.

(** One iteration of the loop that writes the mip blocks. *)
Definition writeMip (m : mipBlock) (out : list Z) : result (list Z) :=
  if (mb_w m <? 0) || (mb_h m <? 0) then Err ErrInvalidDimensions
  else
    storedW ← (if mb_useLZ m then
                 if 0x7fff <? mb_w m then Err ErrInvalidDimensions
                 else OK (Z.lor (mb_w m) 0x8000)
               else if 0xffff <? mb_w m then Err ErrInvalidDimensions
               else OK (mb_w m));
    if 0xffff <? mb_h m then Err ErrInvalidDimensions
    else
      out ← Write (le_uint16_bytes (uint16 storedW)) out;
      out ← Write (le_uint16_bytes (uint16 (mb_h m))) out;
      let dLen := Z.of_nat (length (mb_data m)) in
      out ← Write [uint8 dLen; uint8 (Z.shiftr dLen 8); uint8 (Z.shiftr dLen 16)] out;
      Write (mb_data m) out.

(** The statistics loop: channel sums, channel maxima, and [hasAlpha]. *)
Definition sumOf (f : NRGBA -> Z) (px : list NRGBA) : Z :=
  foldl (fun s c => s + f c) 0 px.

Definition maxOf (f : NRGBA -> Z) (px : list NRGBA) : Z :=
  foldl (fun m c => if m <? f c then f c else m) 0 px.

(** The mip levels kept from the generated chain: the loop with its two
    [break]s. *)
Fixpoint keepMips (maxMipCount minMipSize : Z) (chain : list Image)
    (mipImages : list Image) : list Image :=
  match chain with
  | [] => mipImages
  | m :: rest =>
      let mipImages := mipImages ++ [m] in
      if (0 <? maxMipCount) && (maxMipCount <=? Z.of_nat (length mipImages))
      then mipImages
      else if (Dx m <=? minMipSize) && (Dy m <=? minMipSize) then mipImages
      else keepMips maxMipCount minMipSize rest mipImages
  end.

(** The second half of [EncodeWithOptions]: the magic, the tags in their
    canonical order, the SFFO table, the sentinel, the mip blocks and the
    padding, written one after the other. *)
Definition writeFile (paxType : PaxType) (cgva cxam : list Z)
    (writeGALF : bool) (galfValue : Z) (writeZIWS : bool) (ziwsTag : byte4)
    (mips : list mipBlock) : result (list Z) :=
  (* Write PaxType as first tag. *)
  out ← Write (PaxType_Bytes paxType) [];
  out ← writeTag "CGVA" cgva out;
  out ← writeTag "CXAM" cxam out;
  (* Write optional GALF and ZIWS tags. *)
  out ← (if writeGALF then writeTag "GALF" [galfValue; 0; 0; 0] out else OK out);
  out ← (if writeZIWS then writeTag "ZIWS" (byte4_slice ziwsTag) out else OK out);
  (* Calculate SFFO offset. *)
  let sffo := sffoFill mips 0 (baseOffset writeGALF writeZIWS) (replicate 64 0) in
  out ← writeTag "SFFO" sffo out;
  out ← Write [0; 0] out;
  out ← forM mips writeMip out;
  (* Padding. *)
  Write [0; 0; 0; 0; 0; 0] out.

Section Encode.
Context `{Collaborators}.

(** The body of the loop [for _, m := range mipImages]. *)
Definition encodeMip (opts : option EncodeOptions) (paxType : PaxType)
    (bcnOpts : option bcn_EncodeOptions) (m : Image) : result mipBlock :=
  let encodeImg := m in
  let encodeImg :=
    match opts with
    | Some o => if NormalMapSwizzle o then swizzleNormalMap m else encodeImg
    | None => encodeImg
    end in
  let encodeImg :=
    match opts with
    | Some o =>
        match Swizzle o with
        | Some swz =>
            if negb (SkipSwizzle o)
            then texconfig.ApplyChannelSwizzle encodeImg swz
            else encodeImg
        | None => encodeImg
        end
    | None => encodeImg
    end in
  compressedData ←
    (if isDXT paxType then
       if decide (paxType = PaxDXT5)
       then bcn_EncodeImageWithOptions encodeImg bcn_FormatDXT5 bcnOpts
       else bcn_EncodeImageWithOptions encodeImg bcn_FormatDXT1 bcnOpts
     else encodePixelFormat paxType encodeImg);
  let useLZO :=
    match opts with
    | Some o => UseLZO o && isDXT paxType
    | None => false
    end in
  '(compressedData, useLZ) ←
    (if useLZO then
       comp ← lzo_Compress compressedData;
       if (length comp <? length compressedData)%nat
       then OK (comp, true) else OK (compressedData, false)
     else OK (compressedData, false));
  compressedData ←
    (if negb (isDXT paxType) then
       comp ← lzss_Compress compressedData;
       let forceLZSS := match opts with Some o => ForceLZSS o | None => false end in
       if forceLZSS || (length comp <? length compressedData)%nat
       then OK comp else OK compressedData
     else OK compressedData);
  OK (mkMipBlock compressedData (Dx encodeImg) (Dy encodeImg) useLZ).

(** The loop over the mip images, appending to [mips]. *)
Fixpoint encodeMips (opts : option EncodeOptions) (paxType : PaxType)
    (bcnOpts : option bcn_EncodeOptions) (mipImages : list Image)
    (mips : list mipBlock) : result (list mipBlock) :=
  match mipImages with
  | [] => OK mips
  | m :: rest =>
      b ← encodeMip opts paxType bcnOpts m;
      encodeMips opts paxType bcnOpts rest (mips ++ [b])
  end.

Definition EncodeWithOptions (img : Image) (opts : option EncodeOptions)
  : result (list Z) :=
  let statImg := img in
  let img :=
    match opts with
    | Some o => if NormalMapSwizzle o then swizzleNormalMap img else img
    | None => img
    end in
  let width := Dx img in
  let height := Dy img in
  (* Calculate AVG and MAX colors. *)
  let px := (fun p => At statImg p.1 p.2) <$> points width height in
  let hasAlpha := existsb (fun c => c_A c <? 255) px in
  let pixelCount := width * height in
  let avg f := if 0 <? pixelCount then sumOf f px / pixelCount else sumOf f px in
  let avgR := avg c_R in
  let avgG := avg c_G in
  let avgB := avg c_B in
  let avgA := avg c_A in
  let paxType :=
    match opts with
    | Some o =>
        if negb (bool_decide (Type_ o = PaxUnset)) then Type_ o
        else if NormalMapSwizzle o then PaxDXT5
        else if hasAlpha then PaxDXT5 else PaxDXT1
    | None => if hasAlpha then PaxDXT5 else PaxDXT1
    end in
  (* Mipmap options. *)
  let minMipSize0 := if negb (isDXT paxType) then 1 else 4 in
  let generateMips :=
    match opts with
    | Some o => default true (GenerateMipmaps o)
    | None => true
    end in
  let maxMipCount :=
    match opts with
    | Some o => if 0 <? MaxMipCount o then MaxMipCount o else 0
    | None => 0
    end in
  let minMipSize :=
    match opts with
    | Some o => if 0 <? MinMipSize o then MinMipSize o else minMipSize0
    | None => minMipSize0
    end in
  let useSRGB := match opts with Some o => UseSRGB o | None => false end in
  let filter :=
    match opts with
    | Some o => default texconfig.MipmapFilterDefault (MipmapFilter o)
    | None => texconfig.MipmapFilterDefault
    end in
  let bcnOpts := match opts with Some o => BCn o | None => None end in
  let useDXT5 := bool_decide (paxType = PaxDXT5) in
  let writeGALF :=
    match opts with
    | Some o => WriteGALF o
    | None => useDXT5
    end in
  let galfValue :=
    match opts with
    | Some o => if WriteGALF o && negb (GALFValue o =? 0) then GALFValue o else 1
    | None => 1
    end in
  let writeZIWS :=
    match opts with
    | Some o => WriteNohqSwizzleTag o || WriteSwizzleTag o
    | None => false
    end in
  let ziwsTag :=
    match opts with
    | Some o =>
        if WriteSwizzleTag o then SwizzleTag o
        else if WriteNohqSwizzleTag o then (0x05, 0x04, 0x02, 0x03)
        else (0, 0, 0, 0)
    | None => (0, 0, 0, 0)
    end in
  (* Generate mipmaps. *)
  let mipImages :=
    if generateMips
    then keepMips maxMipCount minMipSize
           (generateMipmapsWithFilter statImg useSRGB filter) []
    else [statImg] in
  mips ← encodeMips opts paxType bcnOpts mipImages [];
  let forceMax :=
    match opts with
    | Some o => NormalMapSwizzle o || ForceCXAMFull o
    | None => isDXT paxType
    end in
  let mx f := if forceMax then 255 else maxOf f px in
  writeFile paxType [uint8 avgB; uint8 avgG; uint8 avgR; uint8 avgA]
    [mx c_B; mx c_G; mx c_R; mx c_A] writeGALF galfValue writeZIWS ziwsTag mips.

(** [Encode]. *)
Definition Encode (img : Image) : result (list Z) := EncodeWithOptions img None.
End Encode.

(** ** Encoding policy: from a hint to encoder options *)

Record alphaStats : Type := mkStats {
  hasAlpha : bool;
  allHigh : bool;
  isBinary : bool
}.

(** One iteration of the pixel loop of [scanAlpha], on the alpha [a8]. *)
Definition scanStep (stats : alphaStats) (a8 : Z) : alphaStats :=
  let stats := if a8 <? 255 then mkStats true (allHigh stats) (isBinary stats)
               else stats in
  let stats := if a8 <? 0xF0 then mkStats (hasAlpha stats) false (isBinary stats)
               else stats in
  if negb (a8 =? 0) && negb (a8 =? 255)
  then mkStats (hasAlpha stats) (allHigh stats) false
  else stats.

Definition scanAlpha (img : Image) : alphaStats :=
  let stats := foldl scanStep (mkStats false true true) (c_A <$> pixels img) in
  if negb (hasAlpha stats) then mkStats (hasAlpha stats) (allHigh stats) true
  else stats.

Definition selectPaxType (stats : alphaStats) (hint : texconfig.TextureHint)
  : result PaxType :=
  match texconfig.Format hint with
  | texconfig.TexFormatDefault =>
      if allHigh stats || negb (hasAlpha stats) || isBinary stats
      then OK PaxDXT1 else OK PaxDXT5
  | texconfig.TexFormatDXT1 => OK PaxDXT1
  | texconfig.TexFormatDXT5 => OK PaxDXT5
  | texconfig.TexFormatDXT2 | texconfig.TexFormatDXT3 | texconfig.TexFormatDXT4 =>
      Err ErrUnsupportedFormat
  | texconfig.TexFormatARGB4444 => OK PaxARGB4
  | texconfig.TexFormatARGB1555 => OK PaxARGBA5
  | texconfig.TexFormatAI88 => OK PaxGRAYA
  | texconfig.TexFormatP8 => Err ErrUnsupportedFormat
  end.

Definition isDetailHint (hint : texconfig.TextureHint) : bool :=
  let n := texconfig.ClassName hint in
  bool_decide (n = "detail"%string) || bool_decide (n = "detail_short"%string).

Definition isTexViewUnsupported (hint : texconfig.TextureHint) : bool :=
  let n := texconfig.ClassName hint in
  bool_decide (n = "TexRGBA8888"%string) || bool_decide (n = "ColorMapRaw"%string)
  || bool_decide (n = "layer_color_draft"%string).

Definition usesAlphaForRGB (swz : texconfig.ChannelSwizzle) : bool :=
  let plainA e :=
    bool_decide (texconfig.Source e = texconfig.SwizzleA)
    && negb (texconfig.Invert e) && negb (texconfig.IsConst e) in
  texconfig.Valid (texconfig.sw_R swz) && texconfig.Valid (texconfig.sw_G swz)
  && texconfig.Valid (texconfig.sw_B swz)
  && plainA (texconfig.sw_R swz) && plainA (texconfig.sw_G swz)
  && plainA (texconfig.sw_B swz)
  && texconfig.Valid (texconfig.sw_A swz) && texconfig.IsConst (texconfig.sw_A swz)
  && (texconfig.ConstValue (texconfig.sw_A swz) =? 255).

(** [alphaAndRGBRange]: (minA, maxA, minRGB, maxRGB). *)
Definition rangeStep (st : Z * Z * Z * Z) (c : NRGBA) : Z * Z * Z * Z :=
  let '(minA, maxA, minRGB, maxRGB) := st in
  let minA := if c_A c <? minA then c_A c else minA in
  let maxA := if maxA <? c_A c then c_A c else maxA in
  let minRGB := if c_R c <? minRGB then c_R c else minRGB in
  let minRGB := if c_G c <? minRGB then c_G c else minRGB in
  let minRGB := if c_B c <? minRGB then c_B c else minRGB in
  let maxRGB := if maxRGB <? c_R c then c_R c else maxRGB in
  let maxRGB := if maxRGB <? c_G c then c_G c else maxRGB in
  let maxRGB := if maxRGB <? c_B c then c_B c else maxRGB in
  (minA, maxA, minRGB, maxRGB).

Definition alphaAndRGBRange (img : Image) : Z * Z * Z * Z :=
  foldl rangeStep (255, 0, 255, 0) (pixels img).

Definition shouldSkipSwizzle (img : Image) (hint : texconfig.TextureHint) : bool :=
  if texconfig.IsIdentity (texconfig.Swizzle hint) then false
  else if usesAlphaForRGB (texconfig.Swizzle hint) then
    let '(minA, maxA, minRGB, maxRGB) := alphaAndRGBRange img in
    (minA =? 255) && (maxA =? 255) && negb (minRGB =? maxRGB)
  else false.

Definition promoteAlphaFromRGBIfNeeded (img : Image)
    (hint : texconfig.TextureHint) : Image :=
  if negb (usesAlphaForRGB (texconfig.Swizzle hint)) then img
  else if (Dx img <=? 0) || (Dy img <=? 0) then img
  else
    let '(minA, maxA, minRGB, maxRGB) := alphaAndRGBRange img in
    if negb (minA =? 255) || negb (maxA =? 255) then img
    else if minRGB =? maxRGB then img
    else mapPixels (fun _ _ c =>
           let l := uint8 (uint16 (c_R c + c_G c + c_B c) / 3) in
           mkNRGBA (c_R c) (c_G c) (c_B c) l) img.

Section Policy.
Context `{Collaborators}.

Definition autoReduceIfNeeded (img : Image) (hint : texconfig.TextureHint)
    (cfg : texconfig.TexConvertConfig) : Image :=
  if texconfig.DisableAutoReduce cfg
     || negb (default false (texconfig.AutoReduce hint)) then img
  else if (Dx img <=? 0) || (Dy img <=? 0) then img
  else if texconfig.LimitSize hint <=? 0 then img
  else
    let maxDim := if Dx img <? Dy img then Dy img else Dx img in
    if maxDim <=? texconfig.LimitSize hint then img
    else
      let useSRGB := texconfig.UseSRGBFromDynRange cfg
                     && default false (texconfig.DynRange hint) in
      let mips := bcn_GenerateMipmaps img useSRGB in
      (* Pick the largest mip that fits within limitSize. *)
      match filter (fun m => Dx m ≤ texconfig.LimitSize hint
                             ∧ Dy m ≤ texconfig.LimitSize hint) mips with
      | best :: _ => best
      | [] => img
      end.

(** [ensureBCnOptions(opts).RGBWeights = &bcn.RGBWeights{r, g, b}]. *)
Definition withRGBWeights (b : option bcn_EncodeOptions) (r g bl : Z)
  : option bcn_EncodeOptions :=
  let o := default bcn_EncodeOptions_zero b in
  Some (mkBCnOptions (Some (mkWeights r g bl)) (bcn_Refinement o)
          (bcn_QualityLevel o) (bcn_Workers o) (bcn_GenerateMipmaps_ o)
          (bcn_UseSRGB o) (bcn_AlphaThreshold o)).

(** [EncodeOptionsFromHint]: the options start as [EncodeOptions{Type:
    paxType}]; each field below is given the value the assignments of the
    function leave in it. *)
Definition EncodeOptionsFromHint (img : Image) (hint : texconfig.TextureHint)
    (cfg : texconfig.TexConvertConfig) (skipSwizzle : bool)
  : result EncodeOptions :=
  let stats := scanAlpha img in
  if isTexViewUnsupported hint then Err ErrUnsupportedFormat
  else if
    match texconfig.EnableDXT hint with
    | Some false =>
        match texconfig.Format hint with
        | texconfig.TexFormatARGB4444 | texconfig.TexFormatARGB1555
        | texconfig.TexFormatAI88 | texconfig.TexFormatP8 => false
        | _ => true
        end
    | _ => false
    end
  then Err ErrUnsupportedFormat
  else
    paxType ← selectPaxType stats hint;
    let swizzled := negb (texconfig.IsIdentity (texconfig.Swizzle hint)) in
    let vs := default true (texconfig.VirtualSwz hint) in
    (* Apply swizzle. *)
    tag ← (if swizzled && vs then texconfig.ZIWSTag (texconfig.Swizzle hint)
           else OK None);
    let detail := isDetailHint hint in
    OK {|
      Type_ := paxType;
      UseLZO := isDXT paxType && negb (texconfig.DisableLZO cfg);
      ForceCXAMFull :=
        isDXT paxType || bool_decide (paxType = PaxARGB4)
        || bool_decide (paxType = PaxARGBA5) || bool_decide (paxType = PaxARGB8);
      ForceLZSS := bool_decide (paxType = PaxARGB4);
      WriteSwizzleTag := bool_decide (is_Some tag);
      SwizzleTag := default (0, 0, 0, 0) tag;
      Swizzle := if swizzled && negb skipSwizzle
                 then Some (texconfig.Swizzle hint) else None;
      SkipSwizzle := swizzled && skipSwizzle;
      WriteGALF := negb (allHigh stats) || detail;
      GALFValue := if detail then 2
                   else if negb (allHigh stats)
                        then (if isBinary stats then 2 else 1) else 0;
      BCn :=
        match texconfig.hint_ErrorMetrics hint with
        | texconfig.ErrorMetricsDistance => withRGBWeights None 5 5 0
        | texconfig.ErrorMetricsNormalMap => withRGBWeights None 5 5 5
        | texconfig.ErrorMetricsDefault =>
            if texconfig.ApplyDefaultErrorMetrics cfg
            then withRGBWeights None 5 9 2 else None
        | texconfig.ErrorMetricsOther _ => withRGBWeights None 5 5 5
        end;
      MipmapFilter :=
        if decide (texconfig.hint_MipmapFilter hint = texconfig.MipmapFilterDefault)
        then None else Some (texconfig.hint_MipmapFilter hint);
      UseSRGB := texconfig.UseSRGBFromDynRange cfg
                 && default false (texconfig.DynRange hint);
      GenerateMipmaps := None;
      MaxMipCount := 0;
      MinMipSize := 0;
      NormalMapSwizzle := false;
      WriteNohqSwizzleTag := false
    |}.

(** [mergeBCnOptions]. *)
Definition mergeBCnOptions (dst : option bcn_EncodeOptions)
    (override : option bcn_EncodeOptions) : option bcn_EncodeOptions :=
  match override with
  | None => dst
  | Some ov =>
      match dst with
      | None => Some ov
      | Some d =>
          Some (mkBCnOptions
            (match bcn_RGBWeights_ ov with Some w => Some w | None => bcn_RGBWeights_ d end)
            (match bcn_Refinement ov with Some r => Some r | None => bcn_Refinement d end)
            (if negb (bcn_QualityLevel ov =? 0) then bcn_QualityLevel ov
             else bcn_QualityLevel d)
            (if negb (bcn_Workers ov =? 0) then bcn_Workers ov else bcn_Workers d)
            (bcn_GenerateMipmaps_ ov || bcn_GenerateMipmaps_ d)
            (bcn_UseSRGB ov || bcn_UseSRGB d)
            (if negb (bcn_AlphaThreshold ov =? 0) then bcn_AlphaThreshold ov
             else bcn_AlphaThreshold d))
      end
  end.

(** [applyEncodeOverrides], the destination after the call. *)
Definition applyEncodeOverrides (dst override : EncodeOptions) : EncodeOptions :=
  {|
    BCn := match BCn override with
           | Some _ => mergeBCnOptions (BCn dst) (BCn override)
           | None => BCn dst
           end;
    SkipSwizzle := SkipSwizzle override || SkipSwizzle dst;
    Swizzle := if SkipSwizzle override then None else Swizzle dst;
    ForceCXAMFull := ForceCXAMFull override;
    ForceLZSS := ForceLZSS override || ForceLZSS dst;
    GenerateMipmaps := GenerateMipmaps dst;
    MipmapFilter := MipmapFilter dst;
    MaxMipCount := MaxMipCount dst;
    MinMipSize := MinMipSize dst;
    Type_ := Type_ dst;
    SwizzleTag := SwizzleTag dst;
    NormalMapSwizzle := NormalMapSwizzle dst;
    WriteNohqSwizzleTag := WriteNohqSwizzleTag dst;
    WriteSwizzleTag := WriteSwizzleTag dst;
    WriteGALF := WriteGALF dst;
    GALFValue := GALFValue dst;
    UseLZO := UseLZO dst;
    UseSRGB := UseSRGB dst
  |}.

(** [EncodeWithTexConfigOptions]; [resolved] is the value of
    [texconfig.Resolve(name, cfg)]. *)
Definition EncodeWithTexConfigOptions (img : Image)
    (resolved : option texconfig.TextureHint)
    (cfg : texconfig.TexConvertConfig) (override : option EncodeOptions)
  : result (list Z) :=
  match resolved with
  | None =>
      let opts :=
        {| BCn := if texconfig.ApplyDefaultErrorMetrics cfg
                  then withRGBWeights None 5 9 2 else None;
           Swizzle := None; GenerateMipmaps := None; MipmapFilter := None;
           MaxMipCount := 0; MinMipSize := 0; Type_ := PaxUnset;
           SwizzleTag := (0, 0, 0, 0); NormalMapSwizzle := false;
           WriteNohqSwizzleTag := false; WriteSwizzleTag := false;
           SkipSwizzle := false; WriteGALF := false; GALFValue := 0;
           ForceCXAMFull := true;
           UseLZO := negb (texconfig.DisableLZO cfg);
           ForceLZSS := false; UseSRGB := false |} in
      let opts := match override with
                  | Some ov => applyEncodeOverrides opts ov
                  | None => opts
                  end in
      EncodeWithOptions img (Some opts)
  | Some hint =>
      let skipSwizzle := shouldSkipSwizzle img hint in
      let img := if negb skipSwizzle then promoteAlphaFromRGBIfNeeded img hint
                 else img in
      let img := autoReduceIfNeeded img hint cfg in
      opts ← EncodeOptionsFromHint img hint cfg skipSwizzle;
      let opts := match override with
                  | Some ov => applyEncodeOverrides opts ov
                  | None => opts
                  end in
      EncodeWithOptions img (Some opts)
  end.

Definition EncodeWithTexConfig (img : Image)
    (resolved : option texconfig.TextureHint)
    (cfg : texconfig.TexConvertConfig) : result (list Z) :=
  EncodeWithTexConfigOptions img resolved cfg None.
End Policy.

(** ** The file layout, block by block *)

(** The bytes of one tag: "GGAT", the name, the payload length and the
    payload. *)
Definition tagBytes (name : string) (payload : list Z) : list Z :=
  GGAT ++ bytes_of_string name
       ++ le_uint32_bytes (uint32 (Z.of_nat (length payload))) ++ payload.

(** A tag section: the tags one after the other. *)
Definition tagsBytes (tags : list (string * list Z)) : list Z :=
  mjoin ((fun t => tagBytes t.1 t.2) <$> tags).

(** The table a tag section leaves behind: each tag is stored under its
    name, in the order of the file. *)
Definition tagTable (tags : list (string * list Z)) : gmap string (list Z) :=
  foldl (fun m t => <[t.1 := t.2]> m) ∅ tags.

(** A tag the format can hold: a four-byte name and a payload whose length
    fits the 32-bit length field. *)
Definition wellFormedTag (t : string * list Z) : Prop :=
  String.length t.1 = 4%nat /\ Z.of_nat (length t.2) < 4294967296.

(** The tags of an encoded file, in the order they are written. *)
Definition fileTags (cgva cxam : list Z) (writeGALF : bool) (galfValue : Z)
    (writeZIWS : bool) (ziwsTag : byte4) (sffo : list Z)
  : list (string * list Z) :=
  [("CGVA"%string, cgva); ("CXAM"%string, cxam)]
  ++ (if writeGALF then [("GALF"%string, [galfValue; 0; 0; 0])] else [])
  ++ (if writeZIWS then [("ZIWS"%string, byte4_slice ziwsTag)] else [])
  ++ [("SFFO"%string, sffo)].

(** The bytes of one mip block: stored width, height, 3-byte length and the
    payload. *)
Definition mipBytes (m : mipBlock) : list Z :=
  let storedW := if mb_useLZ m then Z.lor (mb_w m) 0x8000 else mb_w m in
  let dLen := Z.of_nat (length (mb_data m)) in
  le_uint16_bytes (uint16 storedW) ++ le_uint16_bytes (uint16 (mb_h m))
    ++ [uint8 dLen; uint8 (Z.shiftr dLen 8); uint8 (Z.shiftr dLen 16)]
    ++ mb_data m.

(** A block whose dimensions fit the 16-bit fields of its header. *)
Definition mipFits (m : mipBlock) : Prop :=
  0 <= mb_w m <= 0xffff /\ 0 <= mb_h m <= 0xffff.

(** The offsets of consecutive mip blocks from [off] on: each block takes 7
    bytes and its payload. *)
Fixpoint mipOffsets (off : Z) (mips : list mipBlock) : list Z :=
  match mips with
  | [] => []
  | m :: rest => off :: mipOffsets (off + 7 + Z.of_nat (length (mb_data m))) rest
  end.

(** ** Properties of images and colours used in the statements *)

Definition validColor (c : NRGBA) : Prop :=
  0 <= c_R c < 256 /\ 0 <= c_G c < 256 /\ 0 <= c_B c < 256 /\ 0 <= c_A c < 256.

Definition validImage (img : Image) : Prop :=
  forall x y, 0 <= x < Dx img -> 0 <= y < Dy img -> validColor (At img x y).

(** A colour with the low four bits of every channel cleared. *)
Definition quantize4 (c : NRGBA) : NRGBA :=
  mkNRGBA (Z.land (c_R c) 0xF0) (Z.land (c_G c) 0xF0)
          (Z.land (c_B c) 0xF0) (Z.land (c_A c) 0xF0).

(** The two bytes an ARGB4444 pixel is stored in, and the four bytes it
    decodes to. *)
Definition wordBytes4444 (c : NRGBA) : list Z :=
  le_uint16_bytes (packARGB4444 c).

Definition quantBytes (c : NRGBA) : list Z :=
  [Z.land (c_R c) 0xF0; Z.land (c_G c) 0xF0;
   Z.land (c_B c) 0xF0; Z.land (c_A c) 0xF0].

(** The four nibbles of a 16-bit word, each moved to the high half of a
    byte, as the ARGB4444 decoder extracts them: R, G, B, A. *)
Definition nibbleBytes (p : Z) : list Z :=
  [uint8 (Z.shiftl (Z.land p 0x0F) 4);
   uint8 (Z.shiftl (Z.land (Z.shiftr p 4) 0x0F) 4);
   uint8 (Z.shiftl (Z.land (Z.shiftr p 8) 0x0F) 4);
   uint8 (Z.shiftl (Z.land (Z.shiftr p 12) 0x0F) 4)].

(** The check, on one choice of four nibbles, that the packed word fits 16
    bits and unpacks to those nibbles. *)
Definition nibblesOK (a b g r : Z) : bool :=
  let p := Z.lor (Z.lor (Z.lor (Z.shiftl a 12) (Z.shiftl b 8)) (Z.shiftl g 4)) r in
  (0 <=? p) && (p <? 65536)
  && bool_decide (nibbleBytes p = [r * 16; g * 16; b * 16; a * 16]).

Definition allOpaque (img : Image) : Prop :=
  Forall (fun c => c_A c = 255) (pixels img).

Definition binaryAlpha (img : Image) : Prop :=
  Forall (fun c => c_A c = 0 \/ c_A c = 255) (pixels img).

Definition highAlpha (img : Image) : Prop :=
  Forall (fun c => 0xF0 <= c_A c) (pixels img).


(** ** Stand-ins for the external packages

    They make the codec run on concrete inputs: a block codec whose blocks
    are zero, compressors that store, a generator that halves by nearest
    sampling, and integer versions of the floating-point kernels. *)

Definition halve (img : Image) : Image :=
  mkImage (Z.max 1 (Dx img / 2)) (Z.max 1 (Dy img / 2))
          (fun x y => At img (2 * x) (2 * y)).

Fixpoint halveChain (fuel : nat) (img : Image) : list Image :=
  match fuel with
  | O => [img]
  | S fuel' =>
      if (1 <? Dx img) || (1 <? Dy img)
      then img :: halveChain fuel' (halve img)
      else [img]
  end.

Definition standIns : Collaborators := {|
  bcn_EncodeImageWithOptions img f _ :=
    OK (replicate (Z.to_nat (((Dx img + 3) / 4) * ((Dy img + 3) / 4)
                             * (if decide (f = bcn_FormatDXT1) then 8 else 16))) 0);
  bcn_DecodeImage data w h _ :=
    OK (mkNRGBAImage (replicate (Z.to_nat (4 * w * h)) 128) (4 * w) w h);
  bcn_GenerateMipmaps img _ := halveChain 32 img;
  lzo_Compress data := OK (data ++ [17; 0; 0]);
  lzo_Decompress payload n := OK (take (Z.to_nat n) payload);
  lzss_Compress data := OK (data ++ [0; 0; 0; 0]);
  lzss_Decompress payload n := OK (take (Z.to_nat n) payload);
  swizzleNormalPixel c := mkNRGBA 0 (c_G c) (c_B c) (255 - c_R c);
  unswizzleNormalPixel g b a := (255 - a, g, b);
  grayLuma r g b := (299 * r + 587 * g + 114 * b + 500) / 1000;
  blendToValue v target level := target + (v - target) / 2 ^ level;
  fadeAlphaValue a level := a / 2 ^ level;
  normalizeNormal r g b := (r, g, b)
|}.


(** ** Concrete inputs used in the examples *)

(** A configuration with LZO switched off. *)
Definition cfgNoLZO : texconfig.TexConvertConfig :=
  {| texconfig.Hints := []; texconfig.ConvertVersion := 6;
     texconfig.ApplyDefaultErrorMetrics := false;
     texconfig.UseSRGBFromDynRange := false;
     texconfig.DisableAutoReduce := false;
     texconfig.DisableLZO := true |}.

(** A 1x1 image of one colour. *)
Definition onePixel (c : NRGBA) : Image := mkImage 1 1 (fun _ _ => c).

(** A decoded 1x1 image holding R, G, B, A = 10, 20, 30, 40. *)
Definition decoded1x1 : image_NRGBA := mkNRGBAImage [10; 20; 30; 40] 4 1 1.

(** A hint that asks for the default format and nothing else. *)
Definition hintDefault : texconfig.TextureHint :=
  {| texconfig.EnableDXT := None; texconfig.DynRange := None;
     texconfig.AutoReduce := None; texconfig.VirtualSwz := None;
     texconfig.Dithering := None; texconfig.ClassName := "ColorMap";
     texconfig.Extends := EmptyString; texconfig.Pattern := "*_co.*";
     texconfig.Swizzle :=
       texconfig.mkSwizzle texconfig.SwizzleExpr_zero texconfig.SwizzleExpr_zero
                           texconfig.SwizzleExpr_zero texconfig.SwizzleExpr_zero;
     texconfig.Format := texconfig.TexFormatDefault;
     texconfig.hint_MipmapFilter := texconfig.MipmapFilterDefault;
     texconfig.hint_ErrorMetrics := texconfig.ErrorMetricsDefault;
     texconfig.LimitSize := 0 |}.

(** A DXT1 file whose SFFO table holds sixteen zero words. *)
Definition zeroSFFOFile : list Z :=
  [1; 255] ++ tagBytes "SFFO" (replicate 64 0) ++ [0; 0] ++ [0; 0; 0; 0; 0; 0].

(** A DXT1 file with two CGVA tags and one 4x4 mip of eight bytes. *)
Definition twoCGVATags : list (string * list Z) :=
  [("CGVA"%string, [1; 2; 3; 4]); ("CGVA"%string, [5; 6; 7; 8]);
   ("SFFO"%string, [112; 0; 0; 0] ++ replicate 60 0)].

Definition twoCGVARest : list Z :=
  [0; 0] ++ [4; 0; 4; 0; 8; 0; 0] ++ replicate 8 0 ++ [0; 0; 0; 0; 0; 0].

Definition twoCGVAFile : list Z :=
  [1; 255] ++ tagsBytes twoCGVATags ++ twoCGVARest.

(** A solid mid-gray 8x8 image, and the file the default encode makes of it
    with the stand-ins: DXT1, two mip levels (8x8 and 4x4). *)
Definition gray8x8 : Image := mkImage 8 8 (fun _ _ => mkNRGBA 128 128 128 255).

Definition gray8x8File : list Z :=
  Eval vm_compute in
    match EncodeWithOptions (H := standIns) gray8x8 None with
    | OK file => file
    | Err _ => []
    end.


(** The four bytes of a 32-bit offset. *)
Definition le32 (o : Z) : list Z := le_uint32_bytes (uint32 o).

(** A hint whose swizzle inverts the red channel ([R := 1-R]) and leaves
    the virtual swizzle unset, for a given target format. *)
Definition invertR : texconfig.ChannelSwizzle :=
  texconfig.mkSwizzle
    (texconfig.mkExpr texconfig.SwizzleR true false 0 true)
    texconfig.SwizzleExpr_zero texconfig.SwizzleExpr_zero
    texconfig.SwizzleExpr_zero.

Definition hintInvertR (f : texconfig.TexFormat) : texconfig.TextureHint :=
  {| texconfig.EnableDXT := None; texconfig.DynRange := None;
     texconfig.AutoReduce := None; texconfig.VirtualSwz := None;
     texconfig.Dithering := None; texconfig.ClassName := "InvertRed";
     texconfig.Extends := EmptyString; texconfig.Pattern := "*_inv.*";
     texconfig.Swizzle := invertR;
     texconfig.Format := f;
     texconfig.hint_MipmapFilter := texconfig.MipmapFilterDefault;
     texconfig.hint_ErrorMetrics := texconfig.ErrorMetricsDefault;
     texconfig.LimitSize := 0 |}.





(** ** Further formats, the whole-file contract and the resolver *)

(** ** The stored and the decoded bytes of a pixel, format by format *)

(** ARGB8888: stored as B, G, R, A; decoded as R, G, B, A. *)
Definition bgraBytes (c : NRGBA) : list Z := [c_B c; c_G c; c_R c; c_A c].
Definition rgbaBytes (c : NRGBA) : list Z := [c_R c; c_G c; c_B c; c_A c].

(** ARGB1555: the stored word, and a colour with the low three bits of its
    colour channels cleared and its alpha snapped to 0 or 255 at 128. *)
Definition wordBytes1555 (c : NRGBA) : list Z :=
  le_uint16_bytes (packARGB1555 c).

Definition quantize5 (c : NRGBA) : NRGBA :=
  mkNRGBA (Z.land (c_R c) 0xF8) (Z.land (c_G c) 0xF8) (Z.land (c_B c) 0xF8)
          (if 128 <=? c_A c then 255 else 0).

Definition quant5Bytes (c : NRGBA) : list Z := rgbaBytes (quantize5 c).

(** The four bytes the ARGB1555 decoder makes of a 16-bit word: R, G, B, A. *)
Definition fieldBytes1555 (p : Z) : list Z :=
  [uint8 (Z.shiftl (uint8 (Z.land (Z.shiftr p 10) 0x1F)) 3);
   uint8 (Z.shiftl (uint8 (Z.land (Z.shiftr p 5) 0x1F)) 3);
   uint8 (Z.shiftl (uint8 (Z.land p 0x1F)) 3);
   if Z.land p 0x8000 =? 0 then 0 else 255].

(** The check, on one choice of fields, that the packed word fits 16 bits
    and unpacks to those fields. *)
Definition fields1555OK (a r g b : Z) : bool :=
  let p := Z.lor (Z.lor (Z.lor (Z.shiftl a 15) (Z.shiftl r 10)) (Z.shiftl g 5)) b in
  (0 <=? p) && (p <? 65536)
  && bool_decide (fieldBytes1555 p = [r * 8; g * 8; b * 8; a * 255]).

(** GRAYA (AI88): stored as luma, A; decoded as luma, luma, luma, A. *)
Definition grayBytes `{Collaborators} (c : NRGBA) : list Z :=
  [grayLuma (c_R c) (c_G c) (c_B c); c_A c].

Definition grayRGBA `{Collaborators} (c : NRGBA) : list Z :=
  let l := grayLuma (c_R c) (c_G c) (c_B c) in [l; l; l; c_A c].

(** ** What the reader makes of a block the writer stored *)

(** [readsAs t m mm]: the block [m], written in a file of format [t], is
    read as the mip [mm].  The dimensions are not both zero (the dummy
    block), the payload fits the 3-byte length field, the format has a
    block size, the width of a DXT block leaves bit 15 (the LZO flag) clear
    and only a DXT block carries the flag.  The data of the mip is the
    payload when its length is the expected size, and otherwise what the
    decompressor of the format (LZO for a flagged DXT block, LZSS for the
    other formats) makes of it. *)
Definition readsAs `{Collaborators} (t : PaxType) (m : mipBlock) (mm : MipMap)
  : Prop :=
  let expected := expectedMipSize t (mb_w m) (mb_h m) in
  ~ (mb_w m = 0 /\ mb_h m = 0)
  /\ Z.of_nat (length (mb_data m)) < 16777216
  /\ 0 <= expected
  /\ (isDXT t = true -> mb_w m < 0x8000)
  /\ (mb_useLZ m = true -> isDXT t = true)
  /\ exists raw,
       mm = mkMipMap raw t (mb_w m) (mb_h m)
       /\ if decide (Z.of_nat (length (mb_data m)) = expected) then raw = mb_data m
          else if isDXT t
               then mb_useLZ m = true
                    /\ lzo_Decompress (mb_data m) expected = OK raw
               else lzss_Decompress (mb_data m) expected = OK raw.

(** A file with one raw ARGB8888 block of one pixel. *)
Definition onePixelBlock : mipBlock := mkMipBlock [3; 2; 1; 4] 1 1 false.

Definition onePixelFile : list Z :=
  Eval vm_compute in
    match writeFile PaxARGB8 [3; 2; 1; 4] [3; 2; 1; 4] false 1 false (0, 0, 0, 0)
            [onePixelBlock] with
    | OK file => file
    | Err _ => []
    end.

(** ** The contract of the LZSS package

    Decompressing what the compressor made of a payload, to the length of
    that payload, gives the payload back. *)
Definition LZSSContract `{Collaborators} : Prop :=
  forall raw comp,
    lzss_Compress raw = OK comp ->
    lzss_Decompress comp (Z.of_nat (length raw)) = OK raw.

(** Options for an uncompressed 32-bit file with a single level. *)
Definition optsARGB8 : EncodeOptions :=
  mkOptions None None (Some false) None 0 0 PaxARGB8 (0, 0, 0, 0)
            false false false false false 0 false false false false.

(** ** Resolving a hint by file name (texconfig/resolver.go) *)

Module resolver.

(** The runes '*' and '?'. *)
Definition star : Z := 42.
Definition quest : Z := 63.

(** The loop [for si < len(str)] of [wildcardMatch] on the runes of the
    pattern and of the string: [Some pi] when the loop ends, [None] when
    it returns false.  Every iteration moves [si] or [pi] forward or moves
    [match] forward, so [fuel] bounds the iterations. *)
Fixpoint wildcardLoop (fuel : nat) (p str : list Z) (pi si starIdx mtch : Z)
  : option Z :=
  match fuel with
  | O => None
  | S fuel' =>
      if si <? Z.of_nat (length str) then
        let pc := p !!! Z.to_nat pi in
        let sc := str !!! Z.to_nat si in
        (* Match a single character. *)
        if (pi <? Z.of_nat (length p)) && ((pc =? quest) || (pc =? sc))
        then wildcardLoop fuel' p str (pi + 1) (si + 1) starIdx mtch
        (* Match a wildcard. *)
        else if (pi <? Z.of_nat (length p)) && (pc =? star)
        then wildcardLoop fuel' p str (pi + 1) si pi si
        else if negb (starIdx =? -1)
        then wildcardLoop fuel' p str (starIdx + 1) (mtch + 1) starIdx (mtch + 1)
        (* No match found. *)
        else None
      else Some pi
  end.

(** The loop [for pi < len(p) && p[pi] == '*' { pi++ }]. *)
Fixpoint skipStars (fuel : nat) (p : list Z) (pi : Z) : Z :=
  match fuel with
  | O => pi
  | S fuel' =>
      if (pi <? Z.of_nat (length p)) && (p !!! Z.to_nat pi =? star)
      then skipStars fuel' p (pi + 1)
      else pi
  end.

(** [wildcardMatch], on [[]rune(pattern)] and [[]rune(s)]. *)
Definition wildcardMatch (p str : list Z) : bool :=
  match wildcardLoop ((length str + 2) * (length p + length str + 2))
          p str 0 0 (-1) 0 with
  | None => false
  | Some pi => skipStars (length p) p pi =? Z.of_nat (length p)
  end.

(** What a pattern matches: '*' stands for any run of runes, '?' for any
    one rune, every other rune for itself. *)
Inductive glob : list Z -> list Z -> Prop :=
| glob_nil : glob [] []
| glob_star_skip p s : glob p s -> glob (star :: p) s
| glob_star_eat p c s : glob (star :: p) s -> glob (star :: p) (c :: s)
| glob_quest p c s : glob p s -> glob (quest :: p) (c :: s)
| glob_lit p c s : c <> star -> glob p s -> glob (c :: p) (c :: s).

(** The same loop on what is left of the pattern and of the string, with
    the pattern after the last '*' and the string from [match] on. *)
Fixpoint matchRest (fuel : nat) (pr sr : list Z) (bt : option (list Z * list Z))
  : option (list Z) :=
  match fuel with
  | O => None
  | S fuel' =>
      match sr with
      | [] => Some pr
      | c :: sr' =>
          let back :=
            match bt with
            | Some (q, _ :: m') => matchRest fuel' q m' (Some (q, m'))
            | _ => None
            end in
          match pr with
          | a :: pr' =>
              if (a =? quest) || (a =? c) then matchRest fuel' pr' sr' bt
              else if a =? star then matchRest fuel' pr' sr (Some (pr', sr))
              else back
          | [] => back
          end
      end
  end.

(** No match at the heads: the pattern is used up or its first rune is
    neither a wildcard nor the first rune of the string. *)
Definition stuck (pr : list Z) (c : Z) : Prop :=
  match pr with
  | [] => True
  | a :: _ => a <> quest /\ a <> c /\ a <> star
  end.

(** The state of the loop on lists: what it still has to decide. *)
Definition loopInv (P S pr sr : list Z) (bt : option (list Z * list Z))
    (W fuel : nat) : Prop :=
  Forall (fun c => c <> star) sr
  /\ (length pr + length sr < W)%nat
  /\ match bt with
     | None =>
         (glob P S <-> glob pr sr)
         /\ ((length sr + 1) * W + length pr + length sr < fuel)%nat
     | Some (q, m) =>
         exists seg t,
           q = seg ++ pr /\ m = t ++ sr
           /\ Forall (fun a => a <> star) seg
           /\ Forall (fun c => c <> star) t
           /\ Forall2 (fun a c => a = quest \/ a = c) seg t
           /\ (length q + length m < W)%nat
           /\ (glob P S <-> glob (star :: q) m)
           /\ (length m * W + length pr + length sr < fuel)%nat
     end.

Section Resolve.
(** Go's [filepath.Base], [strings.ToLower] and [[]rune(s)]. *)
Variable filepath_Base : string -> string.
Variable strings_ToLower : string -> string.
Variable runes : string -> list Z.

(** The loop over [cfg.Hints] of [ResolveTexConvert]. *)
Fixpoint resolveLoop (lower : string) (hints : list texconfig.TextureHint)
  : option texconfig.TextureHint :=
  match hints with
  | [] => None
  | hint :: rest =>
      let pattern := strings_ToLower (texconfig.Pattern hint) in
      if decide (pattern = EmptyString) then resolveLoop lower rest
      else if wildcardMatch (runes pattern) (runes lower) then Some hint
      else resolveLoop lower rest
  end.

(** [ResolveTexConvert]: [None] is [(TextureHint{}, false)]. *)
Definition ResolveTexConvert (name : string) (cfg : texconfig.TexConvertConfig)
  : option texconfig.TextureHint :=
  let base := filepath_Base name in
  let lower := strings_ToLower base in
  resolveLoop lower (texconfig.Hints cfg).

Definition Resolve (name : string) (cfg : texconfig.TexConvertConfig)
  : option texconfig.TextureHint :=
  ResolveTexConvert name cfg.

(** A hint applies to a lower-cased base name when its lower-cased pattern
    is not empty and matches the name. *)
Definition applies (lower : string) (hint : texconfig.TextureHint) : Prop :=
  strings_ToLower (texconfig.Pattern hint) <> EmptyString
  /\ glob (runes (strings_ToLower (texconfig.Pattern hint))) (runes lower).
End Resolve.

End resolver.

(** A configuration of two hints: one that inverts red, for "*_inv.*", and
    the colour maps, for "*_co.*". *)
Definition cfgTwoHints : texconfig.TexConvertConfig :=
  {| texconfig.Hints := [hintInvertR texconfig.TexFormatDXT5; hintDefault];
     texconfig.ConvertVersion := 6;
     texconfig.ApplyDefaultErrorMetrics := false;
     texconfig.UseSRGBFromDynRange := false;
     texconfig.DisableAutoReduce := false;
     texconfig.DisableLZO := false |}.

(** * Properties *)

(** ** The default configuration *)

Lemma Clone_fields (c : texconfig.TexConvertConfig) :
  texconfig.Hints (texconfig.Clone c) = texconfig.Hints c
  /\ texconfig.ConvertVersion (texconfig.Clone c) = texconfig.ConvertVersion c
  /\ texconfig.ApplyDefaultErrorMetrics (texconfig.Clone c) = false
  /\ texconfig.UseSRGBFromDynRange (texconfig.Clone c) = false
  /\ texconfig.DisableAutoReduce (texconfig.Clone c) = false
  /\ texconfig.DisableLZO (texconfig.Clone c) = false.
Proof. by destruct c. Qed.

Lemma Clone_idem (c : texconfig.TexConvertConfig) :
  texconfig.Clone (texconfig.Clone c) = texconfig.Clone c.
Proof. by destruct c. Qed.

(** C6: after [SetDefaultTexConvertConfig c], the value
    [DefaultTexConvertConfig] returns has the version and the hint list of
    [c], and every one of the four global toggles is false, whatever [c]
    held; with [cfgNoLZO], whose [DisableLZO] is true, the value read back
    differs from the value stored. *)
Theorem C6_set_then_get_drops_toggles
    (builtin c : texconfig.TexConvertConfig) (s : texconfig.DefaultState) :
  let got := (texconfig.DefaultTexConvertConfig builtin
                (texconfig.SetDefaultTexConvertConfig builtin c s)).1 in
  got = texconfig.Clone c
  /\ texconfig.Hints got = texconfig.Hints c
  /\ texconfig.ConvertVersion got = texconfig.ConvertVersion c
  /\ texconfig.ApplyDefaultErrorMetrics got = false
  /\ texconfig.UseSRGBFromDynRange got = false
  /\ texconfig.DisableAutoReduce got = false
  /\ texconfig.DisableLZO got = false
  /\ (texconfig.DefaultTexConvertConfig builtin
        (texconfig.SetDefaultTexConvertConfig builtin cfgNoLZO s)).1 <> cfgNoLZO.
Proof.
  assert (Hgot : forall c',
    (texconfig.DefaultTexConvertConfig builtin
       (texconfig.SetDefaultTexConvertConfig builtin c' s)).1 = texconfig.Clone c').
  { intros c'. unfold texconfig.DefaultTexConvertConfig,
      texconfig.SetDefaultTexConvertConfig, texconfig.onceInit.
    destruct s as [[] cfgv]; simpl; done. }
  cbv zeta. rewrite !Hgot.
  destruct (Clone_fields c) as (? & ? & ? & ? & ? & ?).
  repeat split; try done.
Qed.

(** ** Swizzle selectors on decode *)

Lemma swizzleValue_force (src : image_NRGBA) (so t : Z) :
  Z.land t 0x08 <> 0 -> swizzleValue src so t = OK 0xFF.
Proof.
  intros Ht. unfold swizzleValue.
  destruct (Z.eqb_spec (Z.land t 8) 0); [done | reflexivity].
Qed.

(** C5: the generic rule tests bit 3 of a selector
    first, so the selector 0x09 stores 255 in its channel, exactly as 0x08
    does, for every source image and every pixel; a DXT5 file with ZIWS
    00 09 02 03 decodes the pixel (10, 20, 30, 40) to (255, 20, 30, 40). *)
Theorem C5_selector_0x09_stores_255 `{Collaborators}
    (src : image_NRGBA) (so : Z) :
  swizzleValue src so 0x09 = OK 255
  /\ swizzleValue src so 0x08 = OK 255
  /\ applySwizzleTag
       (mkPAA {[ "ZIWS"%string := [0x00; 0x09; 0x02; 0x03] ]} [] [] PaxDXT5)
       decoded1x1
     = OK (mkNRGBAImage [255; 20; 30; 40] 4 1 1).
Proof.
  split; [|split].
  - by apply swizzleValue_force.
  - by apply swizzleValue_force.
  - reflexivity.
Qed.

(** ** Format selection from the alpha statistics *)

Lemma scanStep_fold (l : list Z) (s : alphaStats) :
  foldl scanStep s l =
  mkStats (hasAlpha s || existsb (fun a => a <? 255) l)
          (allHigh s && forallb (fun a => 0xF0 <=? a) l)
          (isBinary s && forallb (fun a => (a =? 0) || (a =? 255)) l).
Proof.
  revert s. induction l as [|a l IH]; intros [ha hi bi]; simpl.
  - by rewrite orb_false_r, !andb_true_r.
  - rewrite IH. unfold scanStep. simpl.
    destruct (Z.ltb_spec a 255), (Z.ltb_spec a 240), (Z.leb_spec 240 a),
      (Z.eqb_spec a 0), (Z.eqb_spec a 255); simpl; try lia;
      by destruct ha, hi, bi.
Qed.

Lemma forallb_Forall_alpha (P : Z -> bool) (Q : Z -> Prop) (img : Image) :
  (forall a, P a = true <-> Q a) ->
  forallb P (c_A <$> pixels img) = true <-> Forall (fun c => Q (c_A c)) (pixels img).
Proof.
  intros HPQ. induction (pixels img) as [|c l IH]; simpl.
  - split; [constructor | done].
  - rewrite andb_true_iff, Forall_cons, IH, HPQ. done.
Qed.

Lemma scanAlpha_allHigh (img : Image) :
  allHigh (scanAlpha img) = true <-> highAlpha img.
Proof.
  unfold scanAlpha. rewrite scanStep_fold. simpl.
  match goal with |- context [if ?b then _ else _] => destruct b end; simpl;
    (unfold highAlpha; apply (forallb_Forall_alpha _ (fun a => 240 <= a));
     intros a; apply Z.leb_le).
Qed.

Lemma opaque_is_high (l : list Z) :
  existsb (fun a => a <? 255) l = false ->
  forallb (fun a => 240 <=? a) l = true.
Proof.
  induction l as [|a l IH]; simpl; [done|].
  rewrite orb_false_iff, andb_true_iff. intros [Ha Hl]. split; [|by apply IH].
  apply Z.leb_le. apply Z.ltb_ge in Ha. lia.
Qed.

Lemma scanAlpha_DXT1 (img : Image) :
  let s := scanAlpha img in
  allHigh s || negb (hasAlpha s) || isBinary s = true
  <-> highAlpha img \/ binaryAlpha img.
Proof.
  cbv zeta. rewrite <- scanAlpha_allHigh.
  unfold scanAlpha. rewrite scanStep_fold. simpl.
  assert (Hb : forallb (fun a => (a =? 0) || (a =? 255)) (c_A <$> pixels img) = true
               <-> binaryAlpha img).
  { unfold binaryAlpha.
    apply (forallb_Forall_alpha _ (fun a => a = 0 \/ a = 255)). intros a.
    rewrite orb_true_iff, !Z.eqb_eq. done. }
  pose proof (opaque_is_high (c_A <$> pixels img)) as Hop.
  destruct (existsb _ _) eqn:He; simpl.
  - rewrite orb_false_r, orb_true_iff, Hb. done.
  - rewrite orb_true_r. split; [|done]. intros _. left. apply Hop. done.
Qed.


(** C4: for a hint whose format is Default, the format chosen is
    DXT1 exactly when every alpha of the image is at least 0xF0 (an all-opaque
    image is such an image) or every alpha is 0 or 255, and DXT5 exactly when
    neither holds. *)
Theorem C4_default_format_by_alpha (img : Image) (hint : texconfig.TextureHint) :
  texconfig.Format hint = texconfig.TexFormatDefault ->
  (selectPaxType (scanAlpha img) hint = OK PaxDXT1
     <-> highAlpha img \/ binaryAlpha img)
  /\ (selectPaxType (scanAlpha img) hint = OK PaxDXT5
     <-> ~ (highAlpha img \/ binaryAlpha img))
  /\ (allOpaque img -> selectPaxType (scanAlpha img) hint = OK PaxDXT1).
Proof.
  intros Hf. unfold selectPaxType. rewrite Hf.
  pose proof (scanAlpha_DXT1 img) as Hs. cbv zeta in Hs.
  assert (Hop : allOpaque img -> highAlpha img).
  { unfold allOpaque, highAlpha. intros Ho.
    eapply Forall_impl; [exact Ho|]. simpl. intros c Hc. lia. }
  destruct (allHigh (scanAlpha img) || negb (hasAlpha (scanAlpha img))
            || isBinary (scanAlpha img)) eqn:E.
  - assert (Hy : highAlpha img \/ binaryAlpha img) by (by apply Hs).
    split; [|split].
    + done.
    + split; [done|]. intros Hn. by destruct (Hn Hy).
    + done.
  - assert (Hn : ~ (highAlpha img \/ binaryAlpha img)).
    { intros Hc. destruct Hs as [_ Hs2]. specialize (Hs2 Hc). congruence. }
    split; [|split].
    + split; [done|]. intros Hc. by destruct (Hn Hc).
    + done.
    + intros Ho. destruct Hn. left. by apply Hop.
Qed.

Lemma C4_default_format_by_alpha_witness :
  (selectPaxType (scanAlpha (onePixel (mkNRGBA 9 9 9 100))) hintDefault = OK PaxDXT1
     <-> highAlpha (onePixel (mkNRGBA 9 9 9 100))
         \/ binaryAlpha (onePixel (mkNRGBA 9 9 9 100)))
  /\ (selectPaxType (scanAlpha (onePixel (mkNRGBA 9 9 9 100))) hintDefault = OK PaxDXT5
     <-> ~ (highAlpha (onePixel (mkNRGBA 9 9 9 100))
            \/ binaryAlpha (onePixel (mkNRGBA 9 9 9 100))))
  /\ (allOpaque (onePixel (mkNRGBA 9 9 9 100)) ->
      selectPaxType (scanAlpha (onePixel (mkNRGBA 9 9 9 100))) hintDefault = OK PaxDXT1).
Proof.
  exact (C4_default_format_by_alpha (onePixel (mkNRGBA 9 9 9 100)) hintDefault eq_refl).
Defined.

(** C4, an alpha between the two cases: a pixel of alpha 240 is neither
    opaque nor binary, and the format chosen for it is DXT1. *)
Lemma C4_alpha_240_counterexample :
  selectPaxType (scanAlpha (onePixel (mkNRGBA 9 9 9 240))) hintDefault = OK PaxDXT1
  /\ ~ (allOpaque (onePixel (mkNRGBA 9 9 9 240))
        \/ binaryAlpha (onePixel (mkNRGBA 9 9 9 240))).
Proof.
  split; [reflexivity|].
  unfold allOpaque, binaryAlpha. intros [Hc|Hc];
    apply Forall_inv in Hc; simpl in Hc; lia.
Qed.

(** ** Missing and empty SFFO tables *)

Lemma filter_nonzero_zeros (l : list Z) :
  Forall (fun v => v = 0) l -> filter (fun v => v ≠ 0) l = [].
Proof.
  induction 1 as [|v l Hv _ IH]; [done|].
  rewrite filter_cons_False; [done | by intros ?].
Qed.

Lemma sffoOffsets_all_zero (tags : gmap string (list Z)) (sffo : list Z) :
  tags !! "SFFO"%string = Some sffo ->
  Forall (fun v => v = 0) (sffoWords sffo) ->
  sffoOffsets tags = Err (Errorf_w ErrMissingSFFO "no non-zero offsets").
Proof.
  intros Ht Hz. unfold sffoOffsets. rewrite Ht.
  by rewrite (filter_nonzero_zeros _ Hz).
Qed.

(** C10: when the magic and the tag section of a stream are read and the
    SFFO tag found holds only zero words, DecodePAA, DecodeMetadata and
    Decode all fail, with one error, and [errors.Is] matches it with
    ErrMissingSFFO. *)
Theorem C10_zero_sffo_is_missing `{Collaborators} (stream : list Z)
    (pType : PaxType) (tags : gmap string (list Z)) (sffo : list Z)
    (r1 r2 : reader) :
  readPaxType (bytes_NewReader stream) = OK (pType, r1) ->
  readGGATTags r1 = OK (tags, r2) ->
  tags !! "SFFO"%string = Some sffo ->
  Forall (fun v => v = 0) (sffoWords sffo) ->
  exists e,
    DecodePAA stream = Err e
    /\ DecodeMetadata stream = Err e
    /\ Decode stream = Err e
    /\ errors_Is e ErrMissingSFFO = true.
Proof.
  intros Hp Ht Hs Hz.
  exists (Errorf_w ErrMissingSFFO "no non-zero offsets").
  pose proof (sffoOffsets_all_zero _ _ Hs Hz) as Ho.
  assert (Hd : DecodePAA stream = Err (Errorf_w ErrMissingSFFO "no non-zero offsets")).
  { unfold DecodePAA, DecodePAA_reader, mbind, Rd_bind.
    rewrite Hp, Ht. unfold lift. by rewrite Ho. }
  repeat split.
  - done.
  - unfold DecodeMetadata, DecodeMetadata_reader, mbind, Rd_bind.
    rewrite Hp, Ht. unfold lift. by rewrite Ho.
  - unfold Decode. by rewrite Hd.
Qed.

Lemma C10_zero_sffo_is_missing_witness :
  exists e,
    DecodePAA (H := standIns) zeroSFFOFile = Err e
    /\ DecodeMetadata zeroSFFOFile = Err e
    /\ Decode (H := standIns) zeroSFFOFile = Err e
    /\ errors_Is e ErrMissingSFFO = true.
Proof.
  apply (C10_zero_sffo_is_missing (H := standIns) zeroSFFOFile PaxDXT1
           {[ "SFFO"%string := replicate 64 0 ]} (replicate 64 0)
           (mkReader zeroSFFOFile 2) (mkReader zeroSFFOFile 82)).
  - reflexivity.
  - vm_compute. reflexivity.
  - reflexivity.
  - vm_compute. repeat constructor.
Defined.

(** The earlier revision of DecodePAA skips zero words one by one and has
    no test for an empty result: of the same file it makes a PAA without
    mips. *)
Example DecodePAA_inline_zeroSFFOFile :
  exists p, DecodePAA_inline (H := standIns) zeroSFFOFile = OK p
            /\ MipMaps p = [].
Proof. eexists. split; [vm_compute; reflexivity | reflexivity]. Qed.

(** ** Little-endian words *)

Lemma land_shiftl_low (a b n : Z) :
  0 <= n -> 0 <= a < 2 ^ n -> Z.land a (Z.shiftl b n) = 0.
Proof.
  intros Hn Ha. apply Z.bits_inj'. intros i Hi.
  rewrite Z.land_spec, Z.bits_0.
  destruct (Z.lt_ge_cases i n) as [Hlt|Hge].
  - rewrite (Z.shiftl_spec_low b n i Hlt). apply andb_false_r.
  - assert (Hai : Z.testbit a i = false).
    { destruct (Z.eq_dec a 0) as [->|Hne]; [apply Z.bits_0|].
      apply Z.bits_above_log2; [lia|].
      assert (Z.log2 a < n) by (apply Z.log2_lt_pow2; lia). lia. }
    by rewrite Hai.
Qed.

Lemma lor_shiftl_add (a b n : Z) :
  0 <= n -> 0 <= a < 2 ^ n ->
  Z.lor a (Z.shiftl b n) = a + b * 2 ^ n.
Proof.
  intros Hn Ha.
  rewrite <- Z.lxor_lor by (by apply land_shiftl_low).
  rewrite <- Z.add_nocarry_lxor by (by apply land_shiftl_low).
  by rewrite Z.shiftl_mul_pow2.
Qed.

Lemma Uint16_le_bytes (v : Z) :
  0 <= v < 65536 -> LittleEndian_Uint16 (le_uint16_bytes v) = v.
Proof.
  intros Hv. unfold LittleEndian_Uint16, le_uint16_bytes, uint8.
  rewrite Z.shiftr_div_pow2 by lia.
  rewrite lor_shiftl_add by (change (2 ^ 8) with 256; lia || Z.div_mod_to_equations; lia).
  change (2 ^ 8) with 256. Z.div_mod_to_equations. lia.
Qed.

Lemma Uint32_le_bytes (v : Z) :
  0 <= v < 4294967296 -> LittleEndian_Uint32 (le_uint32_bytes v) = v.
Proof.
  intros Hv. unfold LittleEndian_Uint32, le_uint32_bytes, uint8.
  rewrite !Z.shiftr_div_pow2 by lia.
  change (2 ^ 8) with 256. change (2 ^ 16) with 65536. change (2 ^ 24) with 16777216.
  rewrite (lor_shiftl_add (v mod 256) _ 8)
    by (change (2 ^ 8) with 256; Z.div_mod_to_equations; lia).
  rewrite (lor_shiftl_add _ _ 16)
    by (change (2 ^ 8) with 256; change (2 ^ 16) with 65536;
        Z.div_mod_to_equations; lia).
  rewrite (lor_shiftl_add _ _ 24)
    by (change (2 ^ 8) with 256; change (2 ^ 16) with 65536;
        change (2 ^ 24) with 16777216; Z.div_mod_to_equations; lia).
  change (2 ^ 8) with 256. change (2 ^ 16) with 65536. change (2 ^ 24) with 16777216.
  Z.div_mod_to_equations. lia.
Qed.

(** ** Strings and bytes *)

Lemma string_of_bytes_of_string (s : string) :
  string_of_bytes (bytes_of_string s) = s.
Proof.
  induction s as [|a s IH]; [done|]. simpl.
  by rewrite N2Z.id, ascii_N_embedding, IH.
Qed.

Lemma length_bytes_of_string (s : string) :
  length (bytes_of_string s) = String.length s.
Proof. induction s as [|a s IH]; simpl; [done | by rewrite IH]. Qed.

(** ** Reading from a buffer *)

Lemma io_ReadFull_ok (data : list Z) (pos : nat) (bs rest : list Z) (n : nat) :
  drop pos data = bs ++ rest ->
  length bs = n ->
  io_ReadFull n (mkReader data pos) = OK (bs, mkReader data (pos + n)).
Proof.
  intros Hd Hl. unfold io_ReadFull. simpl. rewrite Hd.
  destruct (Nat.eqb_spec n 0) as [->|Hn].
  - destruct bs; [|done]. by rewrite Nat.add_0_r.
  - rewrite length_app, Hl.
    destruct (Nat.leb_spec n (n + length rest)); [|lia].
    by rewrite take_app_length'.
Qed.

Lemma drop_after (data : list Z) (pos : nat) (bs rest : list Z) (n : nat) :
  drop pos data = bs ++ rest ->
  length bs = n ->
  drop (pos + n) data = rest.
Proof.
  intros Hd Hl. rewrite <- drop_drop, Hd. by rewrite drop_app_length'.
Qed.

Lemma io_ReadFull_unread (n : nat) (r r' : reader) (bs : list Z) :
  io_ReadFull n r = OK (bs, r') ->
  r_data r' = r_data r /\ length bs = n
  /\ (unread r' + n = unread r)%nat.
Proof.
  unfold io_ReadFull, unread. destruct (Nat.eqb_spec n 0) as [->|Hn].
  - intros [= Hb Hr]. subst. simpl. repeat split; lia.
  - destruct (Nat.leb_spec n (length (drop (r_pos r) (r_data r)))) as [Hle|Hlt].
    + intros [= Hb Hr]. subst. simpl.
      rewrite length_take, <- drop_drop, !length_drop in *.
      repeat split; lia.
    + by destruct (drop (r_pos r) (r_data r)).
Qed.

(** ** Reading one mip block *)

Lemma expectedMipSize_DXT_nonneg (t : PaxType) (w h : Z) :
  isDXT t = true -> 0 <= expectedMipSize t w h.
Proof.
  intros Ht. unfold expectedMipSize.
  destruct (Z.leb_spec w 0), (Z.leb_spec h 0); simpl; try lia.
  assert (0 <= (w + 3) / 4) by (apply Z.div_pos; lia).
  assert (0 <= (h + 3) / 4) by (apply Z.div_pos; lia).
  destruct t; try done; nia.
Qed.

(** The header of a mip block at the cursor, then its payload. *)
Lemma readMipMap_header `{Collaborators} (paxType : PaxType) (data : list Z)
    (pos : nat) (w0 w1 h0 h1 s0 s1 s2 : Z) (payload rest : list Z) :
  drop pos data = [w0; w1; h0; h1; s0; s1; s2] ++ payload ++ rest ->
  let w := LittleEndian_Uint16 [w0; w1] in
  let h := LittleEndian_Uint16 [h0; h1] in
  let storedSize := Z.lor (Z.lor s0 (Z.shiftl s1 8)) (Z.shiftl s2 16) in
  Z.of_nat (length payload) = storedSize ->
  ~ (w = 0 /\ h = 0) ->
  let lzoFlag := isDXT paxType && negb (Z.land w 0x8000 =? 0) in
  let width := if lzoFlag then Z.land w 0x7FFF else w in
  let expectedRaw := expectedMipSize paxType width h in
  let r' := mkReader data (pos + 7 + length payload) in
  readMipMap paxType (mkReader data pos) =
    if expectedRaw <? 0 then Err ErrUnsupportedPixelFmt
    else if storedSize =? expectedRaw
         then OK (Some (mkMipMap payload paxType width h), r')
    else if isDXT paxType then
      if negb lzoFlag then Err ErrInsufficientData
      else match lzo_Decompress payload expectedRaw with
           | OK dec => OK (Some (mkMipMap dec paxType width h), r')
           | Err e => Err (errors_Join ErrLZODecompress e)
           end
    else match lzss_Decompress payload expectedRaw with
         | OK dec => OK (Some (mkMipMap dec paxType width h), r')
         | Err e => Err (errors_Join ErrLZSSDecompress e)
         end.
Proof.
  intros Hd w h storedSize Hlen Hwh lzoFlag width expectedRaw r'.
  unfold readMipMap, binary_Read_uint16, mbind, Rd_bind, mret, Rd_ret.
  rewrite (io_ReadFull_ok data pos [w0; w1]
             ([h0; h1; s0; s1; s2] ++ payload ++ rest) 2 Hd eq_refl).
  assert (Hd2 : drop (pos + 2) data = [h0; h1] ++ [s0; s1; s2] ++ payload ++ rest).
  { by apply (drop_after data pos [w0; w1]). }
  rewrite (io_ReadFull_ok data (pos + 2) [h0; h1] _ 2 Hd2 eq_refl).
  fold w h.
  assert (Hz : (w =? 0) && (h =? 0) = false).
  { destruct (Z.eqb_spec w 0), (Z.eqb_spec h 0); simpl; try done.
    by destruct Hwh. }
  rewrite Hz.
  assert (Hd3 : drop (pos + 2 + 2) data = [s0; s1; s2] ++ payload ++ rest).
  { by apply (drop_after data (pos + 2) [h0; h1]). }
  rewrite (io_ReadFull_ok data (pos + 2 + 2) [s0; s1; s2] _ 3 Hd3 eq_refl).
  fold storedSize.
  assert (Hd4 : drop (pos + 2 + 2 + 3) data = payload ++ rest).
  { by apply (drop_after data (pos + 2 + 2) [s0; s1; s2]). }
  assert (Hn : Z.to_nat storedSize = length payload) by lia.
  rewrite (io_ReadFull_ok data (pos + 2 + 2 + 3) payload rest _ Hd4 (eq_sym Hn)).
  fold lzoFlag. fold width. fold expectedRaw.
  replace (pos + 2 + 2 + 3 + Z.to_nat storedSize)%nat
    with (pos + 7 + length payload)%nat by lia.
  fold r'.
  destruct (expectedRaw <? 0); [done|].
  destruct (storedSize =? expectedRaw); [done|].
  destruct (isDXT paxType).
  - destruct (negb lzoFlag); [done|]. by destruct (lzo_Decompress _ _).
  - by destruct (lzss_Decompress _ _).
Qed.

(** C7: for a DXT format and a block whose width and height fields
    are not both zero, a stored length equal to the expected raw size makes
    the payload the raw data of the mip (the returned width is the field
    without its top bit when that bit is set), and a stored length that
    differs, with the top bit of the width field clear, fails with
    ErrInsufficientData. *)
Theorem C7_readMipMap_raw_or_insufficient `{Collaborators} (paxType : PaxType)
    (data : list Z) (pos : nat) (w0 w1 h0 h1 s0 s1 s2 : Z)
    (payload rest : list Z) :
  isDXT paxType = true ->
  drop pos data = [w0; w1; h0; h1; s0; s1; s2] ++ payload ++ rest ->
  let w := LittleEndian_Uint16 [w0; w1] in
  let h := LittleEndian_Uint16 [h0; h1] in
  let storedSize := Z.lor (Z.lor s0 (Z.shiftl s1 8)) (Z.shiftl s2 16) in
  Z.of_nat (length payload) = storedSize ->
  ~ (w = 0 /\ h = 0) ->
  let width := if negb (Z.land w 0x8000 =? 0) then Z.land w 0x7FFF else w in
  (storedSize = expectedMipSize paxType width h ->
   readMipMap paxType (mkReader data pos) =
     OK (Some (mkMipMap payload paxType width h),
         mkReader data (pos + 7 + length payload)))
  /\ (storedSize <> expectedMipSize paxType width h ->
      Z.land w 0x8000 = 0 ->
      readMipMap paxType (mkReader data pos) = Err ErrInsufficientData).
Proof.
  intros Hdxt Hd w h storedSize Hlen Hwh width.
  rewrite (readMipMap_header paxType data pos w0 w1 h0 h1 s0 s1 s2 payload rest
             Hd Hlen Hwh).
  fold w h storedSize. rewrite Hdxt. simpl. fold width.
  pose proof (expectedMipSize_DXT_nonneg paxType width h Hdxt) as Hnn.
  destruct (Z.ltb_spec (expectedMipSize paxType width h) 0); [lia|].
  split.
  - intros He. by rewrite (proj2 (Z.eqb_eq _ _) He).
  - intros Hne Hbit. rewrite (proj2 (Z.eqb_neq _ _) Hne).
    by rewrite Hbit.
Qed.

Lemma C7_readMipMap_raw_or_insufficient_witness :
  (8 = expectedMipSize PaxDXT1 2 2 ->
   readMipMap (H := standIns) PaxDXT1
     (mkReader [2; 0; 2; 0; 8; 0; 0; 1; 2; 3; 4; 5; 6; 7; 8; 9] 0) =
     OK (Some (mkMipMap [1; 2; 3; 4; 5; 6; 7; 8] PaxDXT1 2 2),
         mkReader [2; 0; 2; 0; 8; 0; 0; 1; 2; 3; 4; 5; 6; 7; 8; 9] 15))
  /\ (8 <> expectedMipSize PaxDXT1 2 2 ->
      Z.land 2 0x8000 = 0 ->
      readMipMap (H := standIns) PaxDXT1
        (mkReader [2; 0; 2; 0; 8; 0; 0; 1; 2; 3; 4; 5; 6; 7; 8; 9] 0)
      = Err ErrInsufficientData).
Proof.
  apply (C7_readMipMap_raw_or_insufficient (H := standIns) PaxDXT1
           [2; 0; 2; 0; 8; 0; 0; 1; 2; 3; 4; 5; 6; 7; 8; 9] 0 2 0 2 0 8 0 0
           [1; 2; 3; 4; 5; 6; 7; 8] [9]).
  - reflexivity.
  - reflexivity.
  - reflexivity.
  - vm_compute. intros [Hw _]. discriminate Hw.
Defined.

(** A 2x2 DXT1 block that stores four bytes where eight are expected, with
    the top bit of its width clear, is refused. *)
Example readMipMap_short_block :
  readMipMap (H := standIns) PaxDXT1
    (mkReader [2; 0; 2; 0; 4; 0; 0; 1; 2; 3; 4; 9] 0) = Err ErrInsufficientData.
Proof. reflexivity. Qed.

(** C7 at width = height = 0: the block is the dummy that ends a file, and
    reading it returns no mip and no error, although its
    stored length (1) differs from the expected size (0) and the top bit of
    its width is clear. *)
Lemma C7_dummy_block_counterexample :
  readMipMap (H := standIns) PaxDXT1 (mkReader [0; 0; 0; 0; 1; 0; 0; 170] 0)
    = OK (None, mkReader [0; 0; 0; 0; 1; 0; 0; 170] 4)
  /\ 1 <> expectedMipSize PaxDXT1 0 0
  /\ Z.land (LittleEndian_Uint16 [0; 0]) 0x8000 = 0
  /\ readMipMap (H := standIns) PaxDXT1 (mkReader [0; 0; 0; 0; 1; 0; 0; 170] 0)
     <> Err ErrInsufficientData.
Proof. repeat split; done. Qed.

(** ** The tag section *)

(** The fuel of [readTagsLoop] is never used up: any two bounds on the
    unread bytes give the same result. *)
Lemma readTagsLoop_fuel (f1 f2 : nat) (tags : gmap string (list Z)) (r : reader) :
  (unread r <= f1)%nat -> (unread r <= f2)%nat ->
  readTagsLoop f1 tags r = readTagsLoop f2 tags r.
Proof.
  revert f2 tags r. induction f1 as [|f1 IH]; intros f2 tags r H1 H2.
  - destruct f2 as [|f2]; [done|]. simpl. unfold mbind, Rd_bind.
    destruct (io_ReadFull 4 r) as [[sig r1]|e] eqn:E1; [|done].
    apply io_ReadFull_unread in E1 as (_ & _ & Hu). lia.
  - destruct f2 as [|f2].
    + simpl. unfold mbind, Rd_bind.
      destruct (io_ReadFull 4 r) as [[sig r1]|e] eqn:E1; [|done].
      apply io_ReadFull_unread in E1 as (_ & _ & Hu). lia.
    + simpl. unfold binary_Read_uint32, mbind, Rd_bind, mret, Rd_ret.
      destruct (io_ReadFull 4 r) as [[sig r1]|e] eqn:E1; [|done].
      destruct (decide (sig = GGAT)) as [Hsg|Hsg]; [|done].
      destruct (io_ReadFull 4 r1) as [[nameBuf r2]|e] eqn:E2; [|done].
      destruct (io_ReadFull 4 r2) as [[sz r3]|e] eqn:E3; [|done].
      destruct (io_ReadFull _ r3) as [[dat r4]|e] eqn:E4; [|done].
      apply io_ReadFull_unread in E1 as (_ & _ & Hu1).
      apply io_ReadFull_unread in E2 as (_ & _ & Hu2).
      apply io_ReadFull_unread in E3 as (_ & _ & Hu3).
      apply io_ReadFull_unread in E4 as (_ & _ & Hu4).
      apply IH; lia.
Qed.

Lemma length_tagBytes (name : string) (payload : list Z) :
  String.length name = 4%nat ->
  length (tagBytes name payload) = (12 + length payload)%nat.
Proof.
  intros Hn. unfold tagBytes. rewrite !length_app, length_bytes_of_string, Hn.
  simpl. lia.
Qed.

Lemma tagsBytes_cons (t : string * list Z) (ts : list (string * list Z)) :
  tagsBytes (t :: ts) = tagBytes t.1 t.2 ++ tagsBytes ts.
Proof. reflexivity. Qed.

Lemma tagsBytes_app (ts1 ts2 : list (string * list Z)) :
  tagsBytes (ts1 ++ ts2) = tagsBytes ts1 ++ tagsBytes ts2.
Proof.
  unfold tagsBytes. by rewrite fmap_app, join_app.
Qed.

Lemma readTagsLoop_S (fuel : nat) (tags : gmap string (list Z)) :
  readTagsLoop (S fuel) tags =
    (sig ← io_ReadFull 4;
     if decide (sig = GGAT) then
       nameBuf ← io_ReadFull 4;
       size ← binary_Read_uint32;
       data ← io_ReadFull (Z.to_nat size);
       readTagsLoop fuel (<[string_of_bytes nameBuf := data]> tags)
     else mret tags).
Proof. reflexivity. Qed.

Lemma readTagsLoop_tags (ts : list (string * list Z)) :
  forall (acc : gmap string (list Z)) (data : list Z) (pos : nat)
         (rest : list Z) (fuel : nat),
  Forall wellFormedTag ts ->
  drop pos data = tagsBytes ts ++ rest ->
  (4 <= length rest)%nat ->
  take 4 rest <> GGAT ->
  (length ts <= fuel)%nat ->
  readTagsLoop fuel acc (mkReader data pos) =
    OK (foldl (fun m t => <[t.1 := t.2]> m) acc ts,
        mkReader data (pos + length (tagsBytes ts) + 4)).
Proof.
  induction ts as [|[name payload] ts IH];
    intros acc data pos rest fuel Hwf Hd Hrest Hsig Hfuel.
  - simpl in *.
    assert (E : io_ReadFull 4 (mkReader data pos) =
                OK (take 4 rest, mkReader data (pos + 4))).
    { apply (io_ReadFull_ok data pos (take 4 rest) (drop 4 rest)).
      - by rewrite take_drop.
      - rewrite length_take. lia. }
    destruct fuel; simpl; unfold mbind, Rd_bind; rewrite E;
      (destruct (decide (take 4 rest = GGAT)) as [Hsg|Hsg]; [done|]);
      unfold mret, Rd_ret; by rewrite Nat.add_0_r.
  - apply Forall_cons in Hwf as [[Hname Hsize] Hwf]. simpl in Hname, Hsize.
    destruct fuel as [|fuel]; [simpl in Hfuel; lia|].
    rewrite tagsBytes_cons in Hd. cbn [fst snd] in Hd. unfold tagBytes in Hd.
    rewrite <- !app_assoc in Hd.
    rewrite readTagsLoop_S.
    unfold binary_Read_uint32, mbind, Rd_bind, mret, Rd_ret.
    rewrite (io_ReadFull_ok data pos GGAT _ 4 Hd eq_refl).
    destruct (decide (GGAT = GGAT)) as [_|Hsg]; [|done].
    pose proof (drop_after data pos GGAT _ 4 Hd eq_refl) as Hd1.
    assert (Hnl : length (bytes_of_string name) = 4%nat)
      by (by rewrite length_bytes_of_string).
    rewrite (io_ReadFull_ok data (pos + 4) _ _ 4 Hd1 Hnl).
    pose proof (drop_after data (pos + 4) _ _ 4 Hd1 Hnl) as Hd2.
    rewrite (io_ReadFull_ok data (pos + 4 + 4) _ _ 4 Hd2 eq_refl).
    pose proof (drop_after data (pos + 4 + 4) _ _ 4 Hd2 eq_refl) as Hd3.
    assert (Hsz : uint32 (Z.of_nat (length payload)) = Z.of_nat (length payload)).
    { unfold uint32. apply Z.mod_small. lia. }
    rewrite Uint32_le_bytes by (rewrite Hsz; lia).
    rewrite Hsz, Nat2Z.id.
    rewrite (io_ReadFull_ok data (pos + 4 + 4 + 4) payload _ _ Hd3 eq_refl).
    pose proof (drop_after data (pos + 4 + 4 + 4) payload _ _ Hd3 eq_refl) as Hd4.
    rewrite string_of_bytes_of_string.
    rewrite (IH _ data _ rest fuel Hwf Hd4 Hrest Hsig) by (simpl in Hfuel; lia).
    cbn [foldl fst snd]. do 2 f_equal. f_equal.
    rewrite tagsBytes_cons, length_app. cbn [fst snd].
    rewrite (length_tagBytes name payload Hname). lia.
Qed.

Lemma length_tagsBytes_ge (ts : list (string * list Z)) :
  Forall wellFormedTag ts -> (length ts <= length (tagsBytes ts))%nat.
Proof.
  induction 1 as [|[name payload] ts [Hn _] _ IH]; [done|].
  rewrite tagsBytes_cons, length_app. cbn [fst snd length] in *.
  rewrite (length_tagBytes name payload Hn). lia.
Qed.

(** Reading back a tag section that ends before bytes other than "GGAT". *)
Lemma readGGATTags_tags (ts : list (string * list Z)) (data : list Z)
    (pos : nat) (rest : list Z) :
  Forall wellFormedTag ts ->
  drop pos data = tagsBytes ts ++ rest ->
  (4 <= length rest)%nat ->
  take 4 rest <> GGAT ->
  readGGATTags (mkReader data pos) =
    OK (tagTable ts, mkReader data (pos + length (tagsBytes ts) + 4)).
Proof.
  intros Hwf Hd Hrest Hsig. unfold readGGATTags, tagTable.
  apply (readTagsLoop_tags ts ∅ data pos rest); try done.
  unfold unread. simpl. rewrite Hd, length_app.
  pose proof (length_tagsBytes_ge ts Hwf). lia.
Qed.




(** The file with two CGVA tags decodes, and the table it yields holds the
    payload of the second. *)
Example DecodePAA_twoCGVAFile :
  exists p, DecodePAA (H := standIns) twoCGVAFile = OK p
            /\ Taggs p !! "CGVA"%string = Some [5; 6; 7; 8]
            /\ length (MipMaps p) = 1%nat.
Proof. eexists. split; [vm_compute; reflexivity|]. split; reflexivity. Qed.

(** ** Pixels in scan order *)

Lemma lookup_bind_chunks {A B : Type} (f : A -> list B) (n : nat) (l : list A)
    (i j : nat) :
  (forall a, length (f a) = n) ->
  (j < n)%nat ->
  (l ≫= f) !! (i * n + j)%nat = (l !! i) ≫= (fun a => f a !! j).
Proof.
  intros Hf Hj. revert i. induction l as [|a l IH]; intros i; [done|].
  rewrite bind_cons. destruct i as [|i]; simpl.
  - rewrite lookup_app_l by (rewrite Hf; lia). done.
  - rewrite lookup_app_r by (rewrite Hf; lia).
    rewrite Hf. replace (n + i * n + j - n)%nat with (i * n + j)%nat by lia.
    apply IH.
Qed.

Lemma length_bind_chunks {A B : Type} (f : A -> list B) (n : nat) (l : list A) :
  (forall a, length (f a) = n) -> length (l ≫= f) = (length l * n)%nat.
Proof.
  intros Hf. induction l as [|a l IH]; [done|].
  rewrite bind_cons, length_app, Hf, IH. simpl. lia.
Qed.

Lemma length_points (w h : Z) :
  0 <= w -> 0 <= h -> length (points w h) = Z.to_nat (h * w).
Proof.
  intros Hw Hh. unfold points.
  rewrite (length_bind_chunks _ (Z.to_nat w)).
  - rewrite length_seqZ. lia.
  - intros y. rewrite (length_bind_chunks _ 1%nat) by done.
    rewrite length_seqZ. lia.
Qed.

Lemma lookup_points (w h x y : Z) :
  0 <= x < w -> 0 <= y < h ->
  points w h !! Z.to_nat (y * w + x) = Some (x, y).
Proof.
  intros Hx Hy. unfold points.
  replace (Z.to_nat (y * w + x)) with (Z.to_nat y * Z.to_nat w + Z.to_nat x)%nat
    by nia.
  rewrite (lookup_bind_chunks _ (Z.to_nat w)).
  - rewrite lookup_seqZ_lt by lia. simpl.
    replace (Z.to_nat x) with (Z.to_nat x * 1 + 0)%nat by lia.
    rewrite (lookup_bind_chunks _ 1%nat) by (done || lia).
    rewrite lookup_seqZ_lt by lia. simpl. do 2 f_equal; lia.
  - intros y'. rewrite (length_bind_chunks _ 1%nat) by done.
    rewrite length_seqZ. lia.
  - lia.
Qed.

Lemma length_pixels (img : Image) :
  0 <= Dx img -> 0 <= Dy img ->
  length (pixels img) = Z.to_nat (Dy img * Dx img).
Proof.
  intros. unfold pixels. by rewrite length_fmap, length_points.
Qed.

Lemma lookup_pixels (img : Image) (x y : Z) :
  0 <= x < Dx img -> 0 <= y < Dy img ->
  pixels img !! Z.to_nat (y * Dx img + x) = Some (At img x y).
Proof.
  intros Hx Hy. unfold pixels.
  by rewrite list_lookup_fmap, lookup_points.
Qed.

Lemma validImage_pixels (img : Image) :
  validImage img -> Forall validColor (pixels img).
Proof.
  intros Hv. unfold pixels, points.
  apply Forall_fmap, Forall_forall. intros [x y] Hin. simpl.
  apply list_elem_of_bind in Hin as (y' & Hin & Hy).
  apply list_elem_of_bind in Hin as (x' & Hin & Hx).
  apply list_elem_of_singleton in Hin as [= -> ->].
  apply elem_of_seqZ in Hx, Hy. apply Hv; lia.
Qed.

(** ** ARGB4444: packing and unpacking *)

Lemma nibblesOK_all :
  forallb (fun a => forallb (fun b => forallb (fun g =>
    forallb (fun r => nibblesOK a b g r) (seqZ 0 16)) (seqZ 0 16)) (seqZ 0 16))
    (seqZ 0 16) = true.
Proof. vm_compute. reflexivity. Qed.

Lemma forallb_seqZ (f : Z -> bool) (n k : Z) :
  forallb f (seqZ 0 n) = true -> 0 <= k < n -> f k = true.
Proof.
  intros Hf Hk. rewrite forallb_forall in Hf. apply Hf.
  apply list_elem_of_In, elem_of_seqZ. lia.
Qed.

Lemma nibblesOK_range (a b g r : Z) :
  0 <= a < 16 -> 0 <= b < 16 -> 0 <= g < 16 -> 0 <= r < 16 ->
  nibblesOK a b g r = true.
Proof.
  intros Ha Hb Hg Hr. pose proof nibblesOK_all as Hall.
  apply (forallb_seqZ _ 16 a) in Hall; [|done].
  apply (forallb_seqZ _ 16 b) in Hall; [|done].
  apply (forallb_seqZ _ 16 g) in Hall; [|done].
  by apply (forallb_seqZ _ 16 r) in Hall.
Qed.

Lemma high_nibble (v : Z) :
  0 <= v < 256 -> 0 <= Z.shiftr v 4 < 16 /\ Z.shiftr v 4 * 16 = Z.land v 0xF0.
Proof.
  intros Hv.
  assert (Hall : forallb (fun v => (0 <=? Z.shiftr v 4) && (Z.shiftr v 4 <? 16)
                   && (Z.shiftr v 4 * 16 =? Z.land v 0xF0)) (seqZ 0 256) = true)
    by (vm_compute; reflexivity).
  apply (forallb_seqZ _ 256 v) in Hall; [|done].
  apply andb_true_iff in Hall as [Hall H3]. apply andb_true_iff in Hall as [H1 H2].
  apply Z.leb_le in H1. apply Z.ltb_lt in H2. apply Z.eqb_eq in H3. lia.
Qed.

Lemma packARGB4444_unpack (c : NRGBA) :
  validColor c ->
  0 <= packARGB4444 c < 65536
  /\ nibbleBytes (packARGB4444 c) = quantBytes c.
Proof.
  intros (HR & HG & HB & HA).
  destruct (high_nibble _ HR) as [HR1 HR2], (high_nibble _ HG) as [HG1 HG2],
    (high_nibble _ HB) as [HB1 HB2], (high_nibble _ HA) as [HA1 HA2].
  pose proof (nibblesOK_range _ _ _ _ HA1 HB1 HG1 HR1) as Hok.
  unfold nibblesOK in Hok. cbv zeta in Hok.
  apply andb_true_iff in Hok as [Hok H3]. apply andb_true_iff in Hok as [H1 H2].
  apply Z.leb_le in H1. apply Z.ltb_lt in H2. apply bool_decide_eq_true in H3.
  unfold packARGB4444. cbv zeta. split; [lia|].
  rewrite H3. unfold quantBytes. by rewrite HR2, HG2, HB2, HA2.
Qed.

Lemma Uint16_wordBytes4444 (c : NRGBA) (rest : list Z) :
  validColor c ->
  LittleEndian_Uint16 (wordBytes4444 c ++ rest) = packARGB4444 c.
Proof.
  intros Hc. destruct (packARGB4444_unpack c Hc) as [Hp _].
  transitivity (LittleEndian_Uint16 (le_uint16_bytes (packARGB4444 c)));
    [reflexivity | by apply Uint16_le_bytes].
Qed.

(** ** ARGB4444: the encoder's loop *)

Lemma PutUint16_zeros (pre rest : list Z) (v : Z) :
  PutUint16 (pre ++ 0 :: 0 :: rest) (length pre) v = pre ++ le_uint16_bytes v ++ rest.
Proof.
  unfold PutUint16.
  replace (length pre) with (length pre + 0)%nat at 2 by lia.
  rewrite insert_app_r. simpl.
  replace (S (length pre)) with (length pre + 1)%nat by lia.
  by rewrite insert_app_r.
Qed.

Lemma encode4444_fold `{Collaborators} (px : list NRGBA) (pre : list Z) :
  foldl (encodeStep PaxARGB4) (pre ++ replicate (2 * length px) 0, length pre) px
  = (pre ++ (px ≫= wordBytes4444), (length pre + 2 * length px)%nat).
Proof.
  revert pre. induction px as [|c px IH]; intros pre.
  - simpl. by rewrite Nat.add_0_r.
  - replace (2 * length (c :: px))%nat with (S (S (2 * length px))) by (simpl; lia).
    cbn [replicate foldl encodeStep].
    rewrite PutUint16_zeros.
    replace (length pre + 2)%nat with (length (pre ++ le_uint16_bytes (packARGB4444 c)))
      by (rewrite length_app; simpl; lia).
    rewrite app_assoc, IH. rewrite bind_cons, <- app_assoc.
    f_equal. rewrite length_app. simpl. lia.
Qed.

Lemma encodePixelFormat_ARGB4 `{Collaborators} (img : Image) :
  0 < Dx img -> 0 < Dy img ->
  encodePixelFormat PaxARGB4 img = OK (pixels img ≫= wordBytes4444).
Proof.
  intros Hw Hh. unfold encodePixelFormat.
  destruct (Z.leb_spec (Dx img) 0), (Z.leb_spec (Dy img) 0); try lia. simpl.
  replace (Z.to_nat (Dx img * Dy img * 2)) with (2 * length (pixels img))%nat
    by (rewrite length_pixels by lia; lia).
  by rewrite (encode4444_fold (pixels img) []).
Qed.

(** ** ARGB4444: the decoder's loop *)

Lemma Pix_set_here (pre rest : list Z) (x v : Z) (i : Z) :
  i = Z.of_nat (length pre) ->
  Pix_set (pre ++ x :: rest) i v = OK ((pre ++ [v]) ++ rest).
Proof.
  intros ->. unfold Pix_set. rewrite length_app. simpl.
  destruct (Z.leb_spec 0 (Z.of_nat (length pre))); [|lia].
  destruct (Z.ltb_spec (Z.of_nat (length pre))
              (Z.of_nat (length pre + S (length rest)))); [|lia].
  simpl. rewrite Nat2Z.id.
  replace (length pre) with (length pre + 0)%nat at 1 by lia.
  rewrite insert_app_r. simpl. by rewrite <- app_assoc.
Qed.

Lemma decodeARGB4444_step (raw pre rest : list Z) (i : Z) :
  Z.of_nat (length pre) = i * 4 ->
  decodeARGB4444 raw i (pre ++ 0 :: 0 :: 0 :: 0 :: rest)
  = OK (pre ++ nibbleBytes (LittleEndian_Uint16 (drop (Z.to_nat (i * 2)) raw))
            ++ rest).
Proof.
  intros Hi. unfold decodeARGB4444. cbv zeta. unfold mbind, result_bind.
  rewrite Pix_set_here by lia.
  rewrite Pix_set_here by (rewrite length_app; simpl; lia).
  rewrite Pix_set_here by (rewrite !length_app; simpl; lia).
  rewrite Pix_set_here by (rewrite !length_app; simpl; lia).
  by rewrite <- !app_assoc.
Qed.

Lemma decode4444_loop (suf pre : list NRGBA) (done : list Z) :
  Forall validColor suf ->
  length done = (4 * length pre)%nat ->
  forM (seqZ (Z.of_nat (length pre)) (Z.of_nat (length suf)))
       (decodeARGB4444 ((pre ++ suf) ≫= wordBytes4444))
       (done ++ replicate (4 * length suf) 0)
  = OK (done ++ (suf ≫= quantBytes)).
Proof.
  revert pre done. induction suf as [|c suf IH]; intros pre done Hv Hd.
  - done.
  - apply Forall_cons in Hv as [Hc Hv].
    rewrite seqZ_cons by (simpl; lia).
    replace (4 * length (c :: suf))%nat
      with (S (S (S (S (4 * length suf))))) by (simpl; lia).
    cbn [forM replicate]. unfold mbind at 1, result_bind.
    rewrite decodeARGB4444_step by lia.
    assert (Hdrop : drop (Z.to_nat (Z.of_nat (length pre) * 2))
                      ((pre ++ c :: suf) ≫= wordBytes4444)
                    = wordBytes4444 c ++ (suf ≫= wordBytes4444)).
    { rewrite bind_app, bind_cons. apply drop_app_length'.
      rewrite (length_bind_chunks _ 2%nat) by done. lia. }
    rewrite Hdrop, Uint16_wordBytes4444 by done.
    destruct (packARGB4444_unpack c Hc) as [_ ->].
    replace (Z.succ (Z.of_nat (length pre))) with (Z.of_nat (length (pre ++ [c])))
      by (rewrite length_app; simpl; lia).
    replace (Z.pred (Z.of_nat (length (c :: suf)))) with (Z.of_nat (length suf))
      by (simpl; lia).
    rewrite (cons_middle c pre suf), app_assoc.
    rewrite (app_assoc done), IH.
    + by rewrite bind_cons, <- app_assoc.
    + done.
    + rewrite !length_app. simpl. lia.
Qed.

Lemma decodePixelFormat_ARGB4 `{Collaborators} (px : list NRGBA) (w h : Z) :
  Forall validColor px ->
  length px = Z.to_nat (h * w) -> 0 <= w -> 0 <= h ->
  decodePixelFormat PaxARGB4 (px ≫= wordBytes4444) w h (image_NewNRGBA w h)
  = OK (mkNRGBAImage (px ≫= quantBytes) (4 * w) w h).
Proof.
  intros Hv Hl Hw Hh. unfold decodePixelFormat. cbv zeta.
  rewrite (length_bind_chunks _ 2%nat) by done.
  replace (Z.of_nat (length px * 2) / 2) with (Z.of_nat (length px))
    by (rewrite Nat2Z.inj_mul, Z.div_mul; lia).
  unfold image_NewNRGBA. simpl.
  replace (Z.to_nat (4 * w * h)) with (4 * length px)%nat by lia.
  pose proof (decode4444_loop px [] [] Hv eq_refl) as Hloop.
  cbn [app length] in Hloop. change (Z.of_nat 0) with 0 in Hloop.
  rewrite Hloop. reflexivity.
Qed.

Lemma lookup_quantBytes (px : list NRGBA) (i : nat) (c : NRGBA) :
  px !! i = Some c ->
  (px ≫= quantBytes) !!! (4 * i)%nat = Z.land (c_R c) 0xF0
  /\ (px ≫= quantBytes) !!! S (4 * i) = Z.land (c_G c) 0xF0
  /\ (px ≫= quantBytes) !!! S (S (4 * i)) = Z.land (c_B c) 0xF0
  /\ (px ≫= quantBytes) !!! S (S (S (4 * i))) = Z.land (c_A c) 0xF0.
Proof.
  intros Hc.
  assert (Hj : forall j, (j < 4)%nat ->
            (px ≫= quantBytes) !! (i * 4 + j)%nat = quantBytes c !! j).
  { intros j Hj. rewrite (lookup_bind_chunks _ 4%nat) by done. by rewrite Hc. }
  repeat split; apply list_lookup_total_correct.
  - replace (4 * i)%nat with (i * 4 + 0)%nat by lia. by rewrite Hj by lia.
  - replace (S (4 * i)) with (i * 4 + 1)%nat by lia. by rewrite Hj by lia.
  - replace (S (S (4 * i))) with (i * 4 + 2)%nat by lia. by rewrite Hj by lia.
  - replace (S (S (S (4 * i)))) with (i * 4 + 3)%nat by lia. by rewrite Hj by lia.
Qed.

(** C8: for an image of positive dimensions whose channels are bytes, the
    ARGB4444 encoder succeeds, the decoder succeeds on its output, every
    pixel of the decoded image is the input pixel with the low four bits of
    each channel cleared, and the 16-bit little-endian word stored for a
    pixel is (A>>4)<<12 | (B>>4)<<8 | (G>>4)<<4 | (R>>4). *)
Theorem C8_argb4444_roundtrip `{Collaborators} (img : Image) :
  0 < Dx img -> 0 < Dy img -> validImage img ->
  exists raw out,
    encodePixelFormat PaxARGB4 img = OK raw
    /\ decodePixelFormat PaxARGB4 raw (Dx img) (Dy img)
         (image_NewNRGBA (Dx img) (Dy img)) = OK out
    /\ forall x y, 0 <= x < Dx img -> 0 <= y < Dy img ->
         NRGBA_At out x y = quantize4 (At img x y)
         /\ LittleEndian_Uint16 (drop (Z.to_nat (2 * (y * Dx img + x))) raw)
            = Z.lor (Z.lor (Z.lor (Z.shiftl (Z.shiftr (c_A (At img x y)) 4) 12)
                                  (Z.shiftl (Z.shiftr (c_B (At img x y)) 4) 8))
                           (Z.shiftl (Z.shiftr (c_G (At img x y)) 4) 4))
                    (Z.shiftr (c_R (At img x y)) 4).
Proof.
  intros Hw Hh Hv.
  pose proof (validImage_pixels img Hv) as Hpx.
  exists (pixels img ≫= wordBytes4444),
         (mkNRGBAImage (pixels img ≫= quantBytes) (4 * Dx img) (Dx img) (Dy img)).
  split; [by apply encodePixelFormat_ARGB4|].
  split.
  { apply decodePixelFormat_ARGB4; try lia; [done|].
    apply length_pixels; lia. }
  intros x y Hx Hy.
  pose proof (lookup_pixels img x y Hx Hy) as Hc.
  split.
  - unfold NRGBA_At. simpl.
    destruct (Z.leb_spec 0 x), (Z.ltb_spec x (Dx img)), (Z.leb_spec 0 y),
      (Z.ltb_spec y (Dy img)); try lia. simpl.
    replace (Z.to_nat (y * (4 * Dx img) + x * 4))
      with (4 * Z.to_nat (y * Dx img + x))%nat by lia.
    destruct (lookup_quantBytes _ _ _ Hc) as (-> & -> & -> & ->).
    reflexivity.
  - apply take_drop_middle in Hc.
    rewrite <- Hc at 1. rewrite bind_app, bind_cons.
    rewrite drop_app_length'.
    + apply Uint16_wordBytes4444.
      eapply Forall_forall in Hpx; [exact Hpx|].
      rewrite <- Hc. apply elem_of_app. right. apply list_elem_of_here.
    + rewrite (length_bind_chunks _ 2%nat) by done.
      rewrite length_take, length_pixels by lia. nia.
Qed.

Lemma C8_argb4444_roundtrip_witness :
  exists raw out,
    encodePixelFormat (H := standIns) PaxARGB4 (onePixel (mkNRGBA 0x12 0x34 0x56 0x78))
      = OK raw
    /\ decodePixelFormat PaxARGB4 raw 1 1 (image_NewNRGBA 1 1) = OK out
    /\ forall x y, 0 <= x < 1 -> 0 <= y < 1 ->
         NRGBA_At out x y = quantize4 (mkNRGBA 0x12 0x34 0x56 0x78)
         /\ LittleEndian_Uint16 (drop (Z.to_nat (2 * (y * 1 + x))) raw)
            = Z.lor (Z.lor (Z.lor (Z.shiftl (Z.shiftr 0x78 4) 12)
                                  (Z.shiftl (Z.shiftr 0x56 4) 8))
                           (Z.shiftl (Z.shiftr 0x34 4) 4))
                    (Z.shiftr 0x12 4).
Proof.
  apply (C8_argb4444_roundtrip (H := standIns) (onePixel (mkNRGBA 0x12 0x34 0x56 0x78))).
  - reflexivity.
  - reflexivity.
  - intros x y _ _. unfold validColor. simpl. lia.
Defined.

(** The pixel (0x12, 0x34, 0x56, 0x78) is stored as the word 0x7531 and read
    back as (0x10, 0x30, 0x50, 0x70). *)
Example argb4444_one_pixel :
  encodePixelFormat (H := standIns) PaxARGB4 (onePixel (mkNRGBA 0x12 0x34 0x56 0x78))
    = OK [0x31; 0x75]
  /\ decodePixelFormat PaxARGB4 [0x31; 0x75] 1 1 (image_NewNRGBA 1 1)
     = OK (mkNRGBAImage [0x10; 0x30; 0x50; 0x70] 4 1 1).
Proof. split; reflexivity. Qed.

(** ** The writer: what an encode puts in the file *)

Lemma writeTag_bytes (name : string) (payload out : list Z) :
  writeTag name payload out = OK (out ++ tagBytes name payload).
Proof.
  unfold writeTag, Write, tagBytes, mbind, result_bind.
  by rewrite <- !app_assoc.
Qed.

Lemma writeMip_bytes (m : mipBlock) (out out' : list Z) :
  writeMip m out = OK out' -> out' = out ++ mipBytes m /\ mipFits m.
Proof.
  unfold writeMip, mipBytes, mipFits, Write, mbind, result_bind.
  destruct (Z.ltb_spec (mb_w m) 0), (Z.ltb_spec (mb_h m) 0); simpl; try done.
  destruct (mb_useLZ m).
  - destruct (Z.ltb_spec 0x7fff (mb_w m)); [done|].
    destruct (Z.ltb_spec 0xffff (mb_h m)); [done|].
    intros [= <-]. split; [|lia]. by rewrite <- !app_assoc.
  - destruct (Z.ltb_spec 0xffff (mb_w m)); [done|].
    destruct (Z.ltb_spec 0xffff (mb_h m)); [done|].
    intros [= <-]. split; [|lia]. by rewrite <- !app_assoc.
Qed.

Lemma writeMips_bytes (mips : list mipBlock) (out out' : list Z) :
  forM mips writeMip out = OK out' ->
  out' = out ++ mjoin (mipBytes <$> mips) /\ Forall mipFits mips.
Proof.
  revert out. induction mips as [|m mips IH]; intros out; simpl.
  - intros [= <-]. by rewrite app_nil_r.
  - unfold mbind, result_bind.
    destruct (writeMip m out) as [out1|e] eqn:E; [|done].
    apply writeMip_bytes in E as [-> Hfit].
    intros Hrest. apply IH in Hrest as [-> Hfits].
    split; [by rewrite <- app_assoc | by constructor].
Qed.

(** The file an encode returns: magic, tags, sentinel, blocks, padding. *)
Lemma writeFile_layout (paxType : PaxType) (cgva cxam : list Z)
    (writeGALF : bool) (galfValue : Z) (writeZIWS : bool) (ziwsTag : byte4)
    (mips : list mipBlock) (file : list Z) :
  writeFile paxType cgva cxam writeGALF galfValue writeZIWS ziwsTag mips = OK file ->
  file = PaxType_Bytes paxType
         ++ tagsBytes (fileTags cgva cxam writeGALF galfValue writeZIWS ziwsTag
                         (sffoFill mips 0 (baseOffset writeGALF writeZIWS)
                            (replicate 64 0)))
         ++ ([0; 0] ++ mjoin (mipBytes <$> mips) ++ [0; 0; 0; 0; 0; 0])
  /\ Forall mipFits mips.
Proof.
  intros Hw.
  set (sffo := sffoFill mips 0 (baseOffset writeGALF writeZIWS) (replicate 64 0)) in *.
  unfold writeFile in Hw. cbv zeta in Hw. fold sffo in Hw.
  unfold Write, mbind, result_bind in Hw. rewrite !writeTag_bytes in Hw.
  unfold fileTags. rewrite !tagsBytes_app.
  destruct writeGALF, writeZIWS; rewrite ?writeTag_bytes in Hw;
    (destruct (forM mips writeMip _) as [out|e] eqn:E; [|done]);
    apply writeMips_bytes in E as [-> Hfits]; injection Hw as <-;
    (split; [|done]); rewrite !tagsBytes_cons;
    change (tagsBytes []) with (@nil Z); cbn [fst snd];
    rewrite ?app_nil_r, ?app_nil_l, <- ?app_assoc; reflexivity.
Qed.

(** ** The SFFO table *)

Lemma PutUint32_zeros (pre rest : list Z) (v : Z) :
  PutUint32 (pre ++ 0 :: 0 :: 0 :: 0 :: rest) (length pre) v
  = pre ++ le_uint32_bytes v ++ rest.
Proof.
  unfold PutUint32.
  replace (length pre) with (length pre + 0)%nat at 4 by lia.
  rewrite !insert_app_r. reflexivity.
Qed.

Lemma length_mipOffsets (off : Z) (mips : list mipBlock) :
  length (mipOffsets off mips) = length mips.
Proof.
  revert off. induction mips as [|m mips IH]; intros off; simpl; [done|].
  by rewrite IH.
Qed.


Lemma sffoFill_spec (mips : list mipBlock) :
  forall (i k : nat) (off : Z) (pre : list Z),
  length pre = (i * 4)%nat -> (i + k = 16)%nat ->
  sffoFill mips i off (pre ++ replicate (4 * k) 0)
  = pre ++ (take k (mipOffsets off mips) ≫= le32)
        ++ replicate (4 * (k - length mips)) 0.
Proof.
  induction mips as [|m mips IH]; intros i k off pre Hpre Hik.
  - simpl. rewrite take_nil. simpl. by rewrite Nat.sub_0_r.
  - cbn [sffoFill mipOffsets].
    destruct (Nat.ltb_spec i 16) as [Hlt|Hge].
    + destruct k as [|k]; [lia|].
      replace (4 * S k)%nat with (S (S (S (S (4 * k))))) by lia.
      cbn [replicate]. rewrite <- Hpre, PutUint32_zeros.
      rewrite app_assoc.
      rewrite (IH (S i) k); [|rewrite length_app; simpl; lia | lia].
      cbn [take]. rewrite bind_cons, <- !app_assoc.
      replace (S k - length (m :: mips))%nat with (k - length mips)%nat
        by (simpl; lia).
      replace (off + (2 + 2 + 3 + Z.of_nat (length (mb_data m))))
        with (off + 7 + Z.of_nat (length (mb_data m))) by lia.
      reflexivity.
    + assert (k = 0)%nat as -> by lia. simpl. done.
Qed.

Lemma sffoWords_le32 (o : Z) (rest : list Z) :
  sffoWords (le32 o ++ rest) = uint32 o :: sffoWords rest.
Proof.
  transitivity (LittleEndian_Uint32 (le_uint32_bytes (uint32 o)) :: sffoWords rest);
    [reflexivity|].
  f_equal. apply Uint32_le_bytes. unfold uint32.
  apply Z.mod_pos_bound. lia.
Qed.

Lemma sffoWords_zeros (k : nat) :
  sffoWords (replicate (4 * k) 0) = replicate k 0.
Proof.
  induction k as [|k IH]; [done|].
  replace (4 * S k)%nat with (S (S (S (S (4 * k))))) by lia.
  cbn [replicate sffoWords]. by rewrite IH.
Qed.

Lemma sffoWords_offsets (offs : list Z) (rest : list Z) :
  sffoWords ((offs ≫= le32) ++ rest) = (uint32 <$> offs) ++ sffoWords rest.
Proof.
  induction offs as [|o offs IH]; [done|].
  rewrite bind_cons, <- app_assoc, sffoWords_le32, IH. done.
Qed.

(** The words of the table an encode writes: the offsets of the first
    sixteen blocks, truncated to 32 bits, then zeros. *)
Lemma sffoFill_words (mips : list mipBlock) (base : Z) :
  sffoWords (sffoFill mips 0 base (replicate 64 0))
  = (uint32 <$> take 16 (mipOffsets base mips))
    ++ replicate (16 - length mips) 0.
Proof.
  pose proof (sffoFill_spec mips 0 16 base [] eq_refl eq_refl) as Hs.
  cbn [app] in Hs. change (4 * 16)%nat with 64%nat in Hs. rewrite Hs.
  by rewrite sffoWords_offsets, sffoWords_zeros.
Qed.

Lemma length_sffoFill (mips : list mipBlock) (base : Z) :
  length (sffoFill mips 0 base (replicate 64 0)) = 64%nat.
Proof.
  pose proof (sffoFill_spec mips 0 16 base [] eq_refl eq_refl) as Hs.
  cbn [app] in Hs. change (4 * 16)%nat with 64%nat in Hs. rewrite Hs.
  rewrite length_app, (length_bind_chunks _ 4%nat) by done.
  rewrite length_take, length_mipOffsets, length_replicate. lia.
Qed.

(** ** Reading back what an encode wrote *)

Lemma length_PaxType_Bytes (t : PaxType) : length (PaxType_Bytes t) = 2%nat.
Proof. by destruct t. Qed.

Lemma baseOffset_value (wg wz : bool) :
  baseOffset wg wz = 112 + (if wg then 16 else 0) + (if wz then 16 else 0).
Proof. by destruct wg, wz. Qed.

Lemma fileTags_wellFormed (cgva cxam : list Z) (wg : bool) (gv : Z) (wz : bool)
    (zt : byte4) (sffo : list Z) :
  length cgva = 4%nat -> length cxam = 4%nat -> length sffo = 64%nat ->
  Forall wellFormedTag (fileTags cgva cxam wg gv wz zt sffo)
  /\ Z.of_nat (length (tagsBytes (fileTags cgva cxam wg gv wz zt sffo)))
     = 108 + (if wg then 16 else 0) + (if wz then 16 else 0).
Proof.
  intros Hc Hx Hs. destruct zt as [[[z0 z1] z2] z3]. unfold fileTags. split.
  - destruct wg, wz; cbn [app]; repeat apply Forall_cons_2; try apply Forall_nil_2;
      (split; cbn [fst snd]; [reflexivity |
         cbn [length byte4_slice]; rewrite ?Hc, ?Hx, ?Hs; lia]).
  - destruct wg, wz; cbn [app]; rewrite !tagsBytes_cons;
      change (tagsBytes []) with (@nil Z);
      rewrite !length_app, !length_tagBytes by done;
      cbn [fst snd length byte4_slice]; rewrite ?Hc, ?Hx, ?Hs; lia.
Qed.

Lemma fileTags_table (cgva cxam : list Z) (wg : bool) (gv : Z) (wz : bool)
    (zt : byte4) (sffo : list Z) :
  let tags := tagTable (fileTags cgva cxam wg gv wz zt sffo) in
  tags !! "SFFO"%string = Some sffo
  /\ tags !! "GALF"%string = (if wg then Some [gv; 0; 0; 0] else None)
  /\ tags !! "ZIWS"%string = (if wz then Some (byte4_slice zt) else None)
  /\ tags !! "CGVA"%string = Some cgva
  /\ tags !! "CXAM"%string = Some cxam.
Proof.
  unfold fileTags, tagTable. destruct wg, wz; cbn [app foldl fst snd];
    repeat split; by simplify_map_eq.
Qed.

(** The file of a successful [writeFile]: its tag section reads back as the
    table of the tags written, and the first mip block starts at the base
    offset. *)
Lemma writeFile_read (paxType : PaxType) (cgva cxam : list Z)
    (wg : bool) (gv : Z) (wz : bool) (zt : byte4)
    (mips : list mipBlock) (file : list Z) :
  length cgva = 4%nat -> length cxam = 4%nat ->
  writeFile paxType cgva cxam wg gv wz zt mips = OK file ->
  let sffo := sffoFill mips 0 (baseOffset wg wz) (replicate 64 0) in
  let tags := tagTable (fileTags cgva cxam wg gv wz zt sffo) in
  (exists r, readGGATTags (mkReader file 2) = OK (tags, r))
  /\ drop (Z.to_nat (baseOffset wg wz)) file
     = mjoin (mipBytes <$> mips) ++ [0; 0; 0; 0; 0; 0]
  /\ Forall mipFits mips.
Proof.
  intros Hc Hx Hw sffo tags.
  apply writeFile_layout in Hw as [Hfile Hfits]. fold sffo in Hfile.
  destruct (fileTags_wellFormed cgva cxam wg gv wz zt sffo Hc Hx
              (length_sffoFill _ _)) as [Hwf Hlen].
  set (ts := fileTags cgva cxam wg gv wz zt sffo) in *.
  set (blocks := mjoin (mipBytes <$> mips)) in *.
  split; [|split; [|done]].
  - eexists. apply (readGGATTags_tags ts file 2 ([0; 0] ++ blocks ++ [0; 0; 0; 0; 0; 0]) Hwf).
    + rewrite Hfile. apply drop_app_length'. by rewrite length_PaxType_Bytes.
    + rewrite !length_app. simpl. lia.
    + destruct blocks as [|b0 [|b1 bl]]; simpl; discriminate.
  - rewrite Hfile.
    transitivity (drop (Z.to_nat (baseOffset wg wz))
                    ((PaxType_Bytes paxType ++ tagsBytes ts ++ [0; 0])
                     ++ blocks ++ [0; 0; 0; 0; 0; 0])).
    { f_equal. by rewrite <- !app_assoc. }
    apply drop_app_length'.
    rewrite !length_app, length_PaxType_Bytes, baseOffset_value.
    cbn [length]. destruct wg, wz; lia.
Qed.

(** A successful encode is a successful [writeFile] of the blocks that
    [encodeMips] built from the kept mip images. *)
Lemma EncodeWithOptions_inv `{Collaborators} (img : Image)
    (opts : option EncodeOptions) (file : list Z) :
  EncodeWithOptions img opts = OK file ->
  exists paxType cgva cxam wg gv zt bo mipImages mips,
    writeFile paxType cgva cxam wg gv
      (match opts with
       | Some o => WriteNohqSwizzleTag o || WriteSwizzleTag o
       | None => false
       end) zt mips = OK file
    /\ length cgva = 4%nat /\ length cxam = 4%nat
    /\ encodeMips opts paxType bo mipImages [] = OK mips
    /\ (mipImages = [img]
        \/ exists mx mn s f,
             mipImages = keepMips mx mn (generateMipmapsWithFilter img s f) [])
    /\ (forall o, opts = Some o -> WriteSwizzleTag o = true -> zt = SwizzleTag o).
Proof.
  unfold EncodeWithOptions. cbv zeta. intros He.
  match type of He with
  | (mbind _ (encodeMips ?o ?t ?b ?imgs [])) = _ =>
      destruct (encodeMips o t b imgs []) as [mips|e] eqn:Em; [|done];
      exists t; do 5 eexists; exists b, imgs, mips
  end.
  unfold mbind, result_bind in He.
  split; [exact He|]. split; [done|]. split; [done|]. split; [done|]. split.
  - destruct opts as [o|]; [destruct (GenerateMipmaps o) as [[]|]|]; simpl;
      (by left) || (right; by do 4 eexists).
  - intros o -> Hs. by rewrite Hs.
Qed.

(** ** Offsets of the mip blocks *)

Lemma mipOffsets_head (off : Z) (m : mipBlock) (mips : list mipBlock) :
  mipOffsets off (m :: mips) !! 0%nat = Some off.
Proof. reflexivity. Qed.

Lemma mipOffsets_succ (mips : list mipBlock) :
  forall (i : nat) (off a : Z) (m : mipBlock),
  mips !! i = Some m ->
  is_Some (mips !! S i) ->
  mipOffsets off mips !! i = Some a ->
  mipOffsets off mips !! S i = Some (a + 7 + Z.of_nat (length (mb_data m))).
Proof.
  induction mips as [|m0 mips IH]; intros i off a m Hm Hs Ha; [done|].
  destruct i as [|i].
  - simpl in Hm, Ha. injection Hm as ->. injection Ha as ->.
    destruct mips as [|m1 mips]; [by destruct Hs|]. reflexivity.
  - simpl in *. by apply (IH i).
Qed.

Lemma sffoFill_lookup (mips : list mipBlock) (base : Z) (i : nat) (o : Z) :
  (i < 16)%nat ->
  mipOffsets base mips !! i = Some o ->
  sffoWords (sffoFill mips 0 base (replicate 64 0)) !! i = Some (uint32 o).
Proof.
  intros Hi Ho. rewrite sffoFill_words.
  assert (Hlen : (i < length (mipOffsets base mips))%nat)
    by (by apply lookup_lt_Some in Ho).
  rewrite lookup_app_l by (rewrite length_fmap, length_take; lia).
  by rewrite list_lookup_fmap, lookup_take_lt, Ho by lia.
Qed.

Lemma sffoFill_lookup_zero (mips : list mipBlock) (base : Z) (i : nat) :
  (length mips <= i < 16)%nat ->
  sffoWords (sffoFill mips 0 base (replicate 64 0)) !! i = Some 0.
Proof.
  intros Hi. rewrite sffoFill_words.
  rewrite lookup_app_r
    by (rewrite length_fmap, length_take, length_mipOffsets; lia).
  apply lookup_replicate_2.
  rewrite length_fmap, length_take, length_mipOffsets. lia.
Qed.

Lemma uint32_add_l (a b : Z) : uint32 (uint32 a + b) = uint32 (a + b).
Proof. unfold uint32. apply Zplus_mod_idemp_l. Qed.

(** C1: in the file of a successful encode the SFFO tag reads
    back, and with base = 2 (magic) + 16 (CGVA) + 16 (CXAM) + 16 for each of
    GALF and ZIWS that the file holds + 76 (the SFFO tag: 12 bytes of tag
    header and 64 of payload) + 2 (sentinel), that is 112 when neither
    optional tag is written, the first mip block starts at base, the first
    SFFO word is base when a block was written, each further word of a
    written block is the previous word plus 7 plus the payload length of the
    previous block (as a 32-bit value), and the words of unused slots are
    zero. *)
Theorem C1_sffo_offsets `{Collaborators} (img : Image)
    (opts : option EncodeOptions) (file : list Z) :
  EncodeWithOptions img opts = OK file ->
  exists tags r sffo mips,
    readGGATTags (mkReader file 2) = OK (tags, r)
    /\ tags !! "SFFO"%string = Some sffo
    /\ let base := 112 + (if tags !! "GALF"%string is Some _ then 16 else 0)
                       + (if tags !! "ZIWS"%string is Some _ then 16 else 0) in
       drop (Z.to_nat base) file = mjoin (mipBytes <$> mips) ++ [0; 0; 0; 0; 0; 0]
       /\ (mips <> [] -> sffoWords sffo !! 0%nat = Some base)
       /\ (forall i a m, (S i < 16)%nat ->
             mips !! i = Some m -> is_Some (mips !! S i) ->
             sffoWords sffo !! i = Some a ->
             sffoWords sffo !! S i
             = Some (uint32 (a + 7 + Z.of_nat (length (mb_data m)))))
       /\ (forall i, (length mips <= i < 16)%nat -> sffoWords sffo !! i = Some 0).
Proof.
  intros He.
  apply EncodeWithOptions_inv in He
    as (paxType & cgva & cxam & wg & gv & zt & bo & mipImages & mips
        & Hw & Hc & Hx & _ & _ & _).
  set (wz := match opts with
             | Some o => WriteNohqSwizzleTag o || WriteSwizzleTag o
             | None => false
             end) in *.
  destruct (writeFile_read _ _ _ _ _ _ _ _ _ Hc Hx Hw) as ([r Hr] & Hdrop & _).
  set (sffo := sffoFill mips 0 (baseOffset wg wz) (replicate 64 0)) in *.
  destruct (fileTags_table cgva cxam wg gv wz zt sffo) as (Hs & Hg & Hz & _ & _).
  exists (tagTable (fileTags cgva cxam wg gv wz zt sffo)), r, sffo, mips.
  split; [done|]. split; [done|]. cbv zeta.
  assert (Hbase : 112 + (if tagTable (fileTags cgva cxam wg gv wz zt sffo)
                              !! "GALF"%string is Some _ then 16 else 0)
                      + (if tagTable (fileTags cgva cxam wg gv wz zt sffo)
                              !! "ZIWS"%string is Some _ then 16 else 0)
                  = baseOffset wg wz).
  { rewrite Hg, Hz, baseOffset_value. by destruct wg, wz. }
  rewrite Hbase. clear Hbase Hg Hz Hs.
  assert (Hb32 : uint32 (baseOffset wg wz) = baseOffset wg wz)
    by (by destruct wg, wz).
  split; [done|]. split; [|split].
  - intros Hne. destruct mips as [|m mips]; [done|].
    rewrite <- Hb32. by apply sffoFill_lookup; [lia|].
  - intros i a m Hi Hm Hsucc Ha.
    assert (Hoff : is_Some (mipOffsets (baseOffset wg wz) mips !! i)).
    { apply lookup_lt_is_Some. rewrite length_mipOffsets.
      by apply lookup_lt_Some in Hm. }
    destruct Hoff as [o Ho].
    unfold sffo in Ha. rewrite (sffoFill_lookup mips _ i o) in Ha by (lia || done).
    injection Ha as <-.
    rewrite <- Z.add_assoc, uint32_add_l, Z.add_assoc.
    apply sffoFill_lookup; [lia|]. by apply mipOffsets_succ.
  - intros i Hi. by apply sffoFill_lookup_zero.
Qed.

Lemma C1_sffo_offsets_witness :
  EncodeWithOptions (H := standIns) gray8x8 None = OK gray8x8File
  /\ exists tags r sffo mips,
       readGGATTags (mkReader gray8x8File 2) = OK (tags, r)
       /\ tags !! "SFFO"%string = Some sffo
       /\ let base := 112 + (if tags !! "GALF"%string is Some _ then 16 else 0)
                          + (if tags !! "ZIWS"%string is Some _ then 16 else 0) in
          drop (Z.to_nat base) gray8x8File
          = mjoin (mipBytes <$> mips) ++ [0; 0; 0; 0; 0; 0]
          /\ (mips <> [] -> sffoWords sffo !! 0%nat = Some base)
          /\ (forall i a m, (S i < 16)%nat -> mips !! i = Some m ->
                is_Some (mips !! S i) ->
                sffoWords sffo !! i = Some a ->
                sffoWords sffo !! S i
                = Some (uint32 (a + 7 + Z.of_nat (length (mb_data m)))))
          /\ (forall i, (length mips <= i < 16)%nat -> sffoWords sffo !! i = Some 0).
Proof.
  split; [vm_compute; reflexivity|].
  apply (C1_sffo_offsets (H := standIns) gray8x8 None gray8x8File).
  vm_compute; reflexivity.
Defined.

(** C1, the figure in parentheses: the default encode of the 8x8 gray image
    emits neither GALF nor ZIWS, its first mip block (8x8, 32 payload bytes)
    starts at byte 112 of the file, and the first SFFO entry is 112, which
    is not 116. *)
Lemma C1_first_offset_112_counterexample :
  EncodeWithOptions (H := standIns) gray8x8 None = OK gray8x8File
  /\ (exists tags r sffo,
        readGGATTags (mkReader gray8x8File 2) = OK (tags, r)
        /\ tags !! "GALF"%string = None
        /\ tags !! "ZIWS"%string = None
        /\ tags !! "SFFO"%string = Some sffo
        /\ head (filter (fun v => v ≠ 0) (sffoWords sffo)) = Some 112)
  /\ take 7 (drop 112 gray8x8File) = [8; 0; 8; 0; 32; 0; 0]
  /\ 112 <> 116.
Proof.
  split; [vm_compute; reflexivity|]. split; [|split; [vm_compute; reflexivity|lia]].
  destruct (readGGATTags (mkReader gray8x8File 2)) as [[tags r]|e] eqn:Hr;
    [|vm_compute in Hr; discriminate].
  exists tags, r.
  vm_compute in Hr. injection Hr as <- <-.
  eexists. repeat split; vm_compute; reflexivity.
Qed.

(** ** The number of mip blocks *)




Section MipCount.
Context `{Collaborators}.





End MipCount.

Lemma length_mipBytes (m : mipBlock) :
  length (mipBytes m) = (7 + length (mb_data m))%nat.
Proof. unfold mipBytes. by rewrite !length_app. Qed.

Lemma mipOffsets_bounds (mips : list mipBlock) :
  forall off o, o ∈ mipOffsets off mips ->
  off <= o <= off + Z.of_nat (length (mjoin (mipBytes <$> mips))).
Proof.
  induction mips as [|m mips IH]; intros off o.
  - by intros ?%elem_of_nil.
  - change (mjoin (mipBytes <$> m :: mips))
      with (mipBytes m ++ mjoin (mipBytes <$> mips)).
    rewrite length_app, length_mipBytes. cbn [mipOffsets].
    intros [->|Ho]%elem_of_cons; [lia|].
    apply IH in Ho. lia.
Qed.





(** ** The swizzle tag, from the hint to the decoded image *)







(** * Further properties *)

(** ** The magic of a file *)

(** The two bytes of a magic and the format they stand for: the parser
    accepts exactly the magics [Bytes] writes for the nine formats, and the
    zero value of PaxType is never the result. *)
Theorem PaxType_magic_roundtrip (b0 b1 : Z) (t : PaxType) :
  0 <= b0 < 256 -> 0 <= b1 < 256 ->
  PaxTypeFromBytes [b0; b1] = Some t
  <-> t <> PaxUnset /\ PaxType_Bytes t = [b0; b1].
Proof.
  intros H0 H1. unfold PaxTypeFromBytes. cbv zeta.
  rewrite (lor_shiftl_add b0 b1 8) by (change (2 ^ 8) with 256; lia).
  change (2 ^ 8) with 256.
  split.
  - repeat match goal with
           | |- (if ?c then _ else _) = _ -> _ =>
               let E := fresh "E" in
               destruct c eqn:E;
               [apply Z.eqb_eq in E;
                intros [= <-]; split; [done|]; simpl; f_equal; [|f_equal]; lia|]
           end.
    done.
  - intros [Hne Hb]. destruct t; simpl in Hb; try done;
      injection Hb as <- <-; reflexivity.
Qed.

Lemma PaxType_magic_roundtrip_witness :
  PaxTypeFromBytes [5; 255] = Some PaxDXT5
  <-> PaxDXT5 <> PaxUnset /\ PaxType_Bytes PaxDXT5 = [5; 255].
Proof. apply (PaxType_magic_roundtrip 5 255 PaxDXT5); lia. Defined.

Lemma PaxTypeFromBytes_take (stream : list Z) :
  PaxTypeFromBytes (take 2 stream) = PaxTypeFromBytes stream.
Proof. by destruct stream as [|b0 [|b1 s]]. Qed.

Lemma readPaxType_None (stream : list Z) :
  PaxTypeFromBytes stream = None ->
  readPaxType (bytes_NewReader stream)
  = Err (match stream with
         | [] => io_EOF
         | [_] => io_ErrUnexpectedEOF
         | _ => ErrInvalidMagic
         end).
Proof.
  intros Hn. unfold readPaxType, bytes_NewReader, mbind, Rd_bind, io_ReadFull.
  cbn [r_pos r_data Nat.eqb]. rewrite drop_0.
  destruct stream as [|b0 [|b1 s]]; [done..|].
  cbn [length Nat.leb]. rewrite PaxTypeFromBytes_take, Hn. done.
Qed.

(** A stream whose first two bytes are not a known magic is refused by
    every decode entry point: with io.EOF when it is empty, with
    io.ErrUnexpectedEOF when it holds one byte, and with ErrInvalidMagic
    otherwise. *)
Theorem decode_refuses_unknown_magic `{Collaborators} (stream : list Z) :
  PaxTypeFromBytes stream = None ->
  let e := match stream with
           | [] => io_EOF
           | [_] => io_ErrUnexpectedEOF
           | _ => ErrInvalidMagic
           end in
  DecodePAA stream = Err e
  /\ DecodeMetadata stream = Err e
  /\ Decode stream = Err e.
Proof.
  intros Hn e. pose proof (readPaxType_None stream Hn) as Hr. fold e in Hr.
  assert (Hd : DecodePAA stream = Err e).
  { unfold DecodePAA, DecodePAA_reader, mbind, Rd_bind. by rewrite Hr. }
  split; [done|]. split.
  - unfold DecodeMetadata, DecodeMetadata_reader, mbind, Rd_bind. by rewrite Hr.
  - unfold Decode. by rewrite Hd.
Qed.

Lemma decode_refuses_unknown_magic_witness :
  DecodePAA (H := standIns) [80; 65; 65; 0] = Err ErrInvalidMagic
  /\ DecodeMetadata [80; 65; 65; 0] = Err ErrInvalidMagic
  /\ Decode (H := standIns) [80; 65; 65; 0] = Err ErrInvalidMagic.
Proof.
  apply (decode_refuses_unknown_magic (H := standIns) [80; 65; 65; 0]).
  reflexivity.
Defined.

(** ** The end of the tag section *)

Lemma readTagsLoop_short (ts : list (string * list Z)) :
  forall (acc : gmap string (list Z)) (data : list Z) (pos : nat)
         (rest : list Z) (fuel : nat),
  Forall wellFormedTag ts ->
  drop pos data = tagsBytes ts ++ rest ->
  (length rest < 4)%nat ->
  (length ts <= fuel)%nat ->
  readTagsLoop fuel acc (mkReader data pos) =
    Err (match rest with [] => io_EOF | _ :: _ => io_ErrUnexpectedEOF end).
Proof.
  induction ts as [|[name payload] ts IH];
    intros acc data pos rest fuel Hwf Hd Hrest Hfuel.
  - change (tagsBytes []) with (@nil Z) in Hd. cbn [app] in Hd.
    assert (E : io_ReadFull 4 (mkReader data pos) =
              Err (match rest with [] => io_EOF | _ :: _ => io_ErrUnexpectedEOF end)).
    { unfold io_ReadFull. cbn [r_pos r_data Nat.eqb]. rewrite Hd.
      destruct (Nat.leb_spec 4 (length rest)); [lia|]. by destruct rest. }
    destruct fuel; simpl; unfold mbind, Rd_bind; by rewrite E.
  - apply Forall_cons in Hwf as [[Hname Hsize] Hwf]. simpl in Hname, Hsize.
    destruct fuel as [|fuel]; [simpl in Hfuel; lia|].
    rewrite tagsBytes_cons in Hd. cbn [fst snd] in Hd. unfold tagBytes in Hd.
    rewrite <- !app_assoc in Hd.
    rewrite readTagsLoop_S.
    unfold binary_Read_uint32, mbind, Rd_bind, mret, Rd_ret.
    rewrite (io_ReadFull_ok data pos GGAT _ 4 Hd eq_refl).
    destruct (decide (GGAT = GGAT)) as [_|Hsg]; [|done].
    pose proof (drop_after data pos GGAT _ 4 Hd eq_refl) as Hd1.
    assert (Hnl : length (bytes_of_string name) = 4%nat)
      by (by rewrite length_bytes_of_string).
    rewrite (io_ReadFull_ok data (pos + 4) _ _ 4 Hd1 Hnl).
    pose proof (drop_after data (pos + 4) _ _ 4 Hd1 Hnl) as Hd2.
    rewrite (io_ReadFull_ok data (pos + 4 + 4) _ _ 4 Hd2 eq_refl).
    pose proof (drop_after data (pos + 4 + 4) _ _ 4 Hd2 eq_refl) as Hd3.
    assert (Hsz : uint32 (Z.of_nat (length payload)) = Z.of_nat (length payload)).
    { unfold uint32. apply Z.mod_small. lia. }
    rewrite Uint32_le_bytes by (rewrite Hsz; lia).
    rewrite Hsz, Nat2Z.id.
    rewrite (io_ReadFull_ok data (pos + 4 + 4 + 4) payload _ _ Hd3 eq_refl).
    pose proof (drop_after data (pos + 4 + 4 + 4) payload _ _ Hd3 eq_refl) as Hd4.
    apply (IH _ data _ rest fuel Hwf Hd4 Hrest). simpl in Hfuel. lia.
Qed.

(** The tag loop reads four bytes after the last tag before it stops: a
    stream that ends less than four bytes after its tags is refused, with
    io.EOF when nothing follows the tags and io.ErrUnexpectedEOF when one to
    three bytes do, by the tag reader and by every decode entry point. *)
Theorem tags_need_four_bytes_after `{Collaborators} (magic : list Z)
    (t : PaxType) (ts : list (string * list Z)) (rest : list Z) :
  length magic = 2%nat ->
  PaxTypeFromBytes magic = Some t ->
  Forall wellFormedTag ts ->
  (length rest < 4)%nat ->
  let stream := magic ++ tagsBytes ts ++ rest in
  let e := match rest with [] => io_EOF | _ :: _ => io_ErrUnexpectedEOF end in
  readGGATTags (mkReader stream 2) = Err e
  /\ DecodePAA stream = Err e
  /\ DecodeMetadata stream = Err e
  /\ Decode stream = Err e.
Proof.
  intros Hm Ht Hwf Hrest stream e.
  assert (Hd0 : drop 0 stream = magic ++ tagsBytes ts ++ rest) by done.
  assert (Hd2 : drop 2 stream = tagsBytes ts ++ rest).
  { by apply (drop_after stream 0 magic _ 2 Hd0). }
  assert (Htags : readGGATTags (mkReader stream 2) = Err e).
  { unfold readGGATTags. apply (readTagsLoop_short ts ∅ stream 2 rest); try done.
    unfold unread. simpl. rewrite Hd2, length_app.
    pose proof (length_tagsBytes_ge ts Hwf). lia. }
  pose proof (io_ReadFull_ok stream 0 magic _ 2 Hd0 Hm) as Hmagic.
  simpl in Hmagic.
  assert (Hd : DecodePAA stream = Err e).
  { unfold DecodePAA, DecodePAA_reader, readPaxType, bytes_NewReader,
      mbind, Rd_bind, mret, Rd_ret.
    rewrite Hmagic, Ht. by rewrite Htags. }
  split; [done|]. split; [done|]. split.
  - unfold DecodeMetadata, DecodeMetadata_reader, readPaxType, bytes_NewReader,
      mbind, Rd_bind, mret, Rd_ret.
    rewrite Hmagic, Ht. by rewrite Htags.
  - unfold Decode. by rewrite Hd.
Qed.

Lemma tags_need_four_bytes_after_witness :
  let stream := [1; 255] ++ tagsBytes [("SFFO"%string, replicate 64 0)] ++ [] in
  readGGATTags (mkReader stream 2) = Err io_EOF
  /\ DecodePAA (H := standIns) stream = Err io_EOF
  /\ DecodeMetadata stream = Err io_EOF
  /\ Decode (H := standIns) stream = Err io_EOF.
Proof.
  apply (tags_need_four_bytes_after (H := standIns) [1; 255] PaxDXT1
           [("SFFO"%string, replicate 64 0)] []).
  - reflexivity.
  - reflexivity.
  - repeat constructor.
  - simpl. lia.
Defined.

(** ** A file without an SFFO tag *)

Lemma tagTable_absent (ts : list (string * list Z)) (name : string) :
  name ∉ ts.*1 -> tagTable ts !! name = None.
Proof.
  unfold tagTable.
  assert (Hgen : forall (l : list (string * list Z)) (m : gmap string (list Z)),
            name ∉ l.*1 -> m !! name = None ->
            foldl (fun m t => <[t.1 := t.2]> m) m l !! name = None).
  { induction l as [|[n p] l IH]; intros m Hn Hm; cbn [foldl fst snd]; [done|].
    apply IH.
    - intros Hin. apply Hn. simpl. by right.
    - rewrite lookup_insert_ne; [done|]. intros ->. apply Hn. simpl. by left. }
  intros Hn. by apply Hgen.
Qed.

(** A file whose tag section holds no tag named SFFO is refused with
    ErrMissingSFFO itself (not a wrapped error) by DecodePAA, DecodeMetadata
    and Decode, whatever follows the tags. *)
Theorem missing_SFFO_is_refused `{Collaborators} (magic : list Z)
    (t : PaxType) (ts : list (string * list Z)) (rest : list Z) :
  length magic = 2%nat ->
  PaxTypeFromBytes magic = Some t ->
  Forall wellFormedTag ts ->
  (4 <= length rest)%nat ->
  take 4 rest <> GGAT ->
  "SFFO"%string ∉ ts.*1 ->
  let stream := magic ++ tagsBytes ts ++ rest in
  DecodePAA stream = Err ErrMissingSFFO
  /\ DecodeMetadata stream = Err ErrMissingSFFO
  /\ Decode stream = Err ErrMissingSFFO.
Proof.
  intros Hm Ht Hwf Hrest Hsig Hno stream.
  assert (Hd0 : drop 0 stream = magic ++ tagsBytes ts ++ rest) by done.
  assert (Hd2 : drop 2 stream = tagsBytes ts ++ rest).
  { by apply (drop_after stream 0 magic _ 2 Hd0). }
  pose proof (readGGATTags_tags ts stream 2 rest Hwf Hd2 Hrest Hsig) as Htags.
  pose proof (io_ReadFull_ok stream 0 magic _ 2 Hd0 Hm) as Hmagic.
  simpl in Hmagic.
  assert (Ho : sffoOffsets (tagTable ts) = Err ErrMissingSFFO).
  { unfold sffoOffsets. by rewrite (tagTable_absent ts _ Hno). }
  assert (Hd : DecodePAA stream = Err ErrMissingSFFO).
  { unfold DecodePAA, DecodePAA_reader, readPaxType, bytes_NewReader,
      mbind, Rd_bind, mret, Rd_ret.
    rewrite Hmagic, Ht, Htags. unfold lift. by rewrite Ho. }
  split; [done|]. split.
  - unfold DecodeMetadata, DecodeMetadata_reader, readPaxType, bytes_NewReader,
      mbind, Rd_bind, mret, Rd_ret.
    rewrite Hmagic, Ht, Htags. unfold lift. by rewrite Ho.
  - unfold Decode. by rewrite Hd.
Qed.

Lemma missing_SFFO_is_refused_witness :
  let stream := [1; 255] ++ tagsBytes [("CGVA"%string, [1; 2; 3; 4])]
                  ++ [0; 0; 0; 0; 0; 0] in
  DecodePAA (H := standIns) stream = Err ErrMissingSFFO
  /\ DecodeMetadata stream = Err ErrMissingSFFO
  /\ Decode (H := standIns) stream = Err ErrMissingSFFO.
Proof.
  apply (missing_SFFO_is_refused (H := standIns) [1; 255] PaxDXT1
           [("CGVA"%string, [1; 2; 3; 4])] [0; 0; 0; 0; 0; 0]).
  - reflexivity.
  - reflexivity.
  - repeat constructor.
  - simpl. lia.
  - vm_compute. discriminate.
  - intros Hin. apply list_elem_of_singleton in Hin. discriminate Hin.
Defined.

(** ** ARGB8888 *)

Lemma insert4_zeros (pre rest : list Z) (v0 v1 v2 v3 : Z) :
  <[(length pre + 3)%nat := v3]> (<[(length pre + 2)%nat := v2]>
    (<[(length pre + 1)%nat := v1]> (<[length pre := v0]>
       (pre ++ 0 :: 0 :: 0 :: 0 :: rest))))
  = pre ++ [v0; v1; v2; v3] ++ rest.
Proof.
  replace (length pre) with (length pre + 0)%nat at 4 by lia.
  by rewrite !insert_app_r.
Qed.

Lemma encode8888_fold `{Collaborators} (px : list NRGBA) (pre : list Z) :
  foldl (encodeStep PaxARGB8) (pre ++ replicate (4 * length px) 0, length pre) px
  = (pre ++ (px ≫= bgraBytes), (length pre + 4 * length px)%nat).
Proof.
  revert pre. induction px as [|c px IH]; intros pre.
  - simpl. by rewrite Nat.add_0_r.
  - replace (4 * length (c :: px))%nat with (S (S (S (S (4 * length px)))))
      by (simpl; lia).
    cbn [replicate foldl encodeStep].
    rewrite insert4_zeros.
    replace (length pre + 4)%nat with (length (pre ++ bgraBytes c))
      by (rewrite length_app; simpl; lia).
    change [c_B c; c_G c; c_R c; c_A c] with (bgraBytes c).
    rewrite app_assoc, IH. rewrite bind_cons, <- app_assoc.
    f_equal. rewrite length_app. simpl. lia.
Qed.

Lemma encodePixelFormat_ARGB8 `{Collaborators} (img : Image) :
  0 < Dx img -> 0 < Dy img ->
  encodePixelFormat PaxARGB8 img = OK (pixels img ≫= bgraBytes).
Proof.
  intros Hw Hh. unfold encodePixelFormat.
  destruct (Z.leb_spec (Dx img) 0), (Z.leb_spec (Dy img) 0); try lia. simpl.
  replace (Z.to_nat (Dx img * Dy img * 4)) with (4 * length (pixels img))%nat
    by (rewrite length_pixels by lia; lia).
  by rewrite (encode8888_fold (pixels img) []).
Qed.

Lemma Pix_get_chunk {A} (f : A -> list Z) (n : nat) (l : list A) (i j : nat)
    (a : A) (v : Z) (k : Z) :
  (forall a, length (f a) = n) ->
  l !! i = Some a -> f a !! j = Some v ->
  k = Z.of_nat (i * n + j) ->
  Pix_get (l ≫= f) k = OK v.
Proof.
  intros Hf Ha Hv ->. unfold Pix_get.
  destruct (Z.ltb_spec (Z.of_nat (i * n + j)) 0); [lia|].
  rewrite Nat2Z.id.
  assert (Hj : (j < n)%nat) by (rewrite <- (Hf a); by apply lookup_lt_Some in Hv).
  rewrite (lookup_bind_chunks f n l i j Hf Hj), Ha. simpl. by rewrite Hv.
Qed.

Lemma decodeARGB8_step (raw pre rest : list Z) (i : Z) (c : NRGBA)
    (px : list NRGBA) (n : nat) :
  raw = px ≫= bgraBytes -> px !! n = Some c -> i = Z.of_nat n ->
  Z.of_nat (length pre) = i * 4 ->
  decodeARGB8 raw i (pre ++ 0 :: 0 :: 0 :: 0 :: rest)
  = OK (pre ++ rgbaBytes c ++ rest).
Proof.
  intros -> Hc -> Hi. unfold decodeARGB8. cbv zeta. unfold mbind, result_bind.
  rewrite (Pix_get_chunk bgraBytes 4 px n 2 c (c_R c)) by (done || lia).
  rewrite Pix_set_here by lia.
  rewrite (Pix_get_chunk bgraBytes 4 px n 1 c (c_G c)) by (done || lia).
  rewrite Pix_set_here by (rewrite length_app; simpl; lia).
  rewrite (Pix_get_chunk bgraBytes 4 px n 0 c (c_B c)) by (done || lia).
  rewrite Pix_set_here by (rewrite !length_app; simpl; lia).
  rewrite (Pix_get_chunk bgraBytes 4 px n 3 c (c_A c)) by (done || lia).
  rewrite Pix_set_here by (rewrite !length_app; simpl; lia).
  by rewrite <- !app_assoc.
Qed.

Lemma decode8888_loop (suf pre : list NRGBA) (done : list Z) :
  length done = (4 * length pre)%nat ->
  forM (seqZ (Z.of_nat (length pre)) (Z.of_nat (length suf)))
       (decodeARGB8 ((pre ++ suf) ≫= bgraBytes))
       (done ++ replicate (4 * length suf) 0)
  = OK (done ++ (suf ≫= rgbaBytes)).
Proof.
  revert pre done. induction suf as [|c suf IH]; intros pre done Hd.
  - done.
  - rewrite seqZ_cons by (simpl; lia).
    replace (4 * length (c :: suf))%nat
      with (S (S (S (S (4 * length suf))))) by (simpl; lia).
    cbn [forM replicate]. unfold mbind at 1, result_bind.
    rewrite (decodeARGB8_step _ done _ _ c (pre ++ c :: suf) (length pre))
      by (done || lia || by rewrite list_lookup_middle).
    replace (Z.succ (Z.of_nat (length pre))) with (Z.of_nat (length (pre ++ [c])))
      by (rewrite length_app; simpl; lia).
    replace (Z.pred (Z.of_nat (length (c :: suf)))) with (Z.of_nat (length suf))
      by (simpl; lia).
    rewrite (cons_middle c pre suf), app_assoc.
    rewrite (app_assoc done), IH.
    + by rewrite bind_cons, <- app_assoc.
    + rewrite !length_app. simpl. lia.
Qed.

Lemma decodePixelFormat_ARGB8 (px : list NRGBA) (w h : Z) :
  length px = Z.to_nat (h * w) -> 0 <= w -> 0 <= h ->
  decodePixelFormat PaxARGB8 (px ≫= bgraBytes) w h (image_NewNRGBA w h)
  = OK (mkNRGBAImage (px ≫= rgbaBytes) (4 * w) w h).
Proof.
  intros Hl Hw Hh. unfold decodePixelFormat. cbv zeta.
  rewrite (length_bind_chunks _ 4%nat) by done.
  destruct (Z.ltb_spec (Z.of_nat (length px * 4)) (w * h * 4)); [nia|].
  unfold image_NewNRGBA. simpl.
  replace (Z.to_nat (4 * w * h)) with (4 * length px)%nat by lia.
  replace (w * h) with (Z.of_nat (length px)) by nia.
  pose proof (decode8888_loop px [] [] eq_refl) as Hloop.
  cbn [app length] in Hloop. change (Z.of_nat 0) with 0 in Hloop.
  rewrite Hloop. reflexivity.
Qed.

Lemma lookup_total_chunk {A} (f : A -> list Z) (n : nat) (l : list A)
    (i j : nat) (a : A) (v : Z) :
  (forall a, length (f a) = n) ->
  l !! i = Some a -> f a !! j = Some v ->
  (l ≫= f) !!! (n * i + j)%nat = v.
Proof.
  intros Hf Ha Hv. apply list_lookup_total_correct.
  assert (Hj : (j < n)%nat) by (rewrite <- (Hf a); by apply lookup_lt_Some in Hv).
  replace (n * i + j)%nat with (i * n + j)%nat by lia.
  rewrite (lookup_bind_chunks f n l i j Hf Hj), Ha. done.
Qed.

Lemma NRGBA_At_chunks (f : NRGBA -> list Z) (img : Image) (x y : Z)
    (r g b a : Z) :
  (forall c, length (f c) = 4%nat) ->
  0 <= x < Dx img -> 0 <= y < Dy img ->
  f (At img x y) = [r; g; b; a] ->
  NRGBA_At (mkNRGBAImage (pixels img ≫= f) (4 * Dx img) (Dx img) (Dy img)) x y
  = mkNRGBA r g b a.
Proof.
  intros Hf Hx Hy Hc.
  pose proof (lookup_pixels img x y Hx Hy) as Hp.
  unfold NRGBA_At. simpl.
  destruct (Z.leb_spec 0 x), (Z.ltb_spec x (Dx img)), (Z.leb_spec 0 y),
    (Z.ltb_spec y (Dy img)); try lia. simpl.
  replace (Z.to_nat (y * (4 * Dx img) + x * 4))
    with (4 * Z.to_nat (y * Dx img + x) + 0)%nat by lia.
  rewrite (lookup_total_chunk f 4 _ _ 0 _ r Hf Hp) by (by rewrite Hc).
  replace (S (4 * Z.to_nat (y * Dx img + x) + 0))
    with (4 * Z.to_nat (y * Dx img + x) + 1)%nat by lia.
  rewrite (lookup_total_chunk f 4 _ _ 1 _ g Hf Hp) by (by rewrite Hc).
  replace (S (4 * Z.to_nat (y * Dx img + x) + 1))
    with (4 * Z.to_nat (y * Dx img + x) + 2)%nat by lia.
  rewrite (lookup_total_chunk f 4 _ _ 2 _ b Hf Hp) by (by rewrite Hc).
  replace (S (4 * Z.to_nat (y * Dx img + x) + 2))
    with (4 * Z.to_nat (y * Dx img + x) + 3)%nat by lia.
  by rewrite (lookup_total_chunk f 4 _ _ 3 _ a Hf Hp) by (by rewrite Hc).
Qed.

(** ARGB8888 is lossless: for an image of positive dimensions the encoder
    stores four bytes a pixel in the order B, G, R, A (scan order), the
    decoder accepts them, and every pixel of the decoded image is the
    pixel of the input. *)
Theorem argb8888_roundtrip `{Collaborators} (img : Image) :
  0 < Dx img -> 0 < Dy img ->
  exists raw out,
    encodePixelFormat PaxARGB8 img = OK raw
    /\ decodePixelFormat PaxARGB8 raw (Dx img) (Dy img)
         (image_NewNRGBA (Dx img) (Dy img)) = OK out
    /\ forall x y, 0 <= x < Dx img -> 0 <= y < Dy img ->
         NRGBA_At out x y = At img x y
         /\ take 4 (drop (Z.to_nat (4 * (y * Dx img + x))) raw)
            = [c_B (At img x y); c_G (At img x y);
               c_R (At img x y); c_A (At img x y)].
Proof.
  intros Hw Hh.
  exists (pixels img ≫= bgraBytes),
         (mkNRGBAImage (pixels img ≫= rgbaBytes) (4 * Dx img) (Dx img) (Dy img)).
  split; [by apply encodePixelFormat_ARGB8|].
  split.
  { apply decodePixelFormat_ARGB8; try lia. apply length_pixels; lia. }
  intros x y Hx Hy. split.
  - rewrite (NRGBA_At_chunks rgbaBytes img x y _ _ _ _ (fun _ => eq_refl) Hx Hy eq_refl).
    by destruct (At img x y).
  - pose proof (lookup_pixels img x y Hx Hy) as Hc.
    apply take_drop_middle in Hc.
    rewrite <- Hc at 1. rewrite bind_app, bind_cons.
    rewrite drop_app_length'; [done|].
    rewrite (length_bind_chunks _ 4%nat) by done.
    rewrite length_take, length_pixels by lia. nia.
Qed.

Lemma argb8888_roundtrip_witness :
  exists raw out,
    encodePixelFormat (H := standIns) PaxARGB8 (onePixel (mkNRGBA 1 2 3 4)) = OK raw
    /\ decodePixelFormat PaxARGB8 raw 1 1 (image_NewNRGBA 1 1) = OK out
    /\ forall x y, 0 <= x < 1 -> 0 <= y < 1 ->
         NRGBA_At out x y = mkNRGBA 1 2 3 4
         /\ take 4 (drop (Z.to_nat (4 * (y * 1 + x))) raw) = [3; 2; 1; 4].
Proof.
  apply (argb8888_roundtrip (H := standIns) (onePixel (mkNRGBA 1 2 3 4))).
  - reflexivity.
  - reflexivity.
Defined.

(** ** ARGB1555 *)

Lemma fields1555OK_all :
  forallb (fun a => forallb (fun r => forallb (fun g =>
    forallb (fun b => fields1555OK a r g b) (seqZ 0 32)) (seqZ 0 32)) (seqZ 0 32))
    (seqZ 0 2) = true.
Proof. vm_compute. reflexivity. Qed.

Lemma fields1555OK_range (a r g b : Z) :
  0 <= a < 2 -> 0 <= r < 32 -> 0 <= g < 32 -> 0 <= b < 32 ->
  fields1555OK a r g b = true.
Proof.
  intros Ha Hr Hg Hb. pose proof fields1555OK_all as Hall.
  apply (forallb_seqZ _ 2 a) in Hall; [|done].
  apply (forallb_seqZ _ 32 r) in Hall; [|done].
  apply (forallb_seqZ _ 32 g) in Hall; [|done].
  by apply (forallb_seqZ _ 32 b) in Hall.
Qed.

Lemma high_five_bits (v : Z) :
  0 <= v < 256 -> 0 <= Z.shiftr v 3 < 32 /\ Z.shiftr v 3 * 8 = Z.land v 0xF8.
Proof.
  intros Hv.
  assert (Hall : forallb (fun v => (0 <=? Z.shiftr v 3) && (Z.shiftr v 3 <? 32)
                   && (Z.shiftr v 3 * 8 =? Z.land v 0xF8)) (seqZ 0 256) = true)
    by (vm_compute; reflexivity).
  apply (forallb_seqZ _ 256 v) in Hall; [|done].
  apply andb_true_iff in Hall as [Hall H3]. apply andb_true_iff in Hall as [H1 H2].
  apply Z.leb_le in H1. apply Z.ltb_lt in H2. apply Z.eqb_eq in H3. lia.
Qed.

Lemma packARGB1555_unpack (c : NRGBA) :
  validColor c ->
  0 <= packARGB1555 c < 65536
  /\ fieldBytes1555 (packARGB1555 c) = quant5Bytes c.
Proof.
  intros (HR & HG & HB & HA).
  destruct (high_five_bits _ HR) as [HR1 HR2], (high_five_bits _ HG) as [HG1 HG2],
    (high_five_bits _ HB) as [HB1 HB2].
  assert (Ha : 0 <= (if 128 <=? c_A c then 1 else 0) < 2)
    by (destruct (128 <=? c_A c); lia).
  pose proof (fields1555OK_range _ _ _ _ Ha HR1 HG1 HB1) as Hok.
  unfold fields1555OK in Hok. cbv zeta in Hok.
  apply andb_true_iff in Hok as [Hok H3]. apply andb_true_iff in Hok as [H1 H2].
  apply Z.leb_le in H1. apply Z.ltb_lt in H2. apply bool_decide_eq_true in H3.
  unfold packARGB1555. cbv zeta. split; [lia|].
  rewrite H3. unfold quant5Bytes, quantize5, rgbaBytes. simpl.
  rewrite HR2, HG2, HB2. by destruct (128 <=? c_A c).
Qed.

Lemma Uint16_wordBytes1555 (c : NRGBA) (rest : list Z) :
  validColor c ->
  LittleEndian_Uint16 (wordBytes1555 c ++ rest) = packARGB1555 c.
Proof.
  intros Hc. destruct (packARGB1555_unpack c Hc) as [Hp _].
  transitivity (LittleEndian_Uint16 (le_uint16_bytes (packARGB1555 c)));
    [reflexivity | by apply Uint16_le_bytes].
Qed.

Lemma encode1555_fold `{Collaborators} (px : list NRGBA) (pre : list Z) :
  foldl (encodeStep PaxARGBA5) (pre ++ replicate (2 * length px) 0, length pre) px
  = (pre ++ (px ≫= wordBytes1555), (length pre + 2 * length px)%nat).
Proof.
  revert pre. induction px as [|c px IH]; intros pre.
  - simpl. by rewrite Nat.add_0_r.
  - replace (2 * length (c :: px))%nat with (S (S (2 * length px))) by (simpl; lia).
    cbn [replicate foldl encodeStep].
    rewrite PutUint16_zeros.
    replace (length pre + 2)%nat with (length (pre ++ le_uint16_bytes (packARGB1555 c)))
      by (rewrite length_app; simpl; lia).
    rewrite app_assoc, IH. rewrite bind_cons, <- app_assoc.
    f_equal. rewrite length_app. simpl. lia.
Qed.

Lemma encodePixelFormat_ARGBA5 `{Collaborators} (img : Image) :
  0 < Dx img -> 0 < Dy img ->
  encodePixelFormat PaxARGBA5 img = OK (pixels img ≫= wordBytes1555).
Proof.
  intros Hw Hh. unfold encodePixelFormat.
  destruct (Z.leb_spec (Dx img) 0), (Z.leb_spec (Dy img) 0); try lia. simpl.
  replace (Z.to_nat (Dx img * Dy img * 2)) with (2 * length (pixels img))%nat
    by (rewrite length_pixels by lia; lia).
  by rewrite (encode1555_fold (pixels img) []).
Qed.

Lemma decodeARGB1555_step (raw pre rest : list Z) (i : Z) :
  Z.of_nat (length pre) = i * 4 ->
  decodeARGB1555 raw i (pre ++ 0 :: 0 :: 0 :: 0 :: rest)
  = OK (pre ++ fieldBytes1555 (LittleEndian_Uint16 (drop (Z.to_nat (i * 2)) raw))
            ++ rest).
Proof.
  intros Hi. unfold decodeARGB1555. cbv zeta. unfold mbind, result_bind.
  rewrite Pix_set_here by lia.
  rewrite Pix_set_here by (rewrite length_app; simpl; lia).
  rewrite Pix_set_here by (rewrite !length_app; simpl; lia).
  rewrite Pix_set_here by (rewrite !length_app; simpl; lia).
  by rewrite <- !app_assoc.
Qed.

Lemma decode1555_loop (suf pre : list NRGBA) (done : list Z) :
  Forall validColor suf ->
  length done = (4 * length pre)%nat ->
  forM (seqZ (Z.of_nat (length pre)) (Z.of_nat (length suf)))
       (decodeARGB1555 ((pre ++ suf) ≫= wordBytes1555))
       (done ++ replicate (4 * length suf) 0)
  = OK (done ++ (suf ≫= quant5Bytes)).
Proof.
  revert pre done. induction suf as [|c suf IH]; intros pre done Hv Hd.
  - done.
  - apply Forall_cons in Hv as [Hc Hv].
    rewrite seqZ_cons by (simpl; lia).
    replace (4 * length (c :: suf))%nat
      with (S (S (S (S (4 * length suf))))) by (simpl; lia).
    cbn [forM replicate]. unfold mbind at 1, result_bind.
    rewrite decodeARGB1555_step by lia.
    assert (Hdrop : drop (Z.to_nat (Z.of_nat (length pre) * 2))
                      ((pre ++ c :: suf) ≫= wordBytes1555)
                    = wordBytes1555 c ++ (suf ≫= wordBytes1555)).
    { rewrite bind_app, bind_cons. apply drop_app_length'.
      rewrite (length_bind_chunks _ 2%nat) by done. lia. }
    rewrite Hdrop, Uint16_wordBytes1555 by done.
    destruct (packARGB1555_unpack c Hc) as [_ ->].
    replace (Z.succ (Z.of_nat (length pre))) with (Z.of_nat (length (pre ++ [c])))
      by (rewrite length_app; simpl; lia).
    replace (Z.pred (Z.of_nat (length (c :: suf)))) with (Z.of_nat (length suf))
      by (simpl; lia).
    rewrite (cons_middle c pre suf), app_assoc.
    rewrite (app_assoc done), IH.
    + by rewrite bind_cons, <- app_assoc.
    + done.
    + rewrite !length_app. simpl. lia.
Qed.

Lemma decodePixelFormat_ARGBA5 (px : list NRGBA) (w h : Z) :
  Forall validColor px ->
  length px = Z.to_nat (h * w) -> 0 <= w -> 0 <= h ->
  decodePixelFormat PaxARGBA5 (px ≫= wordBytes1555) w h (image_NewNRGBA w h)
  = OK (mkNRGBAImage (px ≫= quant5Bytes) (4 * w) w h).
Proof.
  intros Hv Hl Hw Hh. unfold decodePixelFormat. cbv zeta.
  rewrite (length_bind_chunks _ 2%nat) by done.
  replace (Z.of_nat (length px * 2) / 2) with (Z.of_nat (length px))
    by (rewrite Nat2Z.inj_mul, Z.div_mul; lia).
  unfold image_NewNRGBA. simpl.
  replace (Z.to_nat (4 * w * h)) with (4 * length px)%nat by lia.
  pose proof (decode1555_loop px [] [] Hv eq_refl) as Hloop.
  cbn [app length] in Hloop. change (Z.of_nat 0) with 0 in Hloop.
  rewrite Hloop. reflexivity.
Qed.

(** ARGB1555 round trip: for an image of positive dimensions whose
    channels are bytes, encoding and decoding succeed and every decoded pixel
    is the input pixel with the low three bits of R, G and B cleared and
    with alpha 255 when the input alpha is at least 128 and 0 otherwise;
    the stored little-endian word is A1<<15 | (R>>3)<<10 | (G>>3)<<5 | B>>3. *)
Theorem argb1555_roundtrip `{Collaborators} (img : Image) :
  0 < Dx img -> 0 < Dy img -> validImage img ->
  exists raw out,
    encodePixelFormat PaxARGBA5 img = OK raw
    /\ decodePixelFormat PaxARGBA5 raw (Dx img) (Dy img)
         (image_NewNRGBA (Dx img) (Dy img)) = OK out
    /\ forall x y, 0 <= x < Dx img -> 0 <= y < Dy img ->
         NRGBA_At out x y = quantize5 (At img x y)
         /\ LittleEndian_Uint16 (drop (Z.to_nat (2 * (y * Dx img + x))) raw)
            = Z.lor (Z.lor (Z.lor
                (Z.shiftl (if 128 <=? c_A (At img x y) then 1 else 0) 15)
                (Z.shiftl (Z.shiftr (c_R (At img x y)) 3) 10))
                (Z.shiftl (Z.shiftr (c_G (At img x y)) 3) 5))
                (Z.shiftr (c_B (At img x y)) 3).
Proof.
  intros Hw Hh Hv.
  pose proof (validImage_pixels img Hv) as Hpx.
  exists (pixels img ≫= wordBytes1555),
         (mkNRGBAImage (pixels img ≫= quant5Bytes) (4 * Dx img) (Dx img) (Dy img)).
  split; [by apply encodePixelFormat_ARGBA5|].
  split.
  { apply decodePixelFormat_ARGBA5; try lia; [done|].
    apply length_pixels; lia. }
  intros x y Hx Hy. split.
  - by rewrite (NRGBA_At_chunks quant5Bytes img x y _ _ _ _
                  (fun _ => eq_refl) Hx Hy eq_refl).
  - pose proof (lookup_pixels img x y Hx Hy) as Hc.
    apply take_drop_middle in Hc.
    rewrite <- Hc at 1. rewrite bind_app, bind_cons.
    rewrite drop_app_length'.
    + apply Uint16_wordBytes1555.
      eapply Forall_forall in Hpx; [exact Hpx|].
      rewrite <- Hc. apply elem_of_app. right. apply list_elem_of_here.
    + rewrite (length_bind_chunks _ 2%nat) by done.
      rewrite length_take, length_pixels by lia. nia.
Qed.

Lemma argb1555_roundtrip_witness :
  exists raw out,
    encodePixelFormat (H := standIns) PaxARGBA5 (onePixel (mkNRGBA 0x12 0x34 0x56 0x90))
      = OK raw
    /\ decodePixelFormat PaxARGBA5 raw 1 1 (image_NewNRGBA 1 1) = OK out
    /\ forall x y, 0 <= x < 1 -> 0 <= y < 1 ->
         NRGBA_At out x y = quantize5 (mkNRGBA 0x12 0x34 0x56 0x90)
         /\ LittleEndian_Uint16 (drop (Z.to_nat (2 * (y * 1 + x))) raw)
            = Z.lor (Z.lor (Z.lor
                (Z.shiftl (if 128 <=? 0x90 then 1 else 0) 15)
                (Z.shiftl (Z.shiftr 0x12 3) 10))
                (Z.shiftl (Z.shiftr 0x34 3) 5))
                (Z.shiftr 0x56 3).
Proof.
  apply (argb1555_roundtrip (H := standIns) (onePixel (mkNRGBA 0x12 0x34 0x56 0x90))).
  - reflexivity.
  - reflexivity.
  - intros x y _ _. unfold validColor. simpl. lia.
Defined.

(** ** GRAYA (AI88) *)

Lemma insert2_zeros (pre rest : list Z) (v0 v1 : Z) :
  <[(length pre + 1)%nat := v1]> (<[length pre := v0]> (pre ++ 0 :: 0 :: rest))
  = pre ++ [v0; v1] ++ rest.
Proof.
  replace (length pre) with (length pre + 0)%nat at 2 by lia.
  by rewrite !insert_app_r.
Qed.

Lemma encodeGRAYA_fold `{Collaborators} (px : list NRGBA) (pre : list Z) :
  foldl (encodeStep PaxGRAYA) (pre ++ replicate (2 * length px) 0, length pre) px
  = (pre ++ (px ≫= grayBytes), (length pre + 2 * length px)%nat).
Proof.
  revert pre. induction px as [|c px IH]; intros pre.
  - simpl. by rewrite Nat.add_0_r.
  - replace (2 * length (c :: px))%nat with (S (S (2 * length px))) by (simpl; lia).
    cbn [replicate foldl encodeStep].
    rewrite insert2_zeros.
    replace (length pre + 2)%nat with (length (pre ++ grayBytes c))
      by (rewrite length_app; simpl; lia).
    change [grayLuma (c_R c) (c_G c) (c_B c); c_A c] with (grayBytes c).
    rewrite app_assoc, IH. rewrite bind_cons, <- app_assoc.
    f_equal. rewrite length_app. simpl. lia.
Qed.

Lemma encodePixelFormat_GRAYA `{Collaborators} (img : Image) :
  0 < Dx img -> 0 < Dy img ->
  encodePixelFormat PaxGRAYA img = OK (pixels img ≫= grayBytes).
Proof.
  intros Hw Hh. unfold encodePixelFormat.
  destruct (Z.leb_spec (Dx img) 0), (Z.leb_spec (Dy img) 0); try lia. simpl.
  replace (Z.to_nat (Dx img * Dy img * 2)) with (2 * length (pixels img))%nat
    by (rewrite length_pixels by lia; lia).
  by rewrite (encodeGRAYA_fold (pixels img) []).
Qed.

Lemma decodeGRAYA_step `{Collaborators} (raw pre rest : list Z) (i : Z)
    (c : NRGBA) (px : list NRGBA) (n : nat) :
  raw = px ≫= grayBytes -> px !! n = Some c -> i = Z.of_nat n ->
  Z.of_nat (length pre) = i * 4 ->
  decodeGRAYA raw i (pre ++ 0 :: 0 :: 0 :: 0 :: rest)
  = OK (pre ++ grayRGBA c ++ rest).
Proof.
  intros -> Hc -> Hi. unfold decodeGRAYA. cbv zeta. unfold mbind, result_bind.
  rewrite (Pix_get_chunk grayBytes 2 px n 0 c (grayLuma (c_R c) (c_G c) (c_B c)))
    by (done || lia).
  rewrite (Pix_get_chunk grayBytes 2 px n 1 c (c_A c)) by (done || lia).
  rewrite Pix_set_here by lia.
  rewrite Pix_set_here by (rewrite length_app; simpl; lia).
  rewrite Pix_set_here by (rewrite !length_app; simpl; lia).
  rewrite Pix_set_here by (rewrite !length_app; simpl; lia).
  by rewrite <- !app_assoc.
Qed.

Lemma decodeGRAYA_loop `{Collaborators} (suf pre : list NRGBA) (done : list Z) :
  length done = (4 * length pre)%nat ->
  forM (seqZ (Z.of_nat (length pre)) (Z.of_nat (length suf)))
       (decodeGRAYA ((pre ++ suf) ≫= grayBytes))
       (done ++ replicate (4 * length suf) 0)
  = OK (done ++ (suf ≫= grayRGBA)).
Proof.
  revert pre done. induction suf as [|c suf IH]; intros pre done Hd.
  - done.
  - rewrite seqZ_cons by (simpl; lia).
    replace (4 * length (c :: suf))%nat
      with (S (S (S (S (4 * length suf))))) by (simpl; lia).
    cbn [forM replicate]. unfold mbind at 1, result_bind.
    rewrite (decodeGRAYA_step _ done _ _ c (pre ++ c :: suf) (length pre))
      by (done || lia || by rewrite list_lookup_middle).
    replace (Z.succ (Z.of_nat (length pre))) with (Z.of_nat (length (pre ++ [c])))
      by (rewrite length_app; simpl; lia).
    replace (Z.pred (Z.of_nat (length (c :: suf)))) with (Z.of_nat (length suf))
      by (simpl; lia).
    rewrite (cons_middle c pre suf), app_assoc.
    rewrite (app_assoc done), IH.
    + by rewrite bind_cons, <- app_assoc.
    + rewrite !length_app. simpl. lia.
Qed.

Lemma decodePixelFormat_GRAYA `{Collaborators} (px : list NRGBA) (w h : Z) :
  length px = Z.to_nat (h * w) -> 0 <= w -> 0 <= h ->
  decodePixelFormat PaxGRAYA (px ≫= grayBytes) w h (image_NewNRGBA w h)
  = OK (mkNRGBAImage (px ≫= grayRGBA) (4 * w) w h).
Proof.
  intros Hl Hw Hh. unfold decodePixelFormat. cbv zeta.
  rewrite (length_bind_chunks _ 2%nat) by done.
  destruct (Z.ltb_spec (Z.of_nat (length px * 2)) (w * h * 2)); [nia|].
  unfold image_NewNRGBA. simpl.
  replace (Z.to_nat (4 * w * h)) with (4 * length px)%nat by lia.
  replace (w * h) with (Z.of_nat (length px)) by nia.
  pose proof (decodeGRAYA_loop px [] [] eq_refl) as Hloop.
  cbn [app length] in Hloop. change (Z.of_nat 0) with 0 in Hloop.
  rewrite Hloop. reflexivity.
Qed.

(** GRAYA (AI88) round trip: for an image of positive dimensions, encoding
    and decoding succeed, the alpha of every pixel comes back unchanged, and
    the three colour channels of a decoded pixel all hold the luma the
    encoder stored for it. *)
Theorem graya_roundtrip `{Collaborators} (img : Image) :
  0 < Dx img -> 0 < Dy img ->
  exists raw out,
    encodePixelFormat PaxGRAYA img = OK raw
    /\ decodePixelFormat PaxGRAYA raw (Dx img) (Dy img)
         (image_NewNRGBA (Dx img) (Dy img)) = OK out
    /\ forall x y, 0 <= x < Dx img -> 0 <= y < Dy img ->
         let c := At img x y in
         let l := grayLuma (c_R c) (c_G c) (c_B c) in
         NRGBA_At out x y = mkNRGBA l l l (c_A c)
         /\ take 2 (drop (Z.to_nat (2 * (y * Dx img + x))) raw) = [l; c_A c].
Proof.
  intros Hw Hh.
  exists (pixels img ≫= grayBytes),
         (mkNRGBAImage (pixels img ≫= grayRGBA) (4 * Dx img) (Dx img) (Dy img)).
  split; [by apply encodePixelFormat_GRAYA|].
  split.
  { apply decodePixelFormat_GRAYA; try lia. apply length_pixels; lia. }
  intros x y Hx Hy. cbv zeta. split.
  - by rewrite (NRGBA_At_chunks grayRGBA img x y _ _ _ _
                  (fun _ => eq_refl) Hx Hy eq_refl).
  - pose proof (lookup_pixels img x y Hx Hy) as Hc.
    apply take_drop_middle in Hc.
    rewrite <- Hc at 1. rewrite bind_app, bind_cons.
    rewrite drop_app_length'; [done|].
    rewrite (length_bind_chunks _ 2%nat) by done.
    rewrite length_take, length_pixels by lia. nia.
Qed.

Lemma graya_roundtrip_witness :
  exists raw out,
    encodePixelFormat (H := standIns) PaxGRAYA (onePixel (mkNRGBA 10 20 30 40)) = OK raw
    /\ decodePixelFormat PaxGRAYA raw 1 1 (image_NewNRGBA 1 1) = OK out
    /\ forall x y, 0 <= x < 1 -> 0 <= y < 1 ->
         let c := mkNRGBA 10 20 30 40 in
         let l := grayLuma (Collaborators := standIns) (c_R c) (c_G c) (c_B c) in
         NRGBA_At out x y = mkNRGBA l l l (c_A c)
         /\ take 2 (drop (Z.to_nat (2 * (y * 1 + x))) raw) = [l; c_A c].
Proof.
  apply (graya_roundtrip (H := standIns) (onePixel (mkNRGBA 10 20 30 40))).
  - reflexivity.
  - reflexivity.
Defined.

(** ** Writing a file and reading it back *)

Lemma Uint24_bytes (d : Z) :
  0 <= d < 16777216 ->
  Z.lor (Z.lor (uint8 d) (Z.shiftl (uint8 (Z.shiftr d 8)) 8))
        (Z.shiftl (uint8 (Z.shiftr d 16)) 16) = d.
Proof.
  intros Hd. unfold uint8. rewrite !Z.shiftr_div_pow2 by lia.
  change (2 ^ 8) with 256. change (2 ^ 16) with 65536.
  rewrite (lor_shiftl_add (d mod 256) _ 8)
    by (change (2 ^ 8) with 256; Z.div_mod_to_equations; lia).
  rewrite (lor_shiftl_add _ _ 16)
    by (change (2 ^ 8) with 256; change (2 ^ 16) with 65536;
        Z.div_mod_to_equations; lia).
  change (2 ^ 8) with 256. change (2 ^ 16) with 65536.
  Z.div_mod_to_equations. lia.
Qed.

Lemma land_low15 (w : Z) : 0 <= w < 0x8000 -> Z.land w 0x8000 = 0.
Proof.
  intros Hw. change 0x8000 with (Z.shiftl 1 15).
  apply land_shiftl_low; [lia|]. change (2 ^ 15) with 32768. lia.
Qed.

(** The width field of a block stored with the LZO flag. *)
Lemma lzo_width_field (w : Z) :
  0 <= w < 0x8000 ->
  let f := Z.lor w 0x8000 in
  0 <= f < 65536 /\ Z.land f 0x8000 = 0x8000 /\ Z.land f 0x7FFF = w.
Proof.
  intros Hw f.
  assert (Hf : f = w + 32768).
  { unfold f. change 0x8000 with (Z.shiftl 1 15).
    rewrite lor_shiftl_add by (change (2 ^ 15) with 32768; lia). done. }
  split; [lia|]. split.
  - unfold f. rewrite Z.land_lor_distr_l, land_low15 by done. reflexivity.
  - rewrite Hf. change 0x7FFF with (Z.ones 15). rewrite Z.land_ones by lia.
    change (2 ^ 15) with 32768. Z.div_mod_to_equations. lia.
Qed.

(** One block at the cursor is read as [readsAs] says. *)
Lemma readMipMap_block `{Collaborators} (t : PaxType) (m : mipBlock)
    (mm : MipMap) (data : list Z) (pos : nat) (rest : list Z) :
  drop pos data = mipBytes m ++ rest ->
  mipFits m -> readsAs t m mm ->
  readMipMap t (mkReader data pos)
  = OK (Some mm, mkReader data (pos + 7 + length (mb_data m))).
Proof.
  intros Hd [Hw Hh] (Hnz & H24 & Hexp & Hdxt & Hlz & raw & -> & Hraw).
  unfold mipBytes in Hd. cbv zeta in Hd.
  set (f := if mb_useLZ m then Z.lor (mb_w m) 32768 else mb_w m) in *.
  assert (Hf : 0 <= f < 65536
               /\ (isDXT t && negb (Z.land f 0x8000 =? 0)) = mb_useLZ m
               /\ (if mb_useLZ m then Z.land f 0x7FFF else f) = mb_w m
               /\ (f = 0 -> mb_w m = 0)).
  { unfold f. destruct (mb_useLZ m) eqn:Elz.
    - specialize (Hlz eq_refl). specialize (Hdxt Hlz).
      destruct (lzo_width_field (mb_w m) ltac:(lia)) as (H1 & H2 & H3).
      rewrite Hlz, H2. repeat split; try done; try lia.
      intros E0. rewrite E0 in H2. discriminate H2.
    - repeat split; try lia.
      destruct (isDXT t) eqn:Et; [|done].
      rewrite land_low15 by (specialize (Hdxt eq_refl); lia). done. }
  destruct Hf as (Hf16 & Hflag & Hwidth & Hf0).
  assert (Hw16 : uint16 f = f) by (unfold uint16; apply Z.mod_small; lia).
  assert (Hh16 : uint16 (mb_h m) = mb_h m) by (unfold uint16; apply Z.mod_small; lia).
  rewrite Hw16, Hh16 in Hd. unfold le_uint16_bytes in Hd.
  rewrite <- !app_assoc in Hd. cbn [app] in Hd.
  pose proof (Uint16_le_bytes f ltac:(lia)) as Ew.
  pose proof (Uint16_le_bytes (mb_h m) ltac:(lia)) as Eh.
  unfold le_uint16_bytes in Ew, Eh.
  pose proof (Uint24_bytes (Z.of_nat (length (mb_data m))) ltac:(lia)) as Es.
  rewrite (readMipMap_header t data pos _ _ _ _ _ _ _ (mb_data m) rest Hd).
  - rewrite Ew, Eh, Es, Hflag, Hwidth.
    destruct (Z.ltb_spec (expectedMipSize t (mb_w m) (mb_h m)) 0); [lia|].
    destruct (decide (Z.of_nat (length (mb_data m))
                      = expectedMipSize t (mb_w m) (mb_h m))) as [He|He].
    + rewrite He, Z.eqb_refl. by rewrite Hraw.
    + rewrite (proj2 (Z.eqb_neq _ _) He).
      destruct (isDXT t).
      * destruct Hraw as [-> ->]. done.
      * by rewrite Hraw.
  - by rewrite Es.
  - rewrite Ew, Eh. intros [E1 E2]. apply Hnz. split; [by apply Hf0|done].
Qed.

(** The loop over the offsets of consecutive blocks reads them all. *)
Lemma readMipMaps_blocks `{Collaborators} (t : PaxType) (file : list Z)
    (mips : list mipBlock) :
  forall (mms : list MipMap) (off : Z) (acc : list MipMap) (pos : nat)
         (rest : list Z),
  0 <= off ->
  drop (Z.to_nat off) file = mjoin (mipBytes <$> mips) ++ rest ->
  Forall mipFits mips -> Forall2 (readsAs t) mips mms ->
  exists r,
    readMipMaps t (mipOffsets off mips) acc (mkReader file pos)
    = OK (acc ++ mms, r).
Proof.
  induction mips as [|m mips IH]; intros mms off acc pos rest Hoff Hd Hfits Hraw.
  - apply Forall2_nil_inv_l in Hraw as ->.
    eexists. simpl. by rewrite app_nil_r.
  - apply Forall_cons in Hfits as [Hfit Hfits].
    apply Forall2_cons_inv_l in Hraw as (mm & mms' & Hr & Hraw & ->).
    change (mjoin (mipBytes <$> m :: mips))
      with (mipBytes m ++ mjoin (mipBytes <$> mips)) in Hd.
    rewrite <- app_assoc in Hd.
    cbn [mipOffsets readMipMaps]. unfold mbind, Rd_bind, Seek. cbn [r_data].
    rewrite (readMipMap_block t m mm file (Z.to_nat off) _ Hd Hfit Hr).
    pose proof (drop_after file (Z.to_nat off) (mipBytes m) _
                  (7 + length (mb_data m)) Hd (length_mipBytes m)) as Hd'.
    destruct (IH mms' (off + 7 + Z.of_nat (length (mb_data m))) (acc ++ [mm])
                (Z.to_nat off + 7 + length (mb_data m))%nat rest) as [r Hr'];
      [lia| |done|done|].
    { replace (Z.to_nat (off + 7 + Z.of_nat (length (mb_data m))))
        with (Z.to_nat off + (7 + length (mb_data m)))%nat by lia. exact Hd'. }
    exists r. rewrite Hr'. by rewrite <- app_assoc.
Qed.

Lemma filter_all {A} (P : A -> Prop) `{forall x, Decision (P x)} (l : list A) :
  Forall P l -> filter P l = l.
Proof.
  induction 1 as [|x l Hx _ IH]; [done|].
  by rewrite filter_cons_True, IH.
Qed.

Lemma length_blocks_bound (mips : list mipBlock) :
  Forall (fun m => Z.of_nat (length (mb_data m)) < 16777216) mips ->
  Z.of_nat (length (mjoin (mipBytes <$> mips)))
  <= Z.of_nat (length mips) * 16777222.
Proof.
  induction 1 as [|m mips Hm _ IH]; [done|].
  change (mjoin (mipBytes <$> m :: mips))
    with (mipBytes m ++ mjoin (mipBytes <$> mips)).
  rewrite length_app, length_mipBytes. cbn [length]. lia.
Qed.

Lemma PaxTypeFromBytes_Bytes (t : PaxType) (rest : list Z) :
  t <> PaxUnset -> PaxTypeFromBytes (PaxType_Bytes t ++ rest) = Some t.
Proof. by destruct t. Qed.

(** The tag loop moves the cursor and leaves the buffer alone. *)
Lemma readTagsLoop_data (fuel : nat) :
  forall (acc tags : gmap string (list Z)) (r r' : reader),
  readTagsLoop fuel acc r = OK (tags, r') -> r_data r' = r_data r.
Proof.
  induction fuel as [|fuel IH]; intros acc tags r0 r'.
  - simpl. unfold mbind, Rd_bind.
    destruct (io_ReadFull 4 r0) as [[sig r1]|e] eqn:E1; [|done].
    apply io_ReadFull_unread in E1 as (E1 & _).
    destruct (decide (sig = GGAT)) as [Hg|Hg]; [done|]. by intros [= _ <-].
  - rewrite readTagsLoop_S. unfold binary_Read_uint32, mbind, Rd_bind, mret, Rd_ret.
    destruct (io_ReadFull 4 r0) as [[sig r1]|e] eqn:E1; [|done].
    apply io_ReadFull_unread in E1 as (E1 & _).
    destruct (decide (sig = GGAT)) as [Hg|Hg]; [|by intros [= _ <-]].
    destruct (io_ReadFull 4 r1) as [[nm r2]|e] eqn:E2; [|done].
    apply io_ReadFull_unread in E2 as (E2 & _).
    destruct (io_ReadFull 4 r2) as [[sz r3]|e] eqn:E3; [|done].
    apply io_ReadFull_unread in E3 as (E3 & _).
    destruct (io_ReadFull _ r3) as [[dat r4]|e] eqn:E4; [|done].
    apply io_ReadFull_unread in E4 as (E4 & _).
    intros Hr. apply IH in Hr. congruence.
Qed.

Lemma readGGATTags_data (r r' : reader) (tags : gmap string (list Z)) :
  readGGATTags r = OK (tags, r') -> r_data r' = r_data r.
Proof. apply readTagsLoop_data. Qed.

(** The offsets of one to sixteen blocks, read back from the SFFO table. *)
Lemma sffoOffsets_written (cgva cxam : list Z) (wg : bool) (gv : Z) (wz : bool)
    (zt : byte4) (mips : list mipBlock) :
  mips <> [] -> (length mips <= 16)%nat ->
  Forall (fun m => Z.of_nat (length (mb_data m)) < 16777216) mips ->
  sffoOffsets (tagTable (fileTags cgva cxam wg gv wz zt
                 (sffoFill mips 0 (baseOffset wg wz) (replicate 64 0))))
  = OK (mipOffsets (baseOffset wg wz) mips).
Proof.
  intros Hne H16 H24.
  set (sffo := sffoFill mips 0 (baseOffset wg wz) (replicate 64 0)).
  destruct (fileTags_table cgva cxam wg gv wz zt sffo) as (Hs & _).
  assert (Hb : 112 <= baseOffset wg wz <= 144)
    by (rewrite baseOffset_value; destruct wg, wz; lia).
  assert (Hlen : Z.of_nat (length (mjoin (mipBytes <$> mips))) <= 16 * 16777222).
  { etransitivity; [by apply length_blocks_bound|lia]. }
  unfold sffoOffsets. rewrite Hs. unfold sffo. rewrite sffoFill_words.
  rewrite take_ge by (rewrite length_mipOffsets; lia).
  rewrite filter_app.
  rewrite (filter_nonzero_zeros (replicate _ _)) by (by apply Forall_replicate).
  rewrite app_nil_r.
  assert (Hu : uint32 <$> mipOffsets (baseOffset wg wz) mips
               = mipOffsets (baseOffset wg wz) mips).
  { rewrite <- (list_fmap_id (mipOffsets _ _)) at 2.
    apply Forall_fmap_ext_1, Forall_forall. intros o Ho.
    apply mipOffsets_bounds in Ho. unfold uint32, id. rewrite Z.mod_small; lia. }
  rewrite Hu, filter_all.
  - destruct mips; [done|]. reflexivity.
  - apply Forall_forall. intros o Ho. apply mipOffsets_bounds in Ho. lia.
Qed.

Lemma writeFile_reads_back `{Collaborators} (paxType : PaxType)
    (cgva cxam : list Z) (wg : bool) (gv : Z) (wz : bool) (zt : byte4)
    (mips : list mipBlock) (mms : list MipMap) (file : list Z) :
  length cgva = 4%nat -> length cxam = 4%nat ->
  writeFile paxType cgva cxam wg gv wz zt mips = OK file ->
  paxType <> PaxUnset ->
  mips <> [] -> (length mips <= 16)%nat ->
  Forall2 (readsAs paxType) mips mms ->
  DecodePAA file
  = OK (mkPAA (tagTable (fileTags cgva cxam wg gv wz zt
                           (sffoFill mips 0 (baseOffset wg wz) (replicate 64 0))))
              mms [] paxType).
Proof.
  intros Hc Hx Hw Ht Hne H16 Hraw.
  destruct (writeFile_read _ _ _ _ _ _ _ _ _ Hc Hx Hw) as ([r Hr] & Hdrop & Hfits).
  apply writeFile_layout in Hw as [Hfile _].
  assert (H24 : Forall (fun m => Z.of_nat (length (mb_data m)) < 16777216) mips).
  { apply Forall_forall. intros m Hm.
    apply list_elem_of_lookup in Hm as [i Hi].
    destruct (Forall2_lookup_l _ _ _ _ _ Hraw Hi) as (mm & _ & Hmm).
    by destruct Hmm as (_ & ? & _). }
  pose proof (sffoOffsets_written cgva cxam wg gv wz zt mips Hne H16 H24) as Hoffs.
  assert (Hb : 112 <= baseOffset wg wz)
    by (rewrite baseOffset_value; destruct wg, wz; lia).
  destruct (readMipMaps_blocks paxType file mips mms (baseOffset wg wz) []
              (r_pos r) [0; 0; 0; 0; 0; 0]) as [r' Hr']; [lia|done..|].
  unfold DecodePAA, DecodePAA_reader, readPaxType, bytes_NewReader,
    mbind, Rd_bind, mret, Rd_ret, io_ReadFull.
  cbn [r_pos r_data Nat.eqb]. rewrite drop_0.
  assert (Hl2 : (2 <=? length file)%nat = true).
  { apply Nat.leb_le. rewrite Hfile, length_app, length_PaxType_Bytes. lia. }
  rewrite Hl2.
  assert (Hmagic : PaxTypeFromBytes (take 2 file) = Some paxType).
  { rewrite PaxTypeFromBytes_take, Hfile. by apply PaxTypeFromBytes_Bytes. }
  rewrite Hmagic. change (0 + 2)%nat with 2%nat. rewrite Hr.
  unfold lift. rewrite Hoffs.
  pose proof (readGGATTags_data _ _ _ Hr) as Hrd.
  destruct r as [rd rp]. simpl in Hrd. subst rd. simpl in Hr'.
  rewrite Hr'. reflexivity.
Qed.

(** A file written with one to sixteen blocks reads back: DecodePAA returns
    the format of the magic, the table of the tags written, and for each
    block the mip the reader makes of it (its width, its height, and its
    payload or the decompressed payload), in order. *)
Theorem writeFile_DecodePAA `{Collaborators} (paxType : PaxType)
    (cgva cxam : list Z) (wg : bool) (gv : Z) (wz : bool) (zt : byte4)
    (mips : list mipBlock) (mms : list MipMap) (file : list Z) :
  length cgva = 4%nat -> length cxam = 4%nat ->
  writeFile paxType cgva cxam wg gv wz zt mips = OK file ->
  paxType <> PaxUnset ->
  mips <> [] -> (length mips <= 16)%nat ->
  Forall2 (readsAs paxType) mips mms ->
  DecodePAA file
  = OK (mkPAA (tagTable (fileTags cgva cxam wg gv wz zt
                           (sffoFill mips 0 (baseOffset wg wz) (replicate 64 0))))
              mms [] paxType).
Proof.
  exact (writeFile_reads_back paxType cgva cxam wg gv wz zt mips mms file).
Qed.

Lemma writeFile_DecodePAA_witness :
  DecodePAA (H := standIns) onePixelFile
  = OK (mkPAA (tagTable (fileTags [3; 2; 1; 4] [3; 2; 1; 4] false 1 false (0, 0, 0, 0)
                           (sffoFill [onePixelBlock] 0 (baseOffset false false)
                              (replicate 64 0))))
              [mkMipMap [3; 2; 1; 4] PaxARGB8 1 1] [] PaxARGB8).
Proof.
  apply (writeFile_DecodePAA (H := standIns) PaxARGB8 [3; 2; 1; 4] [3; 2; 1; 4]
           false 1 false (0, 0, 0, 0) [onePixelBlock]).
  - reflexivity.
  - reflexivity.
  - vm_compute; reflexivity.
  - discriminate.
  - discriminate.
  - simpl. lia.
  - constructor; [|constructor].
    split; [intros [Hw _]; discriminate Hw|].
    split; [simpl; lia|]. split; [vm_compute; discriminate|].
    split; [discriminate|]. split; [discriminate|].
    exists [3; 2; 1; 4]. split; reflexivity.
Defined.

(** ** From an image to a file and back: ARGB8888 *)

(** The block [encodeMip] makes of an image for ARGB8888, without swizzle
    and without forced LZSS, is read back as the B, G, R, A bytes of the
    pixels, whether LZSS made it smaller or not. *)
Lemma encodeMip_ARGB8 `{Collaborators} (img : Image) (o : EncodeOptions)
    (b : mipBlock) :
  LZSSContract ->
  NormalMapSwizzle o = false ->
  (Swizzle o = None \/ SkipSwizzle o = true) ->
  ForceLZSS o = false ->
  0 < Dx img <= 0xffff -> 0 < Dy img <= 0xffff ->
  Dx img * Dy img * 4 < 16777216 ->
  encodeMip (Some o) PaxARGB8 (BCn o) img = OK b ->
  readsAs PaxARGB8 b
    (mkMipMap (pixels img ≫= bgraBytes) PaxARGB8 (Dx img) (Dy img)).
Proof.
  intros Hlzss Hnm Hsw Hforce Hw Hh Hsz.
  unfold encodeMip. cbv beta iota zeta. rewrite Hnm, Hforce.
  assert (Himg : match Swizzle o with
                 | Some swz =>
                     if negb (SkipSwizzle o)
                     then texconfig.ApplyChannelSwizzle img swz else img
                 | None => img
                 end = img).
  { destruct Hsw as [->| ->]; [done|]. by destruct (Swizzle o). }
  rewrite Himg. change (isDXT PaxARGB8) with false. rewrite andb_false_r.
  cbv beta iota. rewrite (encodePixelFormat_ARGB8 img) by lia.
  set (raw := pixels img ≫= bgraBytes).
  unfold mbind, result_bind. cbn [negb orb].
  assert (Hlen : Z.of_nat (length raw) = Dx img * Dy img * 4).
  { unfold raw. rewrite (length_bind_chunks _ 4%nat) by done.
    rewrite length_pixels by lia. lia. }
  assert (Hexp : expectedMipSize PaxARGB8 (Dx img) (Dy img) = Dx img * Dy img * 4).
  { unfold expectedMipSize.
    destruct (Z.leb_spec (Dx img) 0), (Z.leb_spec (Dy img) 0); try lia.
    reflexivity. }
  destruct (lzss_Compress raw) as [comp|e] eqn:Ec; [|done].
  pose proof (Hlzss raw comp Ec) as Hdec.
  destruct (Nat.ltb_spec (length comp) (length raw)) as [Hlt|Hge];
    intros [= <-]; unfold readsAs; cbn [mb_w mb_h mb_data mb_useLZ];
    rewrite Hexp.
  - split; [lia|]. split; [lia|]. split; [lia|]. split; [done|]. split; [done|].
    exists raw. split; [done|].
    destruct (decide _) as [E|E]; [lia|].
    change (isDXT PaxARGB8) with false. cbv iota. by rewrite <- Hlen.
  - split; [lia|]. split; [lia|]. split; [lia|]. split; [done|]. split; [done|].
    exists raw. split; [done|].
    destruct (decide _) as [E|E]; [done|lia].
Qed.

(** ARGB8888 end to end: a successful encode as ARGB8888 with a single
    level, no swizzle and LZSS not forced gives a file that Decode turns
    back into the same pixels, whether or not the payload was compressed.
    The image is at most 65535 wide and high and its payload fits the
    3-byte length field of a block. *)
Theorem encode_decode_argb8888 `{Collaborators} (img : Image)
    (o : EncodeOptions) (file : list Z) :
  LZSSContract ->
  Type_ o = PaxARGB8 -> GenerateMipmaps o = Some false ->
  NormalMapSwizzle o = false ->
  (Swizzle o = None \/ SkipSwizzle o = true) ->
  ForceLZSS o = false ->
  0 < Dx img <= 0xffff -> 0 < Dy img <= 0xffff ->
  Dx img * Dy img * 4 < 16777216 ->
  EncodeWithOptions img (Some o) = OK file ->
  exists out,
    Decode file = OK out
    /\ Rect_Dx out = Dx img /\ Rect_Dy out = Dy img
    /\ forall x y, 0 <= x < Dx img -> 0 <= y < Dy img ->
         NRGBA_At out x y = At img x y.
Proof.
  intros Hlzss Ht Hgen Hnm Hsw Hforce Hw Hh Hsz He.
  unfold EncodeWithOptions in He. cbv beta iota zeta in He.
  rewrite Ht, Hgen, Hnm in He.
  change (negb (bool_decide (PaxARGB8 = PaxUnset))) with true in He.
  change (default true (Some false)) with false in He.
  cbv beta iota in He. cbn [encodeMips] in He.
  unfold mbind at 1 2, result_bind at 1 2 in He.
  destruct (encodeMip (Some o) PaxARGB8 (BCn o) img) as [b|e] eqn:Eb; [|done].
  cbn [app] in He.
  pose proof (encodeMip_ARGB8 img o b Hlzss Hnm Hsw Hforce Hw Hh Hsz Eb) as Hb.
  set (raw := pixels img ≫= bgraBytes) in *.
  apply (writeFile_reads_back PaxARGB8 _ _ _ _ _ _ [b]
           [mkMipMap raw PaxARGB8 (Dx img) (Dy img)]) in He;
    [|done|done|done|done|simpl; lia|by constructor; [|constructor]].
  exists (mkNRGBAImage (pixels img ≫= rgbaBytes) (4 * Dx img) (Dx img) (Dy img)).
  split; [|split; [done|split; [done|]]].
  - unfold Decode, mbind, result_bind. rewrite He. cbn [MipMaps].
    assert (Himg : MipMap_Image (mkMipMap raw PaxARGB8 (Dx img) (Dy img))
                   = OK (mkNRGBAImage (pixels img ≫= rgbaBytes)
                           (4 * Dx img) (Dx img) (Dy img))).
    { unfold MipMap_Image. cbn [mm_Width mm_Height mm_Data mm_Type].
      destruct (Z.leb_spec (Dx img) 0), (Z.leb_spec (Dy img) 0); try lia.
      assert (Hl : length raw <> 0%nat).
      { unfold raw. rewrite (length_bind_chunks _ 4%nat) by done.
        rewrite length_pixels by lia. nia. }
      rewrite (proj2 (Nat.eqb_neq _ _) Hl). cbn [orb isDXT].
      apply decodePixelFormat_ARGB8; try lia. apply length_pixels; lia. }
    rewrite Himg. unfold applySwizzleTag. cbn [Taggs paa_Type].
    change (bool_decide (PaxARGB8 = PaxDXT5)) with false.
    destruct (_ !! "ZIWS"%string); [|done].
    by rewrite orb_true_r.
  - intros x y Hx Hy.
    rewrite (NRGBA_At_chunks rgbaBytes img x y _ _ _ _ (fun _ => eq_refl) Hx Hy eq_refl).
    by destruct (At img x y).
Qed.

Lemma standIns_LZSS : LZSSContract (H := standIns).
Proof.
  intros raw comp [= <-]. simpl. rewrite Nat2Z.id.
  by rewrite take_app_length.
Qed.

Lemma encode_decode_argb8888_witness :
  exists out,
    Decode (H := standIns) onePixelFile = OK out
    /\ Rect_Dx out = 1 /\ Rect_Dy out = 1
    /\ forall x y, 0 <= x < 1 -> 0 <= y < 1 ->
         NRGBA_At out x y = mkNRGBA 1 2 3 4.
Proof.
  apply (encode_decode_argb8888 (H := standIns) (onePixel (mkNRGBA 1 2 3 4))
           optsARGB8 onePixelFile).
  - exact standIns_LZSS.
  - reflexivity.
  - reflexivity.
  - reflexivity.
  - by left.
  - reflexivity.
  - simpl; lia.
  - simpl; lia.
  - simpl; lia.
  - vm_compute; reflexivity.
Defined.

(** ** The metadata reader and the full reader agree *)

Lemma binary_Read_uint16_data (r r' : reader) (v : Z) :
  binary_Read_uint16 r = OK (v, r') -> r_data r' = r_data r.
Proof.
  unfold binary_Read_uint16, mbind, Rd_bind, mret, Rd_ret.
  destruct (io_ReadFull 2 r) as [[b r1]|e] eqn:E; [|done].
  apply io_ReadFull_unread in E as (E & _). by intros [= _ <-].
Qed.

(** What a successful [readMipMap] read: the two dimension fields, and
    either the dummy block or a mip with the width (flag masked for DXT)
    and the height of the fields. *)
Lemma readMipMap_inv `{Collaborators} (t : PaxType) (r r' : reader)
    (res : option MipMap) :
  readMipMap t r = OK (res, r') ->
  exists w h r1 r2,
    binary_Read_uint16 r = OK (w, r1)
    /\ binary_Read_uint16 r1 = OK (h, r2)
    /\ r_data r' = r_data r
    /\ if (w =? 0) && (h =? 0) then res = None
       else exists mm,
         res = Some mm
         /\ mm_Width mm = (if isDXT t && negb (Z.land w 0x8000 =? 0)
                           then Z.land w 0x7FFF else w)
         /\ mm_Height mm = h.
Proof.
  unfold readMipMap. unfold mbind at 1 2, Rd_bind at 1 2.
  destruct (binary_Read_uint16 r) as [[w r1]|e] eqn:E1; [|done].
  destruct (binary_Read_uint16 r1) as [[h r2]|e] eqn:E2; [|done].
  pose proof (binary_Read_uint16_data _ _ _ E1) as D1.
  pose proof (binary_Read_uint16_data _ _ _ E2) as D2.
  intros Hr. exists w, h, r1, r2. split; [done|]. split; [done|].
  destruct ((w =? 0) && (h =? 0)).
  - injection Hr as <- <-. split; [congruence|done].
  - cbv zeta in Hr. unfold mbind, Rd_bind, mret, Rd_ret, Rd_fail in Hr.
    destruct (io_ReadFull 3 r2) as [[sb r3]|e] eqn:E3; [|done].
    apply io_ReadFull_unread in E3 as (D3 & _).
    destruct (io_ReadFull _ r3) as [[pl r4]|e] eqn:E4; [|done].
    apply io_ReadFull_unread in E4 as (D4 & _).
    destruct (expectedMipSize _ _ _ <? 0); [done|].
    match type of Hr with
    | match ?X with _ => _ end = _ => destruct X as [[a r5]|e] eqn:Ea; [|done]
    end.
    injection Hr as <- <-.
    assert (D5 : r5 = r4).
    { repeat match type of Ea with
             | context [if ?c then _ else _] => destruct c
             | context [match ?x with OK _ => _ | Err _ => _ end] => destruct x
             end; cbv beta in Ea; congruence. }
    subst r5. split; [congruence|]. by eexists.
Qed.

(** The header loop succeeds on the offsets the block loop succeeded on,
    and finds the same widths and heights. *)
Lemma readMipHeaders_parity `{Collaborators} (t : PaxType) (offs : list Z) :
  forall (mips0 : list MipMap) (hs0 : list MipHeader) (r1 r1' r2 : reader)
         (mips : list MipMap),
  r_data r2 = r_data r1 ->
  readMipMaps t offs mips0 r1 = OK (mips, r1') ->
  exists hs tl r2',
    readMipHeaders t offs hs0 r2 = OK (hs0 ++ hs, r2')
    /\ mips = mips0 ++ tl
    /\ Forall2 (fun hd mm => mh_Width hd = mm_Width mm
                             /\ mh_Height hd = mm_Height mm
                             /\ mh_Offset hd ∈ offs) hs tl.
Proof.
  induction offs as [|off offs IH]; intros mips0 hs0 r1 r1' r2 mips Hd.
  - simpl. intros [= <- <-]. exists [], [], r2. by rewrite !app_nil_r.
  - cbn [readMipMaps readMipHeaders]. unfold mbind at 1 2, Rd_bind at 1 2, Seek.
    destruct (readMipMap t _) as [[res r3]|e] eqn:Em; [|done].
    apply readMipMap_inv in Em as (w & h & ra & rb & Ew & Eh & Hdat & Hres).
    cbn [r_data] in *. rewrite <- Hd in Ew.
    unfold mbind, Rd_bind. rewrite Ew, Eh.
    fold (@mbind Rd _). 
    assert (Hdb : r_data rb = r_data r3).
    { apply binary_Read_uint16_data in Ew, Eh. simpl in Ew. congruence. }
    destruct ((w =? 0) && (h =? 0)) eqn:Ez.
    + subst res. intros Hrest.
      destruct (IH mips0 hs0 r3 r1' rb mips Hdb Hrest) as (hs & tl & r2' & E & -> & Hall).
      exists hs, tl, r2'. split; [done|]. split; [done|].
      eapply Forall2_impl; [exact Hall|]. intros hd mm (? & ? & ?).
      split; [done|]. split; [done|]. by right.
    + destruct Hres as (mm & -> & Hwm & Hhm). intros Hrest.
      destruct (IH (mips0 ++ [mm])
                  (hs0 ++ [mkMipHeader off h
                             (if isDXTPaxType t && negb (Z.land w 0x8000 =? 0)
                              then Z.land w 0x7FFF else w)])
                  r3 r1' rb mips Hdb Hrest) as (hs & tl & r2' & E & -> & Hall).
      eexists (_ :: hs), (mm :: tl), r2'.
      split; [by rewrite E, <- app_assoc|]. split; [by rewrite <- app_assoc|].
      constructor.
      * cbn [mh_Width mh_Height mh_Offset]. split; [|split; [done|by left]].
        rewrite Hwm. by destruct t.
      * eapply Forall2_impl; [exact Hall|]. intros hd mm' (? & ? & ?).
        split; [done|]. split; [done|]. by right.
Qed.

(** DecodeMetadata agrees with DecodePAA: on every stream that DecodePAA
    decodes, DecodeMetadata succeeds too, with the same format and the same
    tag table, and with one header for each mip, in order, that holds the
    width and the height of that mip and one of the non-zero SFFO offsets. *)
Theorem DecodeMetadata_parity `{Collaborators} (stream : list Z) (p : PAA) :
  DecodePAA stream = OK p ->
  exists m offs,
    DecodeMetadata stream = OK m
    /\ md_Type m = paa_Type p
    /\ md_Taggs m = Taggs p
    /\ sffoOffsets (Taggs p) = OK offs
    /\ Forall2 (fun hd mm => mh_Width hd = mm_Width mm
                             /\ mh_Height hd = mm_Height mm
                             /\ mh_Offset hd ∈ offs)
               (md_MipHeaders m) (MipMaps p).
Proof.
  unfold DecodePAA, DecodePAA_reader, DecodeMetadata, DecodeMetadata_reader,
    mbind, Rd_bind, mret, Rd_ret.
  destruct (readPaxType (bytes_NewReader stream)) as [[t r1]|e]; [|done].
  destruct (readGGATTags r1) as [[tags r2]|e]; [|done].
  unfold lift. destruct (sffoOffsets tags) as [offs|e] eqn:Eo; [|done].
  destruct (readMipMaps t offs [] r2) as [[mips r3]|e] eqn:Em; [|done].
  intros [= <-].
  destruct (readMipHeaders_parity t offs [] [] r2 r3 r2 mips eq_refl Em)
    as (hs & tl & r2' & E & -> & Hall).
  rewrite E. eexists _, offs. cbn [fmap result_fmap fst md_Type md_Taggs
    md_MipHeaders paa_Type Taggs MipMaps app].
  repeat split; done.
Qed.

Lemma DecodeMetadata_parity_witness :
  exists m offs,
    DecodeMetadata onePixelFile = OK m
    /\ md_Type m = PaxARGB8
    /\ md_Taggs m
       = tagTable (fileTags [3; 2; 1; 4] [3; 2; 1; 4] false 1 false (0, 0, 0, 0)
                     (sffoFill [onePixelBlock] 0 (baseOffset false false)
                        (replicate 64 0)))
    /\ sffoOffsets
         (tagTable (fileTags [3; 2; 1; 4] [3; 2; 1; 4] false 1 false (0, 0, 0, 0)
                      (sffoFill [onePixelBlock] 0 (baseOffset false false)
                         (replicate 64 0)))) = OK offs
    /\ Forall2 (fun hd mm => mh_Width hd = mm_Width mm
                             /\ mh_Height hd = mm_Height mm
                             /\ mh_Offset hd ∈ offs)
               (md_MipHeaders m) [mkMipMap [3; 2; 1; 4] PaxARGB8 1 1].
Proof.
  apply (DecodeMetadata_parity (H := standIns) onePixelFile
           (mkPAA (tagTable (fileTags [3; 2; 1; 4] [3; 2; 1; 4] false 1 false
                               (0, 0, 0, 0)
                               (sffoFill [onePixelBlock] 0 (baseOffset false false)
                                  (replicate 64 0))))
                  [mkMipMap [3; 2; 1; 4] PaxARGB8 1 1] [] PaxARGB8)).
  vm_compute; reflexivity.
Defined.

(** ** Wildcard patterns *)

Section Wildcard.
Import resolver.

Lemma glob_cons_inv (a : Z) (p u : list Z) :
  a <> star -> glob (a :: p) u ->
  exists c u', u = c :: u' /\ (a = quest \/ a = c) /\ glob p u'.
Proof.
  intros Ha Hg. inversion Hg; subst; try done.
  - eexists _, _. split; [done|]. split; [by left|done].
  - eexists _, _. split; [done|]. split; [by right|done].
Qed.

Lemma glob_cons_intro (a c : Z) (p u : list Z) :
  a <> star -> a = quest \/ a = c -> glob p u -> glob (a :: p) (c :: u).
Proof.
  intros Ha [->| ->] Hg; [by apply glob_quest | by apply glob_lit].
Qed.

Lemma glob_star_inv (p s : list Z) :
  glob (star :: p) s <-> exists k, (k <= length s)%nat /\ glob p (drop k s).
Proof.
  split.
  - remember (star :: p) as sp eqn:Esp. intros Hg. revert Esp.
    induction Hg as [|p0 s0 Hg _|p0 c s0 Hg IH|p0 c s0 Hg _|p0 c s0 Hc Hg _];
      intros Esp; try done.
    + injection Esp as ->. exists 0%nat. split; [lia|done].
    + destruct (IH Esp) as (k & Hk & Hgk). exists (S k). split; [simpl; lia|done].
    + injection Esp as He _. by destruct Hc.
  - intros (k & Hk & Hg). revert k Hk Hg. induction s as [|c s IH]; intros k Hk Hg.
    + rewrite drop_nil in Hg. by apply glob_star_skip.
    + destruct k as [|k]; [by apply glob_star_skip|].
      apply glob_star_eat. apply (IH k); [simpl in Hk; lia|done].
Qed.

Lemma glob_star_absorb (p t s : list Z) :
  glob (star :: p) s -> glob (star :: p) (t ++ s).
Proof. intros Hg. induction t as [|c t IH]; [done|]. by apply glob_star_eat. Qed.

Lemma glob_nil_r (p : list Z) : glob p [] <-> Forall (fun a => a = star) p.
Proof.
  split.
  - induction p as [|a p IH]; [done|]. intros Hg.
    inversion Hg; subst. constructor; [done|by apply IH].
  - induction 1 as [|a p -> _ IH]; [constructor|by apply glob_star_skip].
Qed.

Lemma glob_nil_l (u : list Z) : glob [] u -> u = [].
Proof. by inversion 1. Qed.

(** A run of pattern runes without '*' matches rune by rune. *)
Lemma glob_lits (q : list Z) :
  Forall (fun a => a <> star) q ->
  forall p' u,
  glob (q ++ p') u
  <-> exists t s', u = t ++ s'
                   /\ Forall2 (fun a c => a = quest \/ a = c) q t
                   /\ glob p' s'.
Proof.
  induction 1 as [|a q Ha _ IH]; intros p' u.
  - split.
    + intros Hg. exists [], u. done.
    + intros (t & s' & -> & Hf & Hg). by apply Forall2_nil_inv_l in Hf as ->.
  - split.
    + intros Hg. apply glob_cons_inv in Hg as (c & u' & -> & Hac & Hg); [|done].
      apply IH in Hg as (t & s' & -> & Hf & Hg).
      exists (c :: t), s'. split; [done|]. split; [by constructor|done].
    + intros (t & s' & -> & Hf & Hg).
      apply Forall2_cons_inv_l in Hf as (c & t' & Hac & Hf & ->).
      apply glob_cons_intro; [done..|]. apply IH. by exists t', s'.
Qed.

Lemma glob_lits_same (q t p' s' : list Z) :
  Forall (fun a => a <> star) q ->
  Forall2 (fun a c => a = quest \/ a = c) q t ->
  glob (q ++ p') (t ++ s') <-> glob p' s'.
Proof.
  intros Hq Hf. rewrite (glob_lits q Hq). split.
  - intros (t' & s'' & Heq & Hf' & Hg).
    apply app_inj_1 in Heq as [-> ->]; [done|].
    apply Forall2_length in Hf, Hf'. congruence.
  - intros Hg. by exists t, s'.
Qed.

Lemma stuck_no_glob (pr : list Z) (c : Z) (sr : list Z) :
  stuck pr c -> ~ glob pr (c :: sr).
Proof.
  destruct pr as [|a pr]; simpl.
  - intros _ Hg. by apply glob_nil_l in Hg.
  - intros (H1 & H2 & H3) Hg.
    apply glob_cons_inv in Hg as (c' & u' & [= <- <-] & [?|?] & _); done.
Qed.

Lemma matchRest_correct (P S : list Z) (W : nat) (fuel : nat) :
  forall pr sr bt,
  loopInv P S pr sr bt W fuel ->
  match matchRest fuel pr sr bt with
  | Some rest => glob P S <-> Forall (fun a => a = star) rest
  | None => ~ glob P S
  end.
Proof.
  induction fuel as [|fuel IH]; intros pr sr bt (Hsr & HW & Hbt).
  { destruct bt as [[q m]|].
    - destruct Hbt as (? & ? & _ & _ & _ & _ & _ & _ & _ & ?). lia.
    - destruct Hbt. lia. }
  cbn [matchRest]. destruct sr as [|c sr].
  - (* the string is used up *)
    destruct bt as [[q m]|].
    + destruct Hbt as (seg & t & -> & -> & Hseg & _ & Hf & _ & Hg & _).
      rewrite Hg, app_nil_r. rewrite glob_star_inv. split.
      * intros (k & Hk & Hgk). apply (glob_lits seg Hseg) in Hgk
          as (t' & s' & Heq & Hf' & Hgp).
        apply Forall2_length in Hf, Hf'.
        apply (f_equal length) in Heq. rewrite length_drop, length_app in Heq.
        assert (s' = []) as -> by (destruct s'; [done|simpl in Heq; lia]).
        by apply glob_nil_r.
      * intros Hall. exists 0%nat. split; [lia|]. rewrite drop_0.
        rewrite <- (app_nil_r t). apply glob_lits_same; [done..|].
        by apply glob_nil_r.
    + destruct Hbt as [Hg _]. rewrite Hg. apply glob_nil_r.
  - apply Forall_cons in Hsr as [Hc Hsr].
    (* the step taken when the heads do not match *)
    assert (Hback : stuck pr c ->
      match match bt with
            | Some (q, _ :: m') => matchRest fuel q m' (Some (q, m'))
            | _ => None
            end with
      | Some rest => glob P S <-> Forall (fun a => a = star) rest
      | None => ~ glob P S
      end).
    { intros Hstuck. destruct bt as [[q m]|].
      - destruct Hbt as (seg & t & -> & -> & Hseg & Ht & Hf & HWq & Hg & Hfuel).
        assert (Hno : ~ glob (seg ++ pr) (t ++ c :: sr)).
        { rewrite glob_lits_same by done. by apply stuck_no_glob. }
        assert (Hm : Forall (fun c => c <> star) (t ++ c :: sr)).
        { apply Forall_app. split; [done|by constructor]. }
        destruct (t ++ c :: sr) as [|c0 m'] eqn:Em.
        { by destruct t. }
        apply Forall_cons in Hm as [_ Hm].
        apply IH. split; [done|]. split; [simpl in HWq; lia|].
        exists [], []. split; [done|]. split; [done|]. split; [done|].
        split; [done|]. split; [done|]. split; [simpl in HWq |- *; lia|].
        split.
        + rewrite Hg. split.
          * intros Hgs. apply glob_star_inv in Hgs as (k & Hk & Hgk).
            destruct k as [|k]; [by destruct Hno|].
            apply glob_star_inv. exists k. split; [simpl in Hk; lia|done].
          * apply glob_star_eat.
        + simpl in HWq, Hfuel |- *. nia.
      - destruct Hbt as [Hg _]. rewrite Hg. by apply stuck_no_glob. }
    destruct pr as [|a pr]; [by apply Hback|].
    destruct (Z.eqb_spec a quest) as [Haq|Haq];
      [|destruct (Z.eqb_spec a c) as [Hac|Hac]]; cbn [orb].
    1, 2: (* the heads match *)
      assert (Ha : a <> star) by (subst a; done);
      assert (Hor : a = quest \/ a = c) by (by (left + right));
      apply IH; (split; [done|]); (split; [simpl in HW; lia|]);
      destruct bt as [[q m]|].
    1, 3: destruct Hbt as (seg & t & -> & -> & Hseg & Ht & Hf & HWq & Hg & Hfuel);
      exists (seg ++ [a]), (t ++ [c]);
      (split; [by rewrite <- app_assoc|]); (split; [by rewrite <- app_assoc|]);
      (split; [apply Forall_app; by split; [|constructor]|]);
      (split; [apply Forall_app; by split; [|constructor]|]);
      (split; [apply Forall2_app; [done|by constructor]|]);
      (split; [done|]); (split; [done|]); simpl in Hfuel |- *; lia.
    1, 2: destruct Hbt as [Hg Hfuel]; split;
      [rewrite Hg; split;
        [intros Hgs; apply glob_cons_inv in Hgs as (c' & u' & [= <- <-] & _ & ?); done
        |by apply glob_cons_intro]
      |simpl in Hfuel |- *; nia].
    destruct (Z.eqb_spec a star) as [Has|Has].
    + (* a new wildcard *)
      subst a. apply IH. split; [by constructor|]. split; [simpl in HW |- *; lia|].
      exists [], []. split; [done|]. split; [done|]. split; [done|].
      split; [done|]. split; [done|]. split; [simpl in HW |- *; lia|].
      destruct bt as [[q m]|].
      * destruct Hbt as (seg & t & -> & -> & Hseg & Ht & Hf & HWq & Hg & Hfuel).
        split.
        -- rewrite Hg. split.
           ++ intros Hgs. apply glob_star_inv in Hgs as (k & Hk & Hgk).
              apply (glob_lits seg Hseg) in Hgk as (t' & s' & Heq & Hf' & Hgp).
              assert (Hs' : exists pre, c :: sr = pre ++ s').
              { apply Forall2_length in Hf, Hf'.
                assert (Hd : drop (length t') (drop k (t ++ c :: sr)) = s')
                  by (by rewrite Heq, drop_app_length).
                rewrite drop_drop in Hd.
                replace (k + length t')%nat with (length t + k)%nat in Hd by lia.
                rewrite <- drop_drop, drop_app_length in Hd.
                exists (take k (c :: sr)). by rewrite <- Hd, take_drop. }
              destruct Hs' as [pre ->]. by apply glob_star_absorb.
           ++ intros Hgs. apply glob_star_skip. by apply glob_lits_same.
        -- rewrite !length_app in Hfuel. simpl in Hfuel |- *. nia.
      * destruct Hbt as [Hg Hfuel]. split; [done|]. simpl in Hfuel |- *. nia.
    + by apply Hback.
Qed.

Lemma drop_Z_cons (l : list Z) (i : Z) :
  0 <= i < Z.of_nat (length l) ->
  drop (Z.to_nat i) l = (l !!! Z.to_nat i) :: drop (Z.to_nat (i + 1)) l.
Proof.
  intros Hi. replace (Z.to_nat (i + 1)) with (S (Z.to_nat i)) by lia.
  apply drop_S, list_lookup_lookup_total_lt. lia.
Qed.

Lemma drop_Z_end (l : list Z) (i : Z) :
  Z.of_nat (length l) <= i -> drop (Z.to_nat i) l = [].
Proof. intros Hi. apply drop_ge. lia. Qed.

(** The loop on indices and the loop on lists take the same steps. *)
Lemma wildcardLoop_matchRest (p s : list Z) (fuel : nat) :
  forall pi si starIdx mt,
  0 <= pi <= Z.of_nat (length p) ->
  0 <= si <= Z.of_nat (length s) ->
  starIdx = -1 \/ (0 <= starIdx < Z.of_nat (length p) /\ 0 <= mt <= si) ->
  match wildcardLoop fuel p s pi si starIdx mt,
        matchRest fuel (drop (Z.to_nat pi) p) (drop (Z.to_nat si) s)
          (if starIdx =? -1 then None
           else Some (drop (Z.to_nat (starIdx + 1)) p, drop (Z.to_nat mt) s)) with
  | Some pi', Some rest =>
      0 <= pi' <= Z.of_nat (length p) /\ rest = drop (Z.to_nat pi') p
  | None, None => True
  | _, _ => False
  end.
Proof.
  induction fuel as [|fuel IH]; intros pi si starIdx mt Hpi Hsi Hst; [done|].
  cbn [wildcardLoop matchRest].
  destruct (Z.ltb_spec si (Z.of_nat (length s))) as [Hlt|Hge].
  2: { rewrite (drop_Z_end s si) by lia. done. }
  rewrite (drop_Z_cons s si) by lia. cbv zeta.
  (* the backtracking step *)
  assert (Hback :
    match (if negb (starIdx =? -1)
           then wildcardLoop fuel p s (starIdx + 1) (mt + 1) starIdx (mt + 1)
           else None),
          match (if starIdx =? -1 then None
                 else Some (drop (Z.to_nat (starIdx + 1)) p, drop (Z.to_nat mt) s)) with
          | Some (q, _ :: m') => matchRest fuel q m' (Some (q, m'))
          | _ => None
          end with
    | Some pi', Some rest =>
        0 <= pi' <= Z.of_nat (length p) /\ rest = drop (Z.to_nat pi') p
    | None, None => True
    | _, _ => False
    end).
  { destruct (Z.eqb_spec starIdx (-1)) as [Hs|Hs]; [done|]. cbn [negb].
    destruct Hst as [?|[Hst Hmt]]; [done|].
    rewrite (drop_Z_cons s mt) by lia.
    specialize (IH (starIdx + 1) (mt + 1) starIdx (mt + 1)
                  ltac:(lia) ltac:(lia) ltac:(right; lia)).
    destruct (Z.eqb_spec starIdx (-1)); [done|]. exact IH. }
  destruct (Z.ltb_spec pi (Z.of_nat (length p))) as [Hpl|Hpg].
  2: { rewrite (drop_Z_end p pi) by lia. cbn [andb]. exact Hback. }
  rewrite (drop_Z_cons p pi) by lia. cbn [andb].
  destruct ((p !!! Z.to_nat pi =? quest) || (p !!! Z.to_nat pi =? s !!! Z.to_nat si)).
  { apply IH; [lia|lia|]. destruct Hst as [?|[? ?]]; [by left|right; lia]. }
  destruct (p !!! Z.to_nat pi =? star).
  { specialize (IH (pi + 1) si pi si ltac:(lia) ltac:(lia) ltac:(right; lia)).
    destruct (Z.eqb_spec pi (-1)); [lia|].
    by rewrite (drop_Z_cons s si) in IH by lia. }
  exact Hback.
Qed.

Lemma skipStars_stars (p : list Z) (fuel : nat) :
  forall pi,
  0 <= pi <= Z.of_nat (length p) ->
  Z.of_nat (length p) - pi <= Z.of_nat fuel ->
  skipStars fuel p pi = Z.of_nat (length p)
  <-> Forall (fun a => a = star) (drop (Z.to_nat pi) p).
Proof.
  induction fuel as [|fuel IH]; intros pi Hpi Hf.
  - simpl. rewrite (drop_Z_end p pi) by lia. split; [done|lia].
  - cbn [skipStars].
    destruct (Z.ltb_spec pi (Z.of_nat (length p))) as [Hlt|Hge].
    + rewrite (drop_Z_cons p pi) by lia. cbn [andb].
      destruct (Z.eqb_spec (p !!! Z.to_nat pi) star) as [He|He].
      * rewrite IH by lia. rewrite Forall_cons. by split; [|intros [_ ?]].
      * split; [lia|]. intros Hall. by apply Forall_cons in Hall as [? _].
    + rewrite (drop_Z_end p pi) by lia. cbn [andb]. split; [done|lia].
Qed.

Lemma wildcardMatch_decides (p s : list Z) :
  Forall (fun c => c <> star) s ->
  wildcardMatch p s = true <-> glob p s.
Proof.
  intros Hs. unfold wildcardMatch.
  set (fuel := ((length s + 2) * (length p + length s + 2))%nat).
  pose proof (wildcardLoop_matchRest p s fuel 0 0 (-1) 0
                ltac:(lia) ltac:(lia) ltac:(by left)) as Hsim.
  pose proof (matchRest_correct p s (length p + length s + 1) fuel p s None) as Hcor.
  change (-1 =? -1) with true in Hsim. change (Z.to_nat 0) with 0%nat in Hsim.
  rewrite !drop_0 in Hsim. cbv iota in Hsim.
  destruct (wildcardLoop fuel p s 0 0 (-1) 0) as [pi|],
    (matchRest fuel p s None) as [rest|]; try done.
  - destruct Hsim as [Hpi ->]. rewrite Z.eqb_eq.
    rewrite skipStars_stars by lia. symmetry. apply Hcor.
    split; [done|]. split; [lia|]. split; [done|]. unfold fuel. nia.
  - split; [done|]. intros Hg. exfalso. revert Hg. apply Hcor.
    split; [done|]. split; [lia|]. split; [done|]. unfold fuel. nia.
Qed.

(** [wildcardMatch] decides the pattern: on a string without the rune
    '*', it returns true exactly when the pattern matches the whole string
    with '*' standing for any run of runes and '?' for any one rune. *)
Theorem wildcardMatch_glob (p s : list Z) :
  Forall (fun c => c <> star) s ->
  wildcardMatch p s = true <-> glob p s.
Proof. exact (wildcardMatch_decides p s). Qed.

Lemma wildcardMatch_glob_witness :
  wildcardMatch (bytes_of_string "*_co.*") (bytes_of_string "wall_co.paa") = true
  <-> glob (bytes_of_string "*_co.*") (bytes_of_string "wall_co.paa").
Proof.
  apply (wildcardMatch_glob (bytes_of_string "*_co.*") (bytes_of_string "wall_co.paa")).
  vm_compute. repeat constructor; discriminate.
Defined.

(** The pattern of the colour maps matches a colour map and no normal map. *)
Example wildcardMatch_co :
  wildcardMatch (bytes_of_string "*_co.*") (bytes_of_string "wall_co.paa") = true
  /\ wildcardMatch (bytes_of_string "*_co.*") (bytes_of_string "wall_nohq.paa") = false.
Proof. split; vm_compute; reflexivity. Qed.
End Wildcard.

(** ** Resolving a hint *)

Section ResolveProofs.
Import resolver.
Variable filepath_Base : string -> string.
Variable strings_ToLower : string -> string.
Variable runes : string -> list Z.

(** Resolve returns the first hint of the configuration, in order, that
    applies to the lower-cased base name of the file, and nothing when no
    hint applies; a hint with an empty pattern never applies.  The name
    holds no '*'. *)
Theorem Resolve_first_match (name : string) (cfg : texconfig.TexConvertConfig) :
  let lower := strings_ToLower (filepath_Base name) in
  Forall (fun c => c <> star) (runes lower) ->
  match Resolve filepath_Base strings_ToLower runes name cfg with
  | Some hint =>
      exists before after,
        texconfig.Hints cfg = before ++ hint :: after
        /\ applies strings_ToLower runes lower hint
        /\ Forall (fun h => ~ applies strings_ToLower runes lower h) before
  | None => Forall (fun h => ~ applies strings_ToLower runes lower h) (texconfig.Hints cfg)
  end.
Proof.
  intros lower Hs. unfold Resolve, ResolveTexConvert. fold lower.
  induction (texconfig.Hints cfg) as [|hint hints IH]; cbn [resolveLoop]; [done|].
  assert (Hskip : ~ applies strings_ToLower runes lower hint ->
    match resolveLoop strings_ToLower runes lower hints with
    | Some hint0 =>
        exists before after,
          hint :: hints = before ++ hint0 :: after
          /\ applies strings_ToLower runes lower hint0
          /\ Forall (fun h => ~ applies strings_ToLower runes lower h) before
    | None => Forall (fun h => ~ applies strings_ToLower runes lower h) (hint :: hints)
    end).
  { intros Hno. destruct (resolveLoop _ _ lower hints) as [h0|].
    - destruct IH as (before & after & -> & Ha & Hb).
      exists (hint :: before), after. split; [done|]. split; [done|].
      by constructor.
    - by constructor. }
  destruct (decide (strings_ToLower (texconfig.Pattern hint) = EmptyString))
    as [He|He].
  { apply Hskip. by intros [? _]. }
  destruct (wildcardMatch _ _) eqn:Ew.
  - apply wildcardMatch_decides in Ew; [|done].
    exists [], hints. split; [done|]. split; [done|]. constructor.
  - apply Hskip. intros [_ Hg]. apply wildcardMatch_decides in Hg; [|done].
    congruence.
Qed.
End ResolveProofs.

Lemma Resolve_first_match_witness :
  match resolver.Resolve id id bytes_of_string "wall_co.paa" cfgTwoHints with
  | Some hint =>
      exists before after,
        texconfig.Hints cfgTwoHints = before ++ hint :: after
        /\ resolver.applies id bytes_of_string "wall_co.paa" hint
        /\ Forall (fun h => ~ resolver.applies id bytes_of_string "wall_co.paa" h)
             before
  | None =>
      Forall (fun h => ~ resolver.applies id bytes_of_string "wall_co.paa" h)
        (texconfig.Hints cfgTwoHints)
  end.
Proof.
  apply (Resolve_first_match id id bytes_of_string "wall_co.paa" cfgTwoHints).
  vm_compute. repeat constructor; discriminate.
Defined.

(** The name of a colour map resolves to the second hint of the table. *)
Example Resolve_wall_co :
  resolver.Resolve id id bytes_of_string "wall_co.paa" cfgTwoHints = Some hintDefault.
Proof. vm_compute. reflexivity. Qed.

(** ** Channel swizzles *)

Lemma isDefault_apply (e : texconfig.SwizzleExpr) (def : texconfig.SwizzleSource)
    (r g b a : Z) :
  texconfig.isDefault e def = true ->
  texconfig.SwizzleExpr_apply e r g b a def = texconfig.channelValue def r g b a.
Proof.
  unfold texconfig.isDefault, texconfig.SwizzleExpr_apply.
  destruct (texconfig.Valid e); [|done]. cbn [negb].
  destruct (texconfig.IsConst e); [done|].
  intros [Hs Hi]%andb_true_iff. apply bool_decide_eq_true in Hs.
  apply negb_true_iff in Hi. by rewrite Hs, Hi.
Qed.

(** The identity swizzle does nothing: when [IsIdentity] holds, applying
    the swizzle leaves every pixel of every image as it is, and [ZIWSTag]
    reports that no tag is to be written. *)
Theorem identity_swizzle_is_noop (s : texconfig.ChannelSwizzle) (img : Image)
    (x y : Z) :
  texconfig.IsIdentity s = true ->
  At (texconfig.ApplyChannelSwizzle img s) x y = At img x y
  /\ Dx (texconfig.ApplyChannelSwizzle img s) = Dx img
  /\ Dy (texconfig.ApplyChannelSwizzle img s) = Dy img
  /\ texconfig.ZIWSTag s = OK None.
Proof.
  intros Hid. split; [|split; [done|split; [done|]]].
  - unfold texconfig.IsIdentity in Hid.
    apply andb_true_iff in Hid as [Hid HA]. apply andb_true_iff in Hid as [Hid HB].
    apply andb_true_iff in Hid as [HR HG].
    unfold texconfig.ApplyChannelSwizzle, texconfig.ChannelSwizzle_apply. simpl.
    rewrite !isDefault_apply by done. simpl. by destruct (At img x y).
  - unfold texconfig.ZIWSTag. by rewrite Hid.
Qed.

Lemma identity_swizzle_is_noop_witness :
  At (texconfig.ApplyChannelSwizzle (onePixel (mkNRGBA 1 2 3 4))
        (texconfig.Swizzle hintDefault)) 0 0
  = At (onePixel (mkNRGBA 1 2 3 4)) 0 0
  /\ Dx (texconfig.ApplyChannelSwizzle (onePixel (mkNRGBA 1 2 3 4))
           (texconfig.Swizzle hintDefault)) = Dx (onePixel (mkNRGBA 1 2 3 4))
  /\ Dy (texconfig.ApplyChannelSwizzle (onePixel (mkNRGBA 1 2 3 4))
           (texconfig.Swizzle hintDefault)) = Dy (onePixel (mkNRGBA 1 2 3 4))
  /\ texconfig.ZIWSTag (texconfig.Swizzle hintDefault) = OK None.
Proof.
  apply (identity_swizzle_is_noop (texconfig.Swizzle hintDefault)
           (onePixel (mkNRGBA 1 2 3 4)) 0 0).
  reflexivity.
Defined.

(** The selector the encoder writes for a channel expression and the
    value the decoder's generic rule makes of that selector: for every
    expression but a constant other than 255, the decoder computes from
    the stored pixel what the expression computes from it. *)
Theorem selector_decodes_as_expression (e : texconfig.SwizzleExpr)
    (def : texconfig.SwizzleSource) (t : Z) (src : image_NRGBA) (so : Z)
    (r g b a : Z) :
  texconfig.ziwsValue e def = Some t ->
  (texconfig.Valid e = true -> texconfig.IsConst e = true ->
   texconfig.ConstValue e = 255) ->
  Pix_get (Pix src) (so + 0) = OK r -> Pix_get (Pix src) (so + 1) = OK g ->
  Pix_get (Pix src) (so + 2) = OK b -> Pix_get (Pix src) (so + 3) = OK a ->
  swizzleValue src so t = OK (texconfig.SwizzleExpr_apply e r g b a def).
Proof.
  intros Ht Hc Hr Hg Hb Ha.
  unfold texconfig.ziwsValue, texconfig.ziwsValueValid in Ht.
  unfold texconfig.SwizzleExpr_apply.
  destruct (texconfig.Valid e) eqn:Ev; cbn [negb] in *.
  - destruct (texconfig.IsConst e) eqn:Ec.
    + rewrite (Hc eq_refl eq_refl) in *. simpl in Ht. by injection Ht as <-.
    + destruct (texconfig.Source e), (texconfig.Invert e); try done;
        injection Ht as <-; unfold swizzleValue, swizzleGet; simpl;
        rewrite ?Hr, ?Hg, ?Hb, ?Ha; reflexivity.
  - cbn [texconfig.IsConst texconfig.Source texconfig.Invert] in Ht.
    destruct def; try done; injection Ht as <-;
      unfold swizzleValue, swizzleGet; simpl;
      rewrite ?Hr, ?Hg, ?Hb, ?Ha; reflexivity.
Qed.

Lemma selector_decodes_as_expression_witness :
  swizzleValue decoded1x1 0 5
  = OK (texconfig.SwizzleExpr_apply (texconfig.sw_R invertR) 10 20 30 40
          texconfig.SwizzleR).
Proof.
  apply (selector_decodes_as_expression (texconfig.sw_R invertR) texconfig.SwizzleR
           5 decoded1x1 0 10 20 30 40); try reflexivity.
  discriminate.
Defined.

(** ** The promotion of alpha from RGB *)

Lemma usesAlphaForRGB_not_identity (swz : texconfig.ChannelSwizzle) :
  usesAlphaForRGB swz = true -> texconfig.IsIdentity swz = false.
Proof.
  unfold usesAlphaForRGB, texconfig.IsIdentity, texconfig.isDefault. cbv zeta.
  intros Hu. repeat (apply andb_true_iff in Hu as [Hu ?]).
  repeat match goal with
         | H : _ && _ = true |- _ => apply andb_true_iff in H as [? ?]
         end.
  rewrite Hu. cbn [negb].
  destruct (texconfig.IsConst (texconfig.sw_R swz)); [done|].
  match goal with
  | H : bool_decide (texconfig.Source (texconfig.sw_R swz) = _) = true |- _ =>
      apply bool_decide_eq_true in H; rewrite H
  end.
  done.
Qed.

(** In [EncodeWithTexConfigOptions] the promotion of alpha from RGB runs
    only when [shouldSkipSwizzle] is false, and then it never changes the
    image: the conditions under which it would make a new image are the
    conditions under which the swizzle is skipped. *)
Theorem promotion_never_applies (img : Image) (hint : texconfig.TextureHint) :
  shouldSkipSwizzle img hint = false ->
  promoteAlphaFromRGBIfNeeded img hint = img.
Proof.
  unfold shouldSkipSwizzle, promoteAlphaFromRGBIfNeeded.
  destruct (usesAlphaForRGB (texconfig.Swizzle hint)) eqn:Eu; [|done].
  rewrite (usesAlphaForRGB_not_identity _ Eu). cbn [negb].
  destruct (alphaAndRGBRange img) as [[[minA maxA] minRGB] maxRGB].
  destruct ((Dx img <=? 0) || (Dy img <=? 0)); [done|].
  destruct (minA =? 255), (maxA =? 255), (minRGB =? maxRGB); done.
Qed.

Lemma promotion_never_applies_witness :
  promoteAlphaFromRGBIfNeeded (onePixel (mkNRGBA 1 2 3 255)) hintDefault
  = onePixel (mkNRGBA 1 2 3 255).
Proof.
  apply (promotion_never_applies (onePixel (mkNRGBA 1 2 3 255)) hintDefault).
  reflexivity.
Defined.

(** ** Mipmap filters *)

Lemma alphaNoise_range (x y level strength : Z) :
  0 < strength ->
  - strength <= alphaNoise x y level strength <= strength.
Proof.
  intros Hs. unfold alphaNoise.
  set (n := uint32 (_ * 0x85ebca6b)).
  assert (Hn : 0 <= n) by (unfold n, uint32; apply Z.mod_pos_bound; lia).
  assert (Hv : 0 <= Z.land n 31 < 32).
  { split; [by apply Z.land_nonneg; right|].
    change 31 with (Z.ones 5). rewrite Z.land_ones by lia.
    apply Z.mod_pos_bound. lia. }
  destruct (strength <=? 0) eqn:E; [lia|].
  set (v := Z.land n 31 - 16) in *.
  assert (-16 <= v <= 15) by (unfold v; lia).
  split.
  - apply Z.quot_le_lower_bound; [lia|]. nia.
  - apply Z.quot_le_upper_bound; [lia|]. nia.
Qed.

Lemma clampU8_near (a d s : Z) :
  0 <= a <= 255 -> - s <= d <= s ->
  0 <= clampU8 (a + d) <= 255 /\ - s <= clampU8 (a + d) - a <= s.
Proof.
  intros Ha Hd. unfold clampU8, uint8.
  destruct (a + d <? 0) eqn:E1; [lia|].
  destruct (255 <? a + d) eqn:E2; [lia|].
  rewrite Z.mod_small by lia. lia.
Qed.

(** The two alpha-noise filters leave the colour channels of every pixel
    as they are and move its alpha by at most 8 (AlphaNoise) or 16
    (AddAlphaNoise), keeping it within 0..255. *)
Theorem alpha_noise_is_bounded `{Collaborators} (img : Image) (level : Z)
    (filter : texconfig.MipmapFilter) (x y : Z) :
  filter = texconfig.MipmapFilterAlphaNoise
  \/ filter = texconfig.MipmapFilterAddAlphaNoise ->
  0 <= c_A (At img x y) <= 255 ->
  let strength :=
    if decide (filter = texconfig.MipmapFilterAlphaNoise) then 8 else 16 in
  let old := At img x y in
  let new := At (applyMipmapFilter img level filter) x y in
  c_R new = c_R old /\ c_G new = c_G old /\ c_B new = c_B old
  /\ 0 <= c_A new <= 255
  /\ - strength <= c_A new - c_A old <= strength.
Proof.
  intros [-> | ->] Ha; cbn -[alphaNoise clampU8];
    (split; [done|split; [done|split; [done|]]]).
  - rewrite decide_True by done.
    apply clampU8_near; [done|]. apply alphaNoise_range. lia.
  - rewrite decide_False by done.
    apply clampU8_near; [done|]. apply alphaNoise_range. lia.
Qed.

Lemma alpha_noise_is_bounded_witness :
  let img := onePixel (mkNRGBA 1 2 3 250) in
  let new := At (applyMipmapFilter (H := standIns) img 1
                   texconfig.MipmapFilterAddAlphaNoise) 0 0 in
  c_R new = 1 /\ c_G new = 2 /\ c_B new = 3
  /\ 0 <= c_A new <= 255 /\ - 16 <= c_A new - 250 <= 16.
Proof.
  apply (alpha_noise_is_bounded (H := standIns) (onePixel (mkNRGBA 1 2 3 250)) 1
           texconfig.MipmapFilterAddAlphaNoise 0 0).
  - right. reflexivity.
  - simpl. lia.
Defined.

Lemma applyMipmapFilter_dims `{Collaborators} (img : Image) (level : Z)
    (filter : texconfig.MipmapFilter) :
  Dx (applyMipmapFilter img level filter) = Dx img
  /\ Dy (applyMipmapFilter img level filter) = Dy img.
Proof. by destruct filter. Qed.

(** Whatever the filter, [generateMipmapsWithFilter] returns as many levels
    as [bcn.GenerateMipmaps] made, each with the dimensions it had, and the
    base level is the one [bcn.GenerateMipmaps] returned. *)
Theorem mipmap_filter_keeps_shape `{Collaborators} (img : Image) (useSRGB : bool)
    (filter : texconfig.MipmapFilter) :
  let mips := bcn_GenerateMipmaps img useSRGB in
  let out := generateMipmapsWithFilter img useSRGB filter in
  length out = length mips
  /\ out !! 0%nat = mips !! 0%nat
  /\ Dx <$> out = Dx <$> mips
  /\ Dy <$> out = Dy <$> mips.
Proof.
  cbv zeta. unfold generateMipmapsWithFilter.
  destruct (decide (filter = texconfig.MipmapFilterDefault)); [done|].
  set (f := fun (level : nat) (m : Image) => _).
  assert (Hd : forall l m, Dx (f l m) = Dx m /\ Dy (f l m) = Dy m).
  { intros l m. unfold f. destruct (l =? 0)%nat; [done|].
    apply applyMipmapFilter_dims. }
  split; [apply length_imap|]. split.
  { rewrite list_lookup_imap. by destruct (bcn_GenerateMipmaps img useSRGB). }
  split; apply list_eq; intros i; rewrite !list_lookup_fmap, list_lookup_imap;
    destruct (bcn_GenerateMipmaps img useSRGB !! i) as [m|]; simpl; try done;
    f_equal; apply Hd.
Qed.

(** ** The payload of the uncompressed formats *)

Lemma encodeStep_length `{Collaborators} (t : PaxType) (cs : list NRGBA)
    (st : list Z * nat) :
  length (foldl (encodeStep t) st cs).1 = length st.1.
Proof.
  revert st. induction cs as [|c cs IH]; intros [raw i]; [done|].
  cbn [foldl]. rewrite IH.
  unfold encodeStep, PutUint16. destruct t; cbn [fst]; by rewrite ?length_insert.
Qed.

Lemma encodePixelFormat_length `{Collaborators} (t : PaxType) (img : Image)
    (raw : list Z) :
  encodePixelFormat t img = OK raw ->
  Z.of_nat (length raw) = expectedMipSize t (Dx img) (Dy img).
Proof.
  unfold encodePixelFormat, expectedMipSize.
  destruct ((Dx img <=? 0) || (Dy img <=? 0)) eqn:E; [done|].
  apply orb_false_iff in E as [E1 E2].
  destruct t; try done; intros [= <-];
    rewrite encodeStep_length; cbn [fst bytesPerPixel];
    rewrite length_replicate, Z2Nat.id; lia.
Qed.

(** [encodePixelFormat] refuses an image with a non-positive side with
    ErrInvalidDimensions and a DXT (or unknown) format with
    ErrUnsupportedPixelFmt; for the four uncompressed formats it returns a
    payload of exactly [expectedMipSize] bytes, the size by which the
    reader tells a raw block from a compressed one. *)
Theorem encodePixelFormat_size `{Collaborators} (t : PaxType) (img : Image) :
  if (Dx img <=? 0) || (Dy img <=? 0)
  then encodePixelFormat t img = Err ErrInvalidDimensions
  else if isDXT t || bool_decide (t = PaxUnset)
  then encodePixelFormat t img = Err ErrUnsupportedPixelFmt
  else exists data, encodePixelFormat t img = OK data
       /\ Z.of_nat (length data) = expectedMipSize t (Dx img) (Dy img).
Proof.
  unfold encodePixelFormat, expectedMipSize.
  destruct ((Dx img <=? 0) || (Dy img <=? 0)) eqn:E; [done|].
  apply orb_false_iff in E as [E1 E2].
  destruct t; cbn [isDXT orb bool_decide]; try done;
    (eexists; split; [reflexivity|]);
    rewrite encodeStep_length; cbn [fst bytesPerPixel];
    rewrite length_replicate, Z2Nat.id; lia.
Qed.

(** ** What one encoded block can be *)

(** A block that [encodeMip] returns has the dimensions of the image it
    was made from; its LZO flag is set only for a DXT format with UseLZO,
    and then the payload is strictly shorter than the BCn data. Without
    the flag a DXT payload is the BCn data itself. For the other formats,
    unless ForceLZSS is set, the payload is never longer than
    [expectedMipSize]. *)
Theorem encodeMip_never_grows `{Collaborators} (opts : option EncodeOptions)
    (t : PaxType) (bcnOpts : option bcn_EncodeOptions) (m : Image)
    (blk : mipBlock) :
  encodeMip opts t bcnOpts m = OK blk ->
  mb_w blk = Dx m /\ mb_h blk = Dy m
  /\ (mb_useLZ blk = true ->
      isDXT t = true /\ (exists o, opts = Some o /\ UseLZO o = true))
  /\ (isDXT t = true ->
      exists img' raw,
        bcn_EncodeImageWithOptions img'
          (if decide (t = PaxDXT5) then bcn_FormatDXT5 else bcn_FormatDXT1)
          bcnOpts = OK raw
        /\ if mb_useLZ blk
           then lzo_Compress raw = OK (mb_data blk)
                /\ (length (mb_data blk) < length raw)%nat
           else mb_data blk = raw)
  /\ (isDXT t = false ->
      (forall o, opts = Some o -> ForceLZSS o = false) ->
      Z.of_nat (length (mb_data blk)) <= expectedMipSize t (Dx m) (Dy m)).
Proof.
  unfold encodeMip.
  set (img1 := match opts with
               | Some o => if NormalMapSwizzle o then swizzleNormalMap m else m
               | None => m end).
  set (img2 := match opts with
               | Some o => match Swizzle o with
                           | Some swz => if negb (SkipSwizzle o)
                                         then texconfig.ApplyChannelSwizzle img1 swz
                                         else img1
                           | None => img1 end
               | None => img1 end).
  assert (Hdims : Dx img2 = Dx m /\ Dy img2 = Dy m).
  { unfold img2, img1. destruct opts as [o|]; [|done].
    destruct (Swizzle o) as [swz|], (NormalMapSwizzle o), (SkipSwizzle o); done. }
  destruct Hdims as [Hdx Hdy].
  destruct (isDXT t) eqn:Edxt.
  - (* DXT *)
    set (fmt := if decide (t = PaxDXT5) then bcn_FormatDXT5 else bcn_FormatDXT1).
    assert (Henc : (if decide (t = PaxDXT5)
                    then bcn_EncodeImageWithOptions img2 bcn_FormatDXT5 bcnOpts
                    else bcn_EncodeImageWithOptions img2 bcn_FormatDXT1 bcnOpts)
                   = bcn_EncodeImageWithOptions img2 fmt bcnOpts).
    { unfold fmt. by destruct (decide (t = PaxDXT5)). }
    rewrite Henc. clear Henc.
    destruct (bcn_EncodeImageWithOptions img2 fmt bcnOpts) as [raw|e] eqn:Eb;
      [|discriminate].
    cbn [mbind result_bind negb].
    destruct opts as [o|]; cbn [andb].
    + rewrite andb_true_r.
      destruct (UseLZO o) eqn:Elzo.
      * destruct (lzo_Compress raw) as [comp|e] eqn:Ec; [|discriminate].
        cbn [mbind result_bind].
        destruct (length comp <? length raw)%nat eqn:Elt;
          cbn [mbind result_bind]; intros [= <-]; cbn [mb_w mb_h mb_useLZ mb_data].
        -- apply Nat.ltb_lt in Elt.
           split; [done|]. split; [done|]. split; [eauto|]. split; [|done].
           intros _. exists img2, raw. done.
        -- split; [done|]. split; [done|]. split; [done|]. split; [|done].
           intros _. exists img2, raw. done.
      * cbn [mbind result_bind]. intros [= <-]; cbn [mb_w mb_h mb_useLZ mb_data].
        split; [done|]. split; [done|]. split; [done|]. split; [|done].
        intros _. exists img2, raw. done.
    + cbn [mbind result_bind]. intros [= <-]; cbn [mb_w mb_h mb_useLZ mb_data].
      split; [done|]. split; [done|]. split; [done|]. split; [|done].
      intros _. exists img2, raw. done.
  - (* uncompressed formats *)
    destruct (encodePixelFormat t img2) as [raw|e] eqn:Ep; [|discriminate].
    cbn [mbind result_bind].
    assert (Hlen : Z.of_nat (length raw) = expectedMipSize t (Dx m) (Dy m)).
    { rewrite <- Hdx, <- Hdy. by apply encodePixelFormat_length. }
    assert (Hno : (match opts with Some o => UseLZO o && false | None => false end)
                  = false).
    { destruct opts; [apply andb_false_r|done]. }
    rewrite Hno. cbn [mbind result_bind].
    destruct (lzss_Compress raw) as [comp|e] eqn:Ec; [|discriminate].
    cbn [mbind result_bind].
    set (force := match opts with Some o => ForceLZSS o | None => false end).
    destruct (force || (length comp <? length raw)%nat) eqn:Ef;
      cbn [mbind result_bind]; intros [= <-]; cbn [mb_w mb_h mb_useLZ mb_data];
      (split; [done|split; [done|split; [done|split; [done|]]]]);
      intros _ Hforce.
    + assert (force = false) as Ef0.
      { unfold force. destruct opts as [o|]; [by apply Hforce|done]. }
      rewrite Ef0 in Ef. cbn [orb] in Ef. apply Nat.ltb_lt in Ef. lia.
    + lia.
Qed.

Lemma encodeMip_never_grows_witness :
  exists blk,
    encodeMip (H := standIns) None PaxARGB8 None (onePixel (mkNRGBA 1 2 3 4)) = OK blk
    /\ mb_w blk = 1 /\ mb_h blk = 1
    /\ Z.of_nat (length (mb_data blk)) <= 4.
Proof.
  eexists. split; [reflexivity|].
  destruct (encodeMip_never_grows (H := standIns) None PaxARGB8 None
              (onePixel (mkNRGBA 1 2 3 4)) _ eq_refl) as (Hw & Hh & _ & _ & Hlen).
  split; [exact Hw|]. split; [exact Hh|].
  apply Hlen; [reflexivity|]. intros o Ho. discriminate Ho.
Defined.

(** ** The options made from a hint *)

Lemma selectPaxType_range (stats : alphaStats) (hint : texconfig.TextureHint)
    (t : PaxType) :
  selectPaxType stats hint = OK t ->
  t ∈ [PaxDXT1; PaxDXT5; PaxARGB4; PaxARGBA5; PaxGRAYA]
  /\ (isDXT t = false ->
      texconfig.Format hint ∈ [texconfig.TexFormatARGB4444;
                               texconfig.TexFormatARGB1555;
                               texconfig.TexFormatAI88]).
Proof.
  unfold selectPaxType.
  destruct (texconfig.Format hint);
    try destruct (allHigh stats || negb (hasAlpha stats) || isBinary stats);
    intros [= <-]; (split; [set_solver|]); cbn; (discriminate || set_solver).
Qed.

(** The options [EncodeOptionsFromHint] returns: the format is one of
    DXT1, DXT5, ARGB4444, ARGB1555 and GRAYA (never ARGB8888, DXT2..4);
    a hint with EnableDXT false never gives a DXT format; UseLZO is set
    only for a DXT format and ForceLZSS exactly for ARGB4444; a payload
    swizzle and SkipSwizzle exclude each other; the GALF value is 1 or 2
    when the tag is to be written and 0 otherwise. *)
Theorem EncodeOptionsFromHint_invariants (img : Image)
    (hint : texconfig.TextureHint) (cfg : texconfig.TexConvertConfig)
    (skipSwizzle : bool) (o : EncodeOptions) :
  EncodeOptionsFromHint img hint cfg skipSwizzle = OK o ->
  Type_ o ∈ [PaxDXT1; PaxDXT5; PaxARGB4; PaxARGBA5; PaxGRAYA]
  /\ (texconfig.EnableDXT hint = Some false -> isDXT (Type_ o) = false)
  /\ UseLZO o = isDXT (Type_ o) && negb (texconfig.DisableLZO cfg)
  /\ (ForceLZSS o = true <-> Type_ o = PaxARGB4)
  /\ (ForceCXAMFull o = false <-> Type_ o = PaxGRAYA)
  /\ (is_Some (Swizzle o) -> SkipSwizzle o = false)
  /\ (if WriteGALF o then GALFValue o = 1 \/ GALFValue o = 2
      else GALFValue o = 0)
  /\ (WriteSwizzleTag o = false -> SwizzleTag o = (0, 0, 0, 0))
  /\ NormalMapSwizzle o = false /\ GenerateMipmaps o = None.
Proof.
  unfold EncodeOptionsFromHint.
  destruct (isTexViewUnsupported hint); [discriminate|].
  destruct (match texconfig.EnableDXT hint with
            | Some false => _ | _ => false end) eqn:Een; [discriminate|].
  destruct (selectPaxType (scanAlpha img) hint) as [t|e] eqn:Et; [|discriminate].
  cbn [mbind result_bind].
  match goal with
  | |- mbind _ ?m = _ -> _ =>
      destruct m as [tag|e] eqn:Etag; [|cbn [mbind result_bind]; discriminate]
  end.
  cbn [mbind result_bind]. intros [= <-].
  cbn [Type_ UseLZO ForceLZSS ForceCXAMFull Swizzle SkipSwizzle WriteGALF
       GALFValue WriteSwizzleTag SwizzleTag NormalMapSwizzle GenerateMipmaps].
  destruct (selectPaxType_range _ _ _ Et) as [Hr Hfmt].
  split; [exact Hr|]. split.
  { intros Hen. rewrite Hen in Een.
    destruct (isDXT t) eqn:Ed; [|done]. exfalso.
    unfold selectPaxType in Et.
    destruct (texconfig.Format hint); try discriminate Een;
      try discriminate Et; injection Et as <-; discriminate Ed. }
  split; [done|]. split.
  { rewrite bool_decide_eq_true. done. }
  split.
  { clear -Hr. set_unfold in Hr.
    destruct Hr as [->|[->|[->|[->|[->|[]]]]]]; vm_compute; split; congruence. }
  split.
  { intros [s Hs].
    destruct (negb (texconfig.IsIdentity (texconfig.Swizzle hint))), skipSwizzle;
      cbn in *; congruence. }
  split.
  { destruct (isDetailHint hint), (allHigh (scanAlpha img)),
      (isBinary (scanAlpha img)); cbn; auto. }
  split; [|done].
  destruct tag as [tg|]; cbn; [discriminate|done].
Qed.

Lemma EncodeOptionsFromHint_invariants_witness :
  exists o,
    EncodeOptionsFromHint (onePixel (mkNRGBA 1 2 3 4))
      hintDefault cfgNoLZO false = OK o
    /\ Type_ o ∈ [PaxDXT1; PaxDXT5; PaxARGB4; PaxARGBA5; PaxGRAYA]
    /\ (ForceLZSS o = true <-> Type_ o = PaxARGB4).
Proof.
  eexists. split; [reflexivity|].
  destruct (EncodeOptionsFromHint_invariants
              (onePixel (mkNRGBA 1 2 3 4)) hintDefault cfgNoLZO false _ eq_refl)
    as (Ht & _ & _ & Hf & _).
  split; [exact Ht|exact Hf].
Defined.

(** ** Automatic reduction *)

Lemma filter_head_first {A} (P : A -> Prop) `{!forall x, Decision (P x)}
    (l : list A) (x : A) (rest : list A) :
  filter P l = x :: rest ->
  exists before after,
    l = before ++ x :: after /\ Forall (fun y => ~ P y) before /\ P x.
Proof.
  induction l as [|y l IH]; [done|].
  rewrite filter_cons. destruct (decide (P y)) as [Hy|Hy].
  - intros [= -> _]. exists [], l. done.
  - intros Hf. destruct (IH Hf) as (before & after & -> & Hb & Hx).
    exists (y :: before), after. split; [done|]. split; [|done].
    by constructor.
Qed.

(** [autoReduceIfNeeded] either returns the image it was given or the
    first level of [bcn.GenerateMipmaps] whose sides are both within
    LimitSize. An image that already fits is never replaced, and an image
    none of whose levels fits is returned unreduced. *)
Theorem autoReduce_first_fitting `{Collaborators} (img : Image)
    (hint : texconfig.TextureHint) (cfg : texconfig.TexConvertConfig) :
  let limit := texconfig.LimitSize hint in
  let fits (m : Image) := Dx m <= limit /\ Dy m <= limit in
  let mips := bcn_GenerateMipmaps img
                (texconfig.UseSRGBFromDynRange cfg
                 && default false (texconfig.DynRange hint)) in
  let r := autoReduceIfNeeded img hint cfg in
  (fits img -> r = img)
  /\ (Forall (fun m => ~ fits m) mips -> r = img)
  /\ (r = img
      \/ exists before after,
           mips = before ++ r :: after
           /\ Forall (fun m => ~ fits m) before /\ fits r
           /\ ~ fits img /\ 0 < limit
           /\ texconfig.AutoReduce hint = Some true
           /\ texconfig.DisableAutoReduce cfg = false).
Proof.
  cbv zeta. unfold autoReduceIfNeeded.
  destruct (texconfig.DisableAutoReduce cfg) eqn:Edis; cbn [orb]; [auto|].
  destruct (texconfig.AutoReduce hint) as [[|]|] eqn:Ear; cbn [default negb];
    [|auto|auto].
  destruct ((Dx img <=? 0) || (Dy img <=? 0)) eqn:Epos; [auto|].
  destruct (texconfig.LimitSize hint <=? 0) eqn:Elim; [auto|].
  set (maxDim := if Dx img <? Dy img then Dy img else Dx img).
  destruct (maxDim <=? texconfig.LimitSize hint) eqn:Emax; [auto|].
  assert (Hbig : ~ (Dx img <= texconfig.LimitSize hint
                    /\ Dy img <= texconfig.LimitSize hint)).
  { unfold maxDim in Emax. destruct (Dx img <? Dy img) eqn:E; lia. }
  set (mips := bcn_GenerateMipmaps img _).
  destruct (filter _ mips) as [|best rest] eqn:Ef.
  - auto.
  - apply filter_head_first in Ef as (before & after & Hm & Hb & Hx).
    split; [intros Hfit; by destruct Hbig|]. split.
    + intros Hall. rewrite Hm in Hall.
      apply Forall_app in Hall as [_ Hall]. apply Forall_cons in Hall as [Hn _].
      by destruct Hn.
    + right. exists before, after. repeat split; try done; try tauto; lia.
Qed.

(** ** The 16-bit formats have no length check *)

Lemma Pix_set_ok (pix : list Z) (i v : Z) :
  0 <= i < Z.of_nat (length pix) ->
  exists pix', Pix_set pix i v = OK pix' /\ length pix' = length pix.
Proof.
  intros Hi. unfold Pix_set.
  destruct (Z.leb_spec 0 i); [|lia].
  destruct (Z.ltb_spec i (Z.of_nat (length pix))); [|lia].
  eexists. split; [done|]. by rewrite length_insert.
Qed.

Lemma Pix_set_panic (pix : list Z) (i v : Z) :
  Z.of_nat (length pix) <= i ->
  Pix_set pix i v = Err (GoPanic "index out of range").
Proof.
  intros Hi. unfold Pix_set.
  destruct (Z.ltb_spec i (Z.of_nat (length pix))); [lia|].
  by rewrite andb_false_r.
Qed.

Lemma decodeARGB4444_ok (raw pix : list Z) (i : Z) :
  0 <= i -> i * 4 + 3 < Z.of_nat (length pix) ->
  exists pix', decodeARGB4444 raw i pix = OK pix' /\ length pix' = length pix.
Proof.
  intros Hi Hl. unfold decodeARGB4444.
  destruct (Pix_set_ok pix (i * 4 + 0)
              (uint8 (Z.shiftl (Z.land (LittleEndian_Uint16
                 (drop (Z.to_nat (i * 2)) raw)) 0x0F) 4)))
    as (p1 & E1 & L1); [lia|].
  cbv zeta. rewrite E1. cbn [mbind result_bind].
  match goal with |- context [Pix_set p1 ?j ?v] =>
    destruct (Pix_set_ok p1 j v) as (p2 & E2 & L2); [lia|] end.
  rewrite E2. cbn [mbind result_bind].
  match goal with |- context [Pix_set p2 ?j ?v] =>
    destruct (Pix_set_ok p2 j v) as (p3 & E3 & L3); [lia|] end.
  rewrite E3. cbn [mbind result_bind].
  match goal with |- context [Pix_set p3 ?j ?v] =>
    destruct (Pix_set_ok p3 j v) as (p4 & E4 & L4); [lia|] end.
  exists p4. split; [done|lia].
Qed.

Lemma decodeARGB1555_ok (raw pix : list Z) (i : Z) :
  0 <= i -> i * 4 + 3 < Z.of_nat (length pix) ->
  exists pix', decodeARGB1555 raw i pix = OK pix' /\ length pix' = length pix.
Proof.
  intros Hi Hl. unfold decodeARGB1555. cbv zeta.
  match goal with |- context [Pix_set pix ?j ?v] =>
    destruct (Pix_set_ok pix j v) as (p1 & E1 & L1); [lia|] end.
  rewrite E1. cbn [mbind result_bind].
  match goal with |- context [Pix_set p1 ?j ?v] =>
    destruct (Pix_set_ok p1 j v) as (p2 & E2 & L2); [lia|] end.
  rewrite E2. cbn [mbind result_bind].
  match goal with |- context [Pix_set p2 ?j ?v] =>
    destruct (Pix_set_ok p2 j v) as (p3 & E3 & L3); [lia|] end.
  rewrite E3. cbn [mbind result_bind].
  match goal with |- context [Pix_set p3 ?j ?v] =>
    destruct (Pix_set_ok p3 j v) as (p4 & E4 & L4); [lia|] end.
  exists p4. split; [done|lia].
Qed.

Lemma decodeARGB4444_panic (raw pix : list Z) (i : Z) :
  Z.of_nat (length pix) <= i * 4 ->
  decodeARGB4444 raw i pix = Err (GoPanic "index out of range").
Proof.
  intros Hl. unfold decodeARGB4444. cbv zeta. by rewrite Pix_set_panic by lia.
Qed.

Lemma decodeARGB1555_panic (raw pix : list Z) (i : Z) :
  Z.of_nat (length pix) <= i * 4 ->
  decodeARGB1555 raw i pix = Err (GoPanic "index out of range").
Proof.
  intros Hl. unfold decodeARGB1555. cbv zeta. by rewrite Pix_set_panic by lia.
Qed.

Lemma forM_app {S X : Type} (xs ys : list X) (body : X -> S -> result S) (s : S) :
  forM (xs ++ ys) body s = s' ← forM xs body s; forM ys body s'.
Proof.
  revert s. induction xs as [|x xs IH]; intros s; cbn [forM app].
  - done.
  - destruct (body x s) as [s1|e]; cbn [mbind result_bind]; [apply IH|done].
Qed.

Section WordLoop.
Variable body : Z -> list Z -> result (list Z).
Hypothesis body_ok : forall pix i,
  0 <= i -> i * 4 + 3 < Z.of_nat (length pix) ->
  exists pix', body i pix = OK pix' /\ length pix' = length pix.
Hypothesis body_panic : forall pix i,
  Z.of_nat (length pix) <= i * 4 ->
  body i pix = Err (GoPanic "index out of range").

Lemma wordLoop_ok (n : nat) :
  forall (s : Z) (pix : list Z),
    0 <= s -> (s + Z.of_nat n) * 4 <= Z.of_nat (length pix) ->
    exists pix', forM (seqZ s (Z.of_nat n)) body pix = OK pix'
                 /\ length pix' = length pix.
Proof.
  induction n as [|n IH]; intros s pix Hs Hl.
  - exists pix. done.
  - rewrite seqZ_cons by lia. cbn [forM].
    destruct (body_ok pix s) as (p1 & -> & L1); [lia|lia|].
    cbn [mbind result_bind].
    replace (Z.pred (Z.of_nat (S n))) with (Z.of_nat n) by lia.
    destruct (IH (Z.succ s) p1) as (p2 & -> & L2); [lia|lia|].
    exists p2. split; [done|lia].
Qed.

Lemma wordLoop (n : Z) (pix : list Z) :
  0 <= n ->
  if Z.of_nat (length pix) <? n * 4
  then Z.of_nat (length pix) `mod` 4 = 0 ->
       forM (seqZ 0 n) body pix = Err (GoPanic "index out of range")
  else exists pix', forM (seqZ 0 n) body pix = OK pix'
                    /\ length pix' = length pix.
Proof.
  intros Hn. destruct (Z.ltb_spec (Z.of_nat (length pix)) (n * 4)) as [Hlong|Hshort].
  - intros Hmod. set (k := Z.of_nat (length pix) / 4).
    assert (Hk : Z.of_nat (length pix) = 4 * k).
    { unfold k. pose proof (Z.div_mod (Z.of_nat (length pix)) 4). lia. }
    replace n with (k + (n - k)) by lia.
    rewrite seqZ_app by lia. rewrite forM_app.
    destruct (wordLoop_ok (Z.to_nat k) 0 pix) as (p1 & Hp1 & L1); [lia|lia|].
    rewrite Z2Nat.id in Hp1 by lia. rewrite Hp1. cbn [mbind result_bind].
    rewrite seqZ_cons by lia. cbn [forM].
    rewrite body_panic by lia. done.
  - destruct (wordLoop_ok (Z.to_nat n) 0 pix) as (p1 & Hp1 & L1); [lia|lia|].
    rewrite Z2Nat.id in Hp1 by lia. eauto.
Qed.
End WordLoop.

(** [decodePixelFormat] checks the payload length for ARGB8888 and GRAYA
    but not for ARGB4444 and ARGB1555: it loops over the 16-bit words of
    the payload. For such a mip with positive sides and non-empty data,
    [Image] panics with an index out of range when the payload holds more
    words than the image has pixels; otherwise it returns an image of the
    given size, however short the payload. *)
Theorem overlong_16bit_payload_panics `{Collaborators} (t : PaxType)
    (data : list Z) (w h : Z) :
  t = PaxARGB4 \/ t = PaxARGBA5 ->
  0 < w -> 0 < h -> data <> [] ->
  if w * h <? Z.of_nat (length data) / 2
  then MipMap_Image (mkMipMap data t w h) = Err (GoPanic "index out of range")
  else exists img, MipMap_Image (mkMipMap data t w h) = OK img
                   /\ Rect_Dx img = w /\ Rect_Dy img = h
                   /\ Z.of_nat (length (Pix img)) = 4 * w * h.
Proof.
  intros Ht Hw Hh Hd. unfold MipMap_Image. cbn [mm_Width mm_Height mm_Data mm_Type].
  destruct (Z.leb_spec w 0); [lia|]. destruct (Z.leb_spec h 0); [lia|].
  destruct data as [|d0 data']; [done|]. set (data := d0 :: data').
  cbn [orb length Nat.eqb].
  set (n := Z.of_nat (length data) / 2).
  assert (Hn : 0 <= n) by (unfold n; apply Z.div_pos; lia).
  set (pix := replicate (Z.to_nat (4 * w * h)) 0).
  assert (Hpix : Z.of_nat (length pix) = 4 * w * h).
  { unfold pix. rewrite length_replicate. nia. }
  assert (Hloop : forall body,
             (forall p i, 0 <= i -> i * 4 + 3 < Z.of_nat (length p) ->
                exists p', body i p = OK p' /\ length p' = length p) ->
             (forall p i, Z.of_nat (length p) <= i * 4 ->
                body i p = Err (GoPanic "index out of range")) ->
             if w * h <? n
             then forM (seqZ 0 n) body pix = Err (GoPanic "index out of range")
             else exists p', forM (seqZ 0 n) body pix = OK p'
                             /\ Z.of_nat (length p') = 4 * w * h).
  { intros body Hok Hpanic. pose proof (wordLoop body Hok Hpanic n pix Hn) as Hl.
    rewrite Hpix in Hl.
    destruct (Z.ltb_spec (w * h) n), (Z.ltb_spec (4 * w * h) (n * 4)); try lia.
    - apply Hl. replace (4 * w * h) with (w * h * 4) by lia. apply Z.mod_mul. lia.
    - destruct Hl as (p' & Hp' & Hlen). exists p'. split; [done|lia]. }
  destruct Ht as [-> | ->]; cbn [isDXT]; unfold decodePixelFormat;
    fold data; fold n; change (Pix (image_NewNRGBA w h)) with pix.
  - specialize (Hloop (decodeARGB4444 data) (decodeARGB4444_ok data)
                  (decodeARGB4444_panic data)).
    destruct (w * h <? n).
    + by rewrite Hloop.
    + destruct Hloop as (p' & -> & Hlen). eexists. split; [done|].
      cbn. split; [done|]. split; [done|]. done.
  - specialize (Hloop (decodeARGB1555 data) (decodeARGB1555_ok data)
                  (decodeARGB1555_panic data)).
    destruct (w * h <? n).
    + by rewrite Hloop.
    + destruct Hloop as (p' & -> & Hlen). eexists. split; [done|].
      cbn. split; [done|]. split; [done|]. done.
Qed.

Lemma overlong_16bit_payload_panics_witness :
  MipMap_Image (H := standIns) (mkMipMap [1; 2; 3; 4] PaxARGB4 1 1)
  = Err (GoPanic "index out of range").
Proof.
  apply (overlong_16bit_payload_panics (H := standIns) PaxARGB4 [1; 2; 3; 4] 1 1).
  - left. reflexivity.
  - lia.
  - lia.
  - discriminate.
Defined.

(** ** Overrides *)

(** Of an override passed to [EncodeWithTexConfigOptions] only the fields
    BCn, SkipSwizzle, ForceCXAMFull and ForceLZSS are read: two overrides
    that agree on these four give the same file (or the same error),
    whatever their format, LZO, mipmap, GALF or swizzle-tag fields say. *)
Theorem override_reads_four_fields `{Collaborators} (img : Image)
    (resolved : option texconfig.TextureHint) (cfg : texconfig.TexConvertConfig)
    (ov1 ov2 : EncodeOptions) :
  BCn ov1 = BCn ov2 -> SkipSwizzle ov1 = SkipSwizzle ov2 ->
  ForceCXAMFull ov1 = ForceCXAMFull ov2 -> ForceLZSS ov1 = ForceLZSS ov2 ->
  EncodeWithTexConfigOptions img resolved cfg (Some ov1)
  = EncodeWithTexConfigOptions img resolved cfg (Some ov2).
Proof.
  intros Hb Hs Hc Hl.
  assert (Heq : forall dst, applyEncodeOverrides dst ov1 = applyEncodeOverrides dst ov2).
  { intros dst. unfold applyEncodeOverrides. by rewrite Hb, Hs, Hc, Hl. }
  unfold EncodeWithTexConfigOptions. destruct resolved as [hint|].
  - destruct (EncodeOptionsFromHint _ hint cfg _) as [o|e]; [|done].
    cbn [mbind result_bind]. by rewrite Heq.
  - by rewrite Heq.
Qed.

Lemma override_reads_four_fields_witness :
  EncodeWithTexConfigOptions (H := standIns) (onePixel (mkNRGBA 1 2 3 4)) None
    cfgNoLZO (Some EncodeOptions_zero)
  = EncodeWithTexConfigOptions (H := standIns) (onePixel (mkNRGBA 1 2 3 4)) None
      cfgNoLZO (Some optsARGB8).
Proof.
  apply (override_reads_four_fields (H := standIns) (onePixel (mkNRGBA 1 2 3 4))
           None cfgNoLZO EncodeOptions_zero optsARGB8); reflexivity.
Defined.

